(** * native-secure-logs: the offline-first encrypted synchronisation core

    A shallow embedding of the TypeScript services [EncryptionService],
    [DatabaseService], [HealthLogService] and [SyncService], and the
    properties of the specification that concern them.

    A second part embeds more of the code ([KeyManager] over the keychain,
    [sanitizeHealthLogData], the creation and the listing of records,
    [getSyncStats]) and states properties of the code itself: what the
    store, the sync engine and the key manager keep, lose or never do.

    Conventions of the embedding:
    - a JavaScript [number] that the code uses as an identifier, a counter
      or a timestamp is a [Z]; a JavaScript [string], which is a sequence of
      16-bit code units, is the [string] of the bytes of its UTF-8 encoding,
      a surrogate that has no partner being written as the three bytes of
      its own value: [Js.length] counts code units, [trim] strips the white
      space and the line terminators of ECMAScript, and where the code
      concatenates strings or searches one for another, one of the two is
      an ASCII literal, on which bytes and code units agree;
    - a call that may throw returns a [completion]; a method of a stateful
      object is a function from the state to a completion and the next
      state ([Eff]); the sync engine is given a second time as tasks that
      are suspended at their awaits ([Async]), to speak of calls in flight;
    - what the platform decides (the answers of the hosted backend, driver
      faults of SQLite, the clock, crypto-js, JSON) is an explicit input. *)

From Stdlib Require Import ZArith List String Ascii Bool Arith Lia DecimalString.
From Stdlib Require Import Sorted Permutation.
Import ListNotations.
Local Open Scope string_scope.
Local Open Scope Z_scope.

(** ** JavaScript values that cross the modelled code *)

Module Js.

(** What a [throw] carries: an [Error] instance with its [message], or any
    other value (of which the code only ever uses its string rendering). *)
Inductive thrown : Type :=
| ErrorObj (message : string)
| NonError (rendering : string).

(** The result of evaluating a call. *)
Inductive completion (A : Type) : Type :=
| Returns (a : A)
| Throws (e : thrown).
Arguments Returns {A} a.
Arguments Throws {A} e.

(** [error instanceof Error ? error.message : 'Unknown error'] *)
Definition message_or_unknown (e : thrown) : string :=
  match e with
  | ErrorObj m => m
  | NonError _ => "Unknown error"
  end.

(** [`${error}`]: an [Error] renders as [Error: <message>]. *)
Definition render (e : thrown) : string :=
  match e with
  | ErrorObj m => "Error: " ++ m
  | NonError r => r
  end.

(** [a || b] on strings: the empty string is falsy. *)
Definition or_else (a : option string) (b : string) : string :=
  match a with
  | Some (String c s) => String c s
  | _ => b
  end.

(** [!s] for a string. *)
Definition falsy (s : string) : bool :=
  match s with EmptyString => true | _ => false end.

(** The value of a byte. *)
Definition byte (c : ascii) : N := N_of_ascii c.

(** The number of UTF-16 code units of the character whose encoding starts
    with the byte [c]: none for a byte that continues a character, two for
    the first byte of a character above U+FFFF. *)
Definition code_units (c : ascii) : nat :=
  let n := byte c in
  if (n <? 128)%N then 1%nat
  else if (n <? 192)%N then 0%nat
  else if (n <? 240)%N then 1%nat
  else 2%nat.

(** [s.length] *)
Fixpoint length (s : string) : nat :=
  match s with
  | EmptyString => 0%nat
  | String c t => (code_units c + length t)%nat
  end.

(** [c] continues a character. *)
Definition continues (c : ascii) : bool :=
  ((128 <=? byte c) && (byte c <=? 191))%N%bool.

(** [s] is the UTF-8 encoding of a sequence of Unicode scalar values: the
    string has no surrogate without a partner. *)
Fixpoint valid_utf8 (s : string) : bool :=
  match s with
  | EmptyString => true
  | String c1 t1 =>
      let a := byte c1 in
      if (a <? 128)%N then valid_utf8 t1
      else
        match t1 with
        | EmptyString => false
        | String c2 t2 =>
            let b := byte c2 in
            if ((194 <=? a) && (a <=? 223))%N%bool
            then (continues c2 && valid_utf8 t2)%bool
            else
              match t2 with
              | EmptyString => false
              | String c3 t3 =>
                  if ((224 <=? a) && (a <=? 239))%N%bool
                  then (continues c2 && continues c3
                        && (negb (a =? 224)%N || (160 <=? b)%N)
                        && (negb (a =? 237)%N || (b <=? 159)%N)
                        && valid_utf8 t3)%bool
                  else
                    match t3 with
                    | EmptyString => false
                    | String c4 t4 =>
                        if ((240 <=? a) && (a <=? 244))%N%bool
                        then (continues c2 && continues c3 && continues c4
                              && (negb (a =? 240)%N || (144 <=? b)%N)
                              && (negb (a =? 244)%N || (b <=? 143)%N)
                              && valid_utf8 t4)%bool
                        else false
                    end
              end
        end
  end.

(** The three bytes of the code unit [u], for [u] from U+0800 on. *)
Definition three_bytes (u : N) : string :=
  String (ascii_of_N (224 + u / 4096))
    (String (ascii_of_N (128 + (u / 64) mod 64))
       (String (ascii_of_N (128 + u mod 64)) EmptyString)).

(** The code units of [s], each as a string of its own: what indexing a
    string gives. A character above U+FFFF gives its two surrogates. *)
Fixpoint units (s : string) : list string :=
  match s with
  | EmptyString => []
  | String c1 t1 =>
      let a := byte c1 in
      if (a <? 192)%N then String c1 EmptyString :: units t1
      else
        match t1 with
        | EmptyString => [s]
        | String c2 t2 =>
            if (a <? 224)%N
            then String c1 (String c2 EmptyString) :: units t2
            else
              match t2 with
              | EmptyString => [s]
              | String c3 t3 =>
                  if (a <? 240)%N
                  then String c1 (String c2 (String c3 EmptyString))
                       :: units t3
                  else
                    match t3 with
                    | EmptyString => [s]
                    | String c4 t4 =>
                        let point :=
                          ((a mod 8) * 262144 + (byte c2 mod 64) * 4096
                           + (byte c3 mod 64) * 64 + byte c4 mod 64)%N in
                        let v := (point - 65536)%N in
                        three_bytes (55296 + v / 1024)
                        :: three_bytes (56320 + v mod 1024)
                        :: units t4
                    end
              end
        end
  end.

Definition is_upper (c : ascii) : bool :=
  let n := nat_of_ascii c in (Nat.leb 65 n && Nat.leb n 90)%bool.

Definition lower_char (c : ascii) : ascii :=
  if is_upper c then ascii_of_nat (nat_of_ascii c + 32) else c.

(** U+0130, whose lower case is i followed by U+0307. *)
Definition is_dotted_I (c1 c2 : ascii) : bool :=
  ((byte c1 =? 196) && (byte c2 =? 176))%N%bool.

(** U+212A, the Kelvin sign, whose lower case is k. *)
Definition is_kelvin (c1 c2 c3 : ascii) : bool :=
  ((byte c1 =? 226) && (byte c2 =? 132) && (byte c3 =? 170))%N%bool.

(** [String.prototype.toLowerCase], as far as a search for ASCII text in
    its result can tell (the one use the code makes of it): the letters A
    to Z, and the two characters outside ASCII whose lower case holds an
    ASCII letter. The lower case of any other character is outside ASCII,
    and the character is left as it is. *)
Fixpoint toLowerCase (s : string) : string :=
  match s with
  | EmptyString => EmptyString
  | String c1 t1 =>
      match t1 with
      | EmptyString => String (lower_char c1) EmptyString
      | String c2 t2 =>
          if is_dotted_I c1 c2
          then String "i"%char
                 (String (ascii_of_nat 204)
                    (String (ascii_of_nat 135) (toLowerCase t2)))
          else
            match t2 with
            | EmptyString => String (lower_char c1) (toLowerCase t1)
            | String c3 t3 =>
                if is_kelvin c1 c2 c3
                then String "k"%char (toLowerCase t3)
                else String (lower_char c1) (toLowerCase t1)
            end
      end
  end.

(** [hay.includes(needle)], for the ASCII needles of the code. *)
Fixpoint includes (hay needle : string) : bool :=
  (String.prefix needle hay ||
   match hay with
   | EmptyString => false
   | String _ t => includes t needle
   end)%bool.

(** The white space and the line terminators of ECMAScript, which [trim]
    strips: in ASCII, the space and U+0009 to U+000D; *)
Definition is_space (c : ascii) : bool :=
  let n := nat_of_ascii c in
  (Nat.eqb n 32 || (Nat.leb 9 n && Nat.leb n 13))%bool.

(** in two bytes, U+00A0; *)
Definition is_space2 (c1 c2 : ascii) : bool :=
  ((byte c1 =? 194) && (byte c2 =? 160))%N%bool.

(** in three bytes, U+1680; U+2000 to U+200A, U+2028, U+2029 and U+202F;
    U+205F; U+3000; U+FEFF. *)
Definition is_space3 (c1 c2 c3 : ascii) : bool :=
  let a := byte c1 in
  let b := byte c2 in
  let c := byte c3 in
  ((a =? 225) && (b =? 154) && (c =? 128)
   || (a =? 226) && (b =? 128)
      && ((128 <=? c) && (c <=? 138) || (c =? 168) || (c =? 169) || (c =? 175))
   || (a =? 226) && (b =? 129) && (c =? 159)
   || (a =? 227) && (b =? 128) && (c =? 128)
   || (a =? 239) && (b =? 187) && (c =? 191))%N%bool.

(** What follows the white space character that [s] starts with, if it
    starts with one. *)
Definition white_prefix (s : string) : option string :=
  match s with
  | String c1 t1 =>
      if is_space c1 then Some t1
      else
        match t1 with
        | String c2 t2 =>
            if is_space2 c1 c2 then Some t2
            else
              match t2 with
              | String c3 t3 =>
                  if is_space3 c1 c2 c3 then Some t3 else None
              | EmptyString => None
              end
        | EmptyString => None
        end
  | EmptyString => None
  end.

(** [String.prototype.trimStart] *)
Fixpoint trimStart (s : string) : string :=
  match s with
  | String c1 t1 =>
      if is_space c1 then trimStart t1
      else
        match t1 with
        | String c2 t2 =>
            if is_space2 c1 c2 then trimStart t2
            else
              match t2 with
              | String c3 t3 =>
                  if is_space3 c1 c2 c3 then trimStart t3 else s
              | EmptyString => s
              end
        | EmptyString => s
        end
  | EmptyString => EmptyString
  end.

(** [s] is white space only. *)
Fixpoint all_white (s : string) : bool :=
  match s with
  | String c1 t1 =>
      if is_space c1 then all_white t1
      else
        match t1 with
        | String c2 t2 =>
            if is_space2 c1 c2 then all_white t2
            else
              match t2 with
              | String c3 t3 =>
                  if is_space3 c1 c2 c3 then all_white t3 else false
              | EmptyString => false
              end
        | EmptyString => false
        end
  | EmptyString => true
  end.

(** [String.prototype.trimEnd]: the string up to where only white space
    follows. *)
Fixpoint trimEnd (s : string) : string :=
  match s with
  | String c t => if all_white s then EmptyString else String c (trimEnd t)
  | EmptyString => EmptyString
  end.

(** [String.prototype.trim] *)
Definition trim (s : string) : string := trimEnd (trimStart s).

(** *** Dynamically typed values

    What [JSON.parse] can give and what an object passed as [any] can hold.
    An object lists its own properties in insertion order, each key once. *)
#[warnings="-register-all"]
Inductive value : Type :=
| Undefined
| Null
| Boolean (b : bool)
| Number (n : Z)
| Str (s : string)
| Arr (items : list value)
| Obj (props : list (string * value)).

Definition object : Type := list (string * value).

(** [!!v] *)
Definition truthy (v : value) : bool :=
  match v with
  | Undefined | Null => false
  | Boolean b => b
  | Number n => negb (n =? 0)
  | Str s => negb (falsy s)
  | Arr _ | Obj _ => true
  end.

Definition is_string (v : value) : bool :=
  match v with Str _ => true | _ => false end.

Definition is_undefined (v : value) : bool :=
  match v with Undefined => true | _ => false end.

(** [o.key] for an object [o]: [undefined] when [o] has no such property. *)
Fixpoint prop (o : object) (key : string) : value :=
  match o with
  | [] => Undefined
  | (k, v) :: rest => if String.eqb k key then v else prop rest key
  end.

(** [o[key] = v]: an existing property keeps its place. *)
Fixpoint set_prop (key : string) (v : value) (o : object) : object :=
  match o with
  | [] => [(key, v)]
  | (k, v0) :: rest =>
      if String.eqb k key then (k, v) :: rest
      else (k, v0) :: set_prop key v rest
  end.

Definition index_key (i : nat) : string :=
  NilEmpty.string_of_uint (Nat.to_uint i).

Fixpoint indexed {A} (f : A -> value) (i : nat) (l : list A) : object :=
  match l with
  | [] => []
  | x :: rest => (index_key i, f x) :: indexed f (S i) rest
  end.

(** The own enumerable properties that [{...v}] copies. *)
Definition own_props (v : value) : object :=
  match v with
  | Obj o => o
  | Arr items => indexed (fun x => x) 0 items
  | Str s => indexed Str 0 (units s)
  | _ => []
  end.

(** [{...target, ...source}] *)
Definition spread (source : object) (target : object) : object :=
  fold_left (fun acc kv => set_prop (fst kv) (snd kv) acc) source target.

(** [v.key] for a truthy [v] and a key that only an object can carry. *)
Definition member (v : value) (key : string) : value :=
  match v with
  | Obj o => prop o key
  | _ => Undefined
  end.

(** A [TypeError] is an [Error]; the engine chooses its message. *)
Definition TypeError (message : string) : thrown := ErrorObj message.

(** [v.trim()] *)
Definition call_trim (v : value) : completion value :=
  match v with
  | Str s => Returns (Str (trim s))
  | Undefined | Null =>
      Throws (TypeError "Cannot read property 'trim' of undefined")
  | _ => Throws (TypeError "trim is not a function")
  end.

(** [items.map(x => x.trim())], stopping at the first throw. *)
Fixpoint map_trim (items : list value) : completion (list value) :=
  match items with
  | [] => Returns []
  | x :: rest =>
      match call_trim x with
      | Throws e => Throws e
      | Returns x' =>
          match map_trim rest with
          | Throws e => Throws e
          | Returns rest' => Returns (x' :: rest')
          end
      end
  end.

(** [x.length > 0] for the strings [map_trim] returns. *)
Definition nonempty (v : value) : bool :=
  match v with
  | Str s => negb (falsy s)
  | _ => false
  end.

(** [v.map(x => x.trim()).filter(x => x.length > 0)] *)
Definition call_trim_each (v : value) : completion value :=
  match v with
  | Arr items =>
      match map_trim items with
      | Throws e => Throws e
      | Returns items' => Returns (Arr (filter nonempty items'))
      end
  | Undefined | Null =>
      Throws (TypeError "Cannot read property 'map' of undefined")
  | _ => Throws (TypeError "map is not a function")
  end.

(** [v?.method()] *)
Definition optional (method : value -> completion value) (v : value)
  : completion value :=
  match v with
  | Undefined | Null => Returns Undefined
  | _ => method v
  end.

(** *** Stateful calls

    A method of an object with state [S]: it returns or throws, and leaves
    the next state either way. *)
Definition Eff (S A : Type) : Type := S -> completion A * S.

Definition ret {S A} (a : A) : Eff S A := fun s => (Returns a, s).

Definition throw {S A} (e : thrown) : Eff S A := fun s => (Throws e, s).

Definition bind {S A B} (m : Eff S A) (k : A -> Eff S B) : Eff S B :=
  fun s =>
    match m s with
    | (Returns a, s') => k a s'
    | (Throws e, s') => (Throws e, s')
    end.

(** [try { m } catch (error) { handler }] *)
Definition try_catch {S A} (m : Eff S A) (handler : thrown -> Eff S A)
  : Eff S A :=
  fun s =>
    match m s with
    | (Returns a, s') => (Returns a, s')
    | (Throws e, s') => handler e s'
    end.

(** [try { m } finally { cleanup }] for a cleanup that only assigns. *)
Definition try_finally {S A} (m : Eff S A) (cleanup : S -> S) : Eff S A :=
  fun s => let (r, s') := m s in (r, cleanup s').

(** A call without effect on the state. *)
Definition pure {S A} (c : completion A) : Eff S A := fun s => (c, s).

(** Reads a field; assigns fields. *)
Definition gets {S A} (f : S -> A) : Eff S A := fun s => (Returns (f s), s).

Definition modify {S} (f : S -> S) : Eff S unit := fun s => (Returns tt, f s).

(** Runs a method of a component [T] held inside the state [S]. *)
Definition within {S T A} (get : S -> T) (set : T -> S -> S) (m : Eff T A)
  : Eff S A :=
  fun s => let (r, t') := m (get s) in (r, set t' s).

End Js.
Import Js.

Declare Scope eff_scope.
Delimit Scope eff_scope with eff.
Notation "x <- m ;; k" := (bind m (fun x => k))
  (at level 61, m at next level, right associativity) : eff_scope.
Notation "' p <- m ;; k" := (bind m (fun p => k))
  (at level 61, p pattern, m at next level, right associativity) : eff_scope.
Notation "m ;; k" := (bind m (fun _ => k))
  (at level 61, right associativity) : eff_scope.

(** ** DatabaseService: the local record store over expo-sqlite *)

Module Database.

(** A row of [health_logs]. Timestamps are seconds of the SQLite clock. *)
Record HealthLogRecord : Type := mkHealthLogRecord {
  id : Z;
  user_id : Z;
  encrypted_data : string;
  created_at : Z;
  updated_at : Z;
  synced_at : option Z;
  cloud_id : option string
}.

(** The open database: the table, the AUTOINCREMENT sequence and the number
    of statements run so far. The platform decides, for the n-th statement,
    the value of CURRENT_TIMESTAMP and whether the driver rejects it. *)
Record SQLiteDatabase : Type := mkSQLiteDatabase {
  health_logs : list HealthLogRecord;
  sqlite_sequence : Z;
  statements : nat;
  current_timestamp : nat -> Z;
  driver_fault : nat -> option thrown
}.

(** The singleton: [db] is [null] until [initialize] has run. *)
Record DatabaseService : Type := mkDatabaseService {
  db : option SQLiteDatabase
}.

Definition with_rows (rows : list HealthLogRecord) (s : SQLiteDatabase)
  : SQLiteDatabase :=
  mkSQLiteDatabase rows (sqlite_sequence s) (statements s)
                   (current_timestamp s) (driver_fault s).

Definition with_sequence (n : Z) (s : SQLiteDatabase) : SQLiteDatabase :=
  mkSQLiteDatabase (health_logs s) n (statements s)
                   (current_timestamp s) (driver_fault s).

Definition next_statement (s : SQLiteDatabase) : SQLiteDatabase :=
  mkSQLiteDatabase (health_logs s) (sqlite_sequence s) (S (statements s))
                   (current_timestamp s) (driver_fault s).

(** One statement against the open database: the driver rejects it, or it
    takes effect at the current timestamp. *)
Definition statement {A} (effect : Z -> SQLiteDatabase -> A * SQLiteDatabase)
  : Eff SQLiteDatabase A :=
  fun s =>
    match driver_fault s (statements s) with
    | Some e => (Throws e, next_statement s)
    | None =>
        let (a, s') := effect (current_timestamp s (statements s)) s in
        (Returns a, next_statement s')
    end.

(** The shape every public method has:
    [if (!this.db) throw ...; try { body } catch (error) { throw new
    Error(`<prefix>: ${error}`) }]. *)
Definition guarded {A} (prefix : string) (body : Eff SQLiteDatabase A)
  : Eff DatabaseService A :=
  fun d =>
    match db d with
    | None => (Throws (ErrorObj "Database not initialized"), d)
    | Some s =>
        match body s with
        | (Returns a, s') => (Returns a, mkDatabaseService (Some s'))
        | (Throws e, s') =>
            (Throws (ErrorObj (prefix ++ ": " ++ render e)),
             mkDatabaseService (Some s'))
        end
    end.

(** ORDER BY created_at ASC; rows of equal [created_at] stay in table order
    (SQLite leaves their order open). *)
Fixpoint insert_asc (r : HealthLogRecord) (sorted : list HealthLogRecord)
  : list HealthLogRecord :=
  match sorted with
  | [] => [r]
  | x :: rest =>
      if created_at r <=? created_at x then r :: sorted
      else x :: insert_asc r rest
  end.

Definition order_by_created_at_asc (rows : list HealthLogRecord)
  : list HealthLogRecord :=
  fold_right insert_asc [] rows.

(** ORDER BY created_at DESC. *)
Fixpoint insert_desc (r : HealthLogRecord) (sorted : list HealthLogRecord)
  : list HealthLogRecord :=
  match sorted with
  | [] => [r]
  | x :: rest =>
      if created_at x <=? created_at r then r :: sorted
      else x :: insert_desc r rest
  end.

Definition order_by_created_at_desc (rows : list HealthLogRecord)
  : list HealthLogRecord :=
  fold_right insert_desc [] rows.

Definition is_null {A} (o : option A) : bool :=
  match o with None => true | Some _ => false end.

(** INSERT INTO health_logs (user_id, encrypted_data, updated_at)
    VALUES (?, ?, CURRENT_TIMESTAMP) *)
Definition createHealthLog (userId : Z) (encryptedData : string)
  : Eff DatabaseService Z :=
  guarded "Failed to create health log"
    (statement (fun now s =>
       let rowid := sqlite_sequence s + 1 in
       let row := mkHealthLogRecord rowid userId encryptedData now now
                                    None None in
       (rowid, with_sequence rowid (with_rows (health_logs s ++ [row])%list s)))).

(** SELECT * FROM health_logs WHERE user_id = ? ORDER BY created_at DESC *)
Definition getHealthLogsByUserId (userId : Z)
  : Eff DatabaseService (list HealthLogRecord) :=
  guarded "Failed to get health logs"
    (statement (fun _ s =>
       (order_by_created_at_desc
          (filter (fun r => user_id r =? userId) (health_logs s)), s))).

(** SELECT * FROM health_logs WHERE id = ? *)
Definition getHealthLogById (id0 : Z)
  : Eff DatabaseService (option HealthLogRecord) :=
  guarded "Failed to get health log"
    (statement (fun _ s =>
       (find (fun r => id r =? id0) (health_logs s), s))).

Definition set_payload (encryptedData : string) (now : Z)
  (r : HealthLogRecord) : HealthLogRecord :=
  mkHealthLogRecord (id r) (user_id r) encryptedData (created_at r) now
                    (synced_at r) (cloud_id r).

Definition set_synced (cloudId : string) (now : Z) (r : HealthLogRecord)
  : HealthLogRecord :=
  mkHealthLogRecord (id r) (user_id r) (encrypted_data r) (created_at r)
                    (updated_at r) (Some now) (Some cloudId).

(** UPDATE health_logs SET ... WHERE id = ? *)
Definition update_where_id (id0 : Z) (f : HealthLogRecord -> HealthLogRecord)
  (rows : list HealthLogRecord) : list HealthLogRecord :=
  map (fun r => if id r =? id0 then f r else r) rows.

(** UPDATE health_logs SET encrypted_data = ?, updated_at = CURRENT_TIMESTAMP
    WHERE id = ? *)
Definition updateHealthLog (id0 : Z) (encryptedData : string)
  : Eff DatabaseService unit :=
  guarded "Failed to update health log"
    (statement (fun now s =>
       (tt, with_rows
              (update_where_id id0 (set_payload encryptedData now)
                               (health_logs s)) s))).

(** DELETE FROM health_logs WHERE id = ? *)
Definition deleteHealthLog (id0 : Z) : Eff DatabaseService unit :=
  guarded "Failed to delete health log"
    (statement (fun _ s =>
       (tt, with_rows
              (filter (fun r => negb (id r =? id0)) (health_logs s)) s))).

(** UPDATE health_logs SET synced_at = CURRENT_TIMESTAMP, cloud_id = ?
    WHERE id = ? *)
Definition markHealthLogAsSynced (id0 : Z) (cloudId : string)
  : Eff DatabaseService unit :=
  guarded "Failed to mark health log as synced"
    (statement (fun now s =>
       (tt, with_rows
              (update_where_id id0 (set_synced cloudId now)
                               (health_logs s)) s))).

(** SELECT * FROM health_logs WHERE user_id = ? AND synced_at IS NULL
    ORDER BY created_at ASC *)
Definition select_unsynced (userId : Z) (rows : list HealthLogRecord)
  : list HealthLogRecord :=
  order_by_created_at_asc
    (filter (fun r => (user_id r =? userId) && is_null (synced_at r))%bool
            rows).

Definition getUnsyncedHealthLogs (userId : Z)
  : Eff DatabaseService (list HealthLogRecord) :=
  guarded "Failed to get unsynced health logs"
    (statement (fun _ s => (select_unsynced userId (health_logs s), s))).

(** DELETE FROM health_logs (the part of [clearAllData] on this table; the
    statements on [users] and [migrations] follow it). *)
Definition clearAllData : Eff DatabaseService unit :=
  guarded "Failed to clear data"
    (statement (fun _ s => (tt, with_rows [] s)) ;;
     statement (fun _ s => (tt, s)) ;;
     statement (fun _ s => (tt, s)))%eff.

(** [close]: [if (this.db) { await this.db.closeAsync(); this.db = null }].
    The model keeps no file behind the handle: a closed store has no rows. *)
Definition close : Eff DatabaseService unit :=
  fun d => (Returns tt, mkDatabaseService None).

(** The rows of the table; none while the database is not open. *)
Definition rows (d : DatabaseService) : list HealthLogRecord :=
  match db d with
  | Some s => health_logs s
  | None => []
  end.

End Database.

(** ** The Supabase client, as the sync engine uses it *)

Module Supabase.

(** The three requests [SyncService] sends. *)
Inductive Request : Type :=
| SelectOne
    (* from('health_logs').select('id').limit(1) *)
| GetUser
    (* auth.getUser() *)
| Insert (user_id : string) (encrypted_data : string) (device_id : string)
    (* from('health_logs').insert({...}).select('id').single() *).

(** What awaiting a request gives: the promise rejects, or it resolves to
    [{ data, error }]. [error] is the message of the error object, if any;
    [data] is the one field the caller reads ([data.id] of an insert, the
    [id] of [data.user] for [getUser]), if present. *)
Inductive Answer : Type :=
| Rejects (e : thrown)
| Resolves (data : option string) (error : option string).

(** The client together with the backend behind it: the backend decides the
    answer to the n-th request; [requests] lists what was sent, oldest
    first. *)
Record Client : Type := mkClient {
  answer : nat -> Answer;
  requests : list Request
}.

Definition send (r : Request) : Eff Client (option string * option string) :=
  fun c =>
    let c' := mkClient (answer c) (requests c ++ [r])%list in
    match answer c (List.length (requests c)) with
    | Rejects e => (Throws e, c')
    | Resolves data error => (Returns (data, error), c')
    end.

Definition is_insert (r : Request) : bool :=
  match r with Insert _ _ _ => true | _ => false end.

End Supabase.

(** ** SyncService: the sync engine *)

Module Sync.
Local Open Scope eff_scope.

Record SyncError : Type := mkSyncError {
  localId : Z;
  error : string;
  retryable : bool
}.

Record SyncResult : Type := mkSyncResult {
  success : bool;
  syncedCount : Z;
  failedCount : Z;
  errors : list SyncError
}.

(** The fields of the [SyncService] instance. *)
Record SyncService : Type := mkSyncService {
  isSyncing : bool;
  deviceId : option string
}.

(** Everything a call of the engine can read or change: the instance, the
    [DatabaseService] singleton, the Supabase client, and the delays (in
    milliseconds) handed to [setTimeout] so far, oldest first. *)
Record World : Type := mkWorld {
  engine : SyncService;
  database : Database.DatabaseService;
  supabase : Supabase.Client;
  timers : list Z
}.

Definition set_isSyncing (b : bool) (w : World) : World :=
  mkWorld (mkSyncService b (deviceId (engine w)))
          (database w) (supabase w) (timers w).

Definition set_deviceId (d : option string) (w : World) : World :=
  mkWorld (mkSyncService (isSyncing (engine w)) d)
          (database w) (supabase w) (timers w).

Definition set_database (d : Database.DatabaseService) (w : World) : World :=
  mkWorld (engine w) d (supabase w) (timers w).

Definition set_supabase (c : Supabase.Client) (w : World) : World :=
  mkWorld (engine w) (database w) c (timers w).

(** [await new Promise(resolve => setTimeout(resolve, delay))] *)
Definition setTimeout (delay : Z) (w : World) : World :=
  mkWorld (engine w) (database w) (supabase w) (timers w ++ [delay])%list.

Definition databaseService {A} (m : Eff Database.DatabaseService A)
  : Eff World A :=
  within database set_database m.

Definition supabase_send (r : Supabase.Request)
  : Eff World (option string * option string) :=
  within supabase set_supabase (Supabase.send r).

(** [SyncService.initialize]; [digest] is what
    [Crypto.digestStringAsync(SHA256, `${Date.now()}-${Math.random()}`)]
    gives. *)
Definition initialize (digest : completion string) : Eff World unit :=
  fun w =>
    match digest with
    | Returns d => (Returns tt, set_deviceId (Some d) w)
    | Throws e =>
        (Throws (ErrorObj ("Failed to initialize sync service: " ++ render e)),
         w)
    end.

(** [SyncService.checkConnectivity] *)
Definition checkConnectivity : Eff World bool :=
  try_catch
    ('(_, error) <- supabase_send Supabase.SelectOne ;;
     ret (match error with None => true | Some _ => false end))
    (fun _ => ret false).

(** [SyncService.getSupabaseUser]: the [id] of the user of the session, or
    [None] for [null]. *)
Definition getSupabaseUser : Eff World (option string) :=
  try_catch
    ('(user, error) <- supabase_send Supabase.GetUser ;;
     match error with
     | Some message =>
         throw (ErrorObj ("Failed to get Supabase user: " ++ message))
     | None => ret user
     end)
    (fun _ => ret None).

(** [this.deviceId!] *)
Definition non_null (s : option string) : string :=
  match s with
  | Some d => d
  | None => EmptyString
  end.

(** [SyncService.uploadHealthLog] *)
Definition uploadHealthLog (log : Database.HealthLogRecord)
  (supabaseUserId : string) : Eff World string :=
  try_catch
    (device <- gets (fun w => deviceId (engine w)) ;;
     '(data, error) <-
       supabase_send
         (Supabase.Insert supabaseUserId (Database.encrypted_data log)
                          (non_null device)) ;;
     match error with
     | Some message =>
         throw (ErrorObj ("Supabase insert error: " ++ message))
     | None =>
         match data with
         | Some (String c s) => ret (String c s)
         | _ => throw (ErrorObj "No ID returned from Supabase insert")
         end
     end)
    (fun error =>
       throw (ErrorObj ("Failed to upload health log: "
                        ++ message_or_unknown error))).

(** [SyncService.isRetryableError] *)
Definition isRetryableError (error : thrown) : bool :=
  match error with
  | ErrorObj m =>
      let message := toLowerCase m in
      if (includes message "network" || includes message "timeout" ||
          includes message "connection" || includes message "fetch")%bool
      then true
      else if (includes message "500" || includes message "502" ||
               includes message "503" || includes message "504")%bool
      then true
      else if (includes message "rate limit" || includes message "429")%bool
      then true
      else false
  | NonError _ => false
  end.

(** The body of the [for (const log of unsyncedLogs)] loop: the [try] with
    its [catch], on the running [result]. *)
Definition upload_one (log : Database.HealthLogRecord)
  (supabaseUserId : string) (result : SyncResult) : Eff World SyncResult :=
  try_catch
    (cloudId <- uploadHealthLog log supabaseUserId ;;
     databaseService
       (Database.markHealthLogAsSynced (Database.id log) cloudId) ;;
     ret (mkSyncResult (success result) (syncedCount result + 1)
                       (failedCount result) (errors result)))
    (fun error =>
       ret (mkSyncResult (success result) (syncedCount result)
              (failedCount result + 1)
              (errors result ++
                 [mkSyncError (Database.id log) (message_or_unknown error)
                              (isRetryableError error)])%list)).

(** [for (const log of unsyncedLogs) { ... }] *)
Fixpoint upload_each (unsyncedLogs : list Database.HealthLogRecord)
  (supabaseUserId : string) (result : SyncResult) : Eff World SyncResult :=
  match unsyncedLogs with
  | [] => ret result
  | log :: rest =>
      result' <- upload_one log supabaseUserId result ;;
      upload_each rest supabaseUserId result'
  end.

(** The [try] block of [syncHealthLogs]. *)
Definition sync_body (userId : Z) : Eff World SyncResult :=
  isOnline <- checkConnectivity ;;
  if negb isOnline
  then throw (ErrorObj "No internet connection available")
  else
    supabaseUser <- getSupabaseUser ;;
    match supabaseUser with
    | None => throw (ErrorObj "User not authenticated with Supabase")
    | Some supabaseUserId =>
        unsyncedLogs <-
          databaseService (Database.getUnsyncedHealthLogs userId) ;;
        match unsyncedLogs with
        | [] => ret (mkSyncResult true 0 0 [])
        | _ :: _ =>
            result <-
              upload_each unsyncedLogs supabaseUserId
                          (mkSyncResult true 0 0 []) ;;
            ret (mkSyncResult
                   ((0 <? syncedCount result)
                    || (failedCount result =? 0))%bool
                   (syncedCount result) (failedCount result) (errors result))
        end
    end.

(** [!this.deviceId] *)
Definition not_initialized (s : SyncService) : bool :=
  match deviceId s with
  | Some (String _ _) => false
  | _ => true
  end.

(** [SyncService.syncHealthLogs] *)
Definition syncHealthLogs (userId : Z) : Eff World SyncResult :=
  busy <- gets (fun w => isSyncing (engine w)) ;;
  if busy then throw (ErrorObj "Sync already in progress")
  else
    uninitialized <- gets (fun w => not_initialized (engine w)) ;;
    if uninitialized then throw (ErrorObj "Sync service not initialized")
    else
      modify (set_isSyncing true) ;;
      try_finally
        (try_catch (sync_body userId)
           (fun error =>
              throw (ErrorObj ("Sync failed: " ++ message_or_unknown error))))
        (set_isSyncing false).

(** [error instanceof Error ? error : new Error('Unknown error')] *)
Definition as_Error (e : thrown) : thrown :=
  match e with
  | ErrorObj m => ErrorObj m
  | NonError _ => ErrorObj "Unknown error"
  end.

(** The [for (let attempt = 1; attempt <= maxRetries; attempt++)] loop of
    [retrySyncWithBackoff], entered at [attempt] with [lastError]; [fuel]
    bounds the iterations left, and the statement after the loop is
    [throw lastError || new Error('Max retries exceeded')]. *)
Fixpoint retry_loop (fuel : nat) (userId : Z) (maxRetries attempt : Z)
  (lastError : option thrown) : Eff World SyncResult :=
  fun w =>
    let after_loop :=
      match lastError with
      | Some e => (Throws e, w)
      | None => (Throws (ErrorObj "Max retries exceeded"), w)
      end in
    match fuel with
    | O => after_loop
    | S fuel' =>
        if attempt <=? maxRetries then
          match syncHealthLogs userId w with
          | (Returns result, w') => (Returns result, w')
          | (Throws e, w') =>
              let w'' :=
                if attempt <? maxRetries
                then setTimeout (2 ^ (attempt - 1) * 1000) w'
                else w' in
              retry_loop fuel' userId maxRetries (attempt + 1)
                         (Some (as_Error e)) w''
          end
        else after_loop
    end.

(** [SyncService.retrySyncWithBackoff]; as many iterations as the loop can
    make from [attempt = 1]. *)
Definition retrySyncWithBackoff (userId : Z) (maxRetries : Z)
  : Eff World SyncResult :=
  retry_loop (Z.to_nat maxRetries) userId maxRetries 1 None.

(** [SyncService.getSyncStatus] without the unused [lastSyncAt: null]:
    [(isOnline, isSyncing, pendingCount)]. *)
Definition getSyncStatus (userId : Z) : Eff World (bool * bool * Z) :=
  isOnline <- checkConnectivity ;;
  unsyncedLogs <- databaseService (Database.getUnsyncedHealthLogs userId) ;;
  syncing <- gets (fun w => isSyncing (engine w)) ;;
  ret (isOnline, syncing, Z.of_nat (List.length unsyncedLogs)).

End Sync.

(** ** SyncService, with its awaits made visible

    The same methods as in [Sync], as tasks that are suspended at each
    awaited call of the platform and resumed later, so that what happens
    between two suspensions is atomic and anything may run in between. Run
    alone, a task does what the corresponding method of [Sync] does. *)

Module Async.
Import Sync.

(** A call of an async method, as the scheduler sees it: it has completed, or
    it is suspended at an [await]; resuming it in the world of that moment
    gives the world and the state of the call at its next suspension. *)
Inductive Task (A : Type) : Type :=
| Done (out : completion A)
| Suspended (world : World -> World) (after : World -> Task A).
Arguments Done {A} out.
Arguments Suspended {A} world after.

(** An async method: called in a world, it runs to its first [await]. *)
Definition Proc (A : Type) : Type := World -> World * Task A.

Definition ret {A} (a : A) : Proc A := fun w => (w, Done (Returns a)).

Definition throw {A} (e : thrown) : Proc A := fun w => (w, Done (Throws e)).

Definition gets {A} (f : World -> A) : Proc A :=
  fun w => (w, Done (Returns (f w))).

Definition modify (f : World -> World) : Proc unit :=
  fun w => (f w, Done (Returns tt)).

(** [await] of a call that the platform carries out: the caller is suspended,
    and the call has taken effect, as a whole, when it is resumed. *)
Definition await {A} (m : Eff World A) : Proc A :=
  fun w => (w, Suspended (fun w' => snd (m w')) (fun w' => Done (fst (m w')))).

(** What follows a call: [k] takes over where the task completes. *)
Fixpoint continue {A B} (t : Task A) (k : completion A -> Proc B) (w : World)
  : World * Task B :=
  match t with
  | Done out => k out w
  | Suspended world after =>
      (w, Suspended (fun w' => fst (continue (after w') k (world w')))
                    (fun w' => snd (continue (after w') k (world w'))))
  end.

Definition bind {A B} (m : Proc A) (k : A -> Proc B) : Proc B :=
  fun w =>
    let (w1, t) := m w in
    continue t (fun out => match out with
                           | Returns a => k a
                           | Throws e => throw e
                           end) w1.

Definition try_catch {A} (m : Proc A) (handler : thrown -> Proc A) : Proc A :=
  fun w =>
    let (w1, t) := m w in
    continue t (fun out => match out with
                           | Returns a => ret a
                           | Throws e => handler e
                           end) w1.

Definition try_finally {A} (m : Proc A) (cleanup : World -> World) : Proc A :=
  fun w =>
    let (w1, t) := m w in
    continue t (fun out w' => (cleanup w', Done out)) w1.

(** Resuming a task until it completes, with nothing else running. *)
Fixpoint finish {A} (t : Task A) (w : World) : completion A * World :=
  match t with
  | Done out => (out, w)
  | Suspended world after => finish (after w) (world w)
  end.

Definition run {A} (p : Proc A) : Eff World A :=
  fun w => let (w1, t) := p w in finish t w1.

Declare Scope proc_scope.
Delimit Scope proc_scope with proc.
Notation "x <- m ;; k" := (bind m (fun x => k))
  (at level 61, m at next level, right associativity) : proc_scope.
Notation "' p <- m ;; k" := (bind m (fun p => k))
  (at level 61, p pattern, m at next level, right associativity) : proc_scope.
Notation "m ;; k" := (bind m (fun _ => k))
  (at level 61, right associativity) : proc_scope.
Local Open Scope proc_scope.

(** [SyncService.checkConnectivity] *)
Definition checkConnectivity : Proc bool :=
  try_catch
    ('(_, error) <- await (supabase_send Supabase.SelectOne) ;;
     ret (match error with None => true | Some _ => false end))
    (fun _ => ret false).

(** [SyncService.getSupabaseUser] *)
Definition getSupabaseUser : Proc (option string) :=
  try_catch
    ('(user, error) <- await (supabase_send Supabase.GetUser) ;;
     match error with
     | Some message =>
         throw (ErrorObj ("Failed to get Supabase user: " ++ message))
     | None => ret user
     end)
    (fun _ => ret None).

(** [SyncService.uploadHealthLog] *)
Definition uploadHealthLog (log : Database.HealthLogRecord)
  (supabaseUserId : string) : Proc string :=
  try_catch
    (device <- gets (fun w => deviceId (engine w)) ;;
     '(data, error) <-
       await (supabase_send
                (Supabase.Insert supabaseUserId (Database.encrypted_data log)
                                 (non_null device))) ;;
     match error with
     | Some message =>
         throw (ErrorObj ("Supabase insert error: " ++ message))
     | None =>
         match data with
         | Some (String c s) => ret (String c s)
         | _ => throw (ErrorObj "No ID returned from Supabase insert")
         end
     end)
    (fun error =>
       throw (ErrorObj ("Failed to upload health log: "
                        ++ message_or_unknown error))).

(** The body of the loop over the unsynced records. *)
Definition upload_one (log : Database.HealthLogRecord)
  (supabaseUserId : string) (result : SyncResult) : Proc SyncResult :=
  try_catch
    (cloudId <- uploadHealthLog log supabaseUserId ;;
     await (databaseService
              (Database.markHealthLogAsSynced (Database.id log) cloudId)) ;;
     ret (mkSyncResult (success result) (syncedCount result + 1)
                       (failedCount result) (errors result)))
    (fun error =>
       ret (mkSyncResult (success result) (syncedCount result)
              (failedCount result + 1)
              (errors result ++
                 [mkSyncError (Database.id log) (message_or_unknown error)
                              (isRetryableError error)])%list)).

Fixpoint upload_each (unsyncedLogs : list Database.HealthLogRecord)
  (supabaseUserId : string) (result : SyncResult) : Proc SyncResult :=
  match unsyncedLogs with
  | [] => ret result
  | log :: rest =>
      result' <- upload_one log supabaseUserId result ;;
      upload_each rest supabaseUserId result'
  end.

(** The [try] block of [syncHealthLogs]. *)
Definition sync_body (userId : Z) : Proc SyncResult :=
  isOnline <- checkConnectivity ;;
  if negb isOnline
  then throw (ErrorObj "No internet connection available")
  else
    supabaseUser <- getSupabaseUser ;;
    match supabaseUser with
    | None => throw (ErrorObj "User not authenticated with Supabase")
    | Some supabaseUserId =>
        unsyncedLogs <-
          await (databaseService (Database.getUnsyncedHealthLogs userId)) ;;
        match unsyncedLogs with
        | [] => ret (mkSyncResult true 0 0 [])
        | _ :: _ =>
            result <-
              upload_each unsyncedLogs supabaseUserId
                          (mkSyncResult true 0 0 []) ;;
            ret (mkSyncResult
                   ((0 <? syncedCount result)
                    || (failedCount result =? 0))%bool
                   (syncedCount result) (failedCount result) (errors result))
        end
    end.

(** [SyncService.syncHealthLogs] *)
Definition syncHealthLogs (userId : Z) : Proc SyncResult :=
  busy <- gets (fun w => isSyncing (engine w)) ;;
  if busy then throw (ErrorObj "Sync already in progress")
  else
    uninitialized <- gets (fun w => not_initialized (engine w)) ;;
    if uninitialized then throw (ErrorObj "Sync service not initialized")
    else
      modify (set_isSyncing true) ;;
      try_finally
        (try_catch (sync_body userId)
           (fun error =>
              throw (ErrorObj ("Sync failed: " ++ message_or_unknown error))))
        (set_isSyncing false).

(** [held b t w]: the task [t], now in world [w], finds [isSyncing = b] at
    this point and at each of its later suspensions and at its completion,
    whatever else ran while it was suspended, as long as that left the flag
    at [b]. *)
Fixpoint held {A} (b : bool) (t : Task A) (w : World) : Prop :=
  isSyncing (engine w) = b
  /\ match t with
     | Done _ => True
     | Suspended world after =>
         forall w', isSyncing (engine w') = b -> held b (after w') (world w')
     end.

(** [in_flight t w]: the flag is set at each suspension of [t], under the
    same interference, and cleared when [t] completes. *)
Fixpoint in_flight {A} (t : Task A) (w : World) : Prop :=
  match t with
  | Done _ => isSyncing (engine w) = false
  | Suspended world after =>
      isSyncing (engine w) = true
      /\ forall w', isSyncing (engine w') = true ->
                    in_flight (after w') (world w')
  end.

(** [p] keeps the flag: called with [isSyncing = b], it is [held b]. *)
Definition keeps {A} (b : bool) (p : Proc A) : Prop :=
  forall w, isSyncing (engine w) = b -> held b (snd (p w)) (fst (p w)).

End Async.

(** ** The platform libraries the record service calls *)

(** crypto-js, as the code uses it: [AES_encrypt data key salt] is
    [CryptoJS.AES.encrypt(data, key).toString()] when the library draws [salt]
    from the random source; [AES_decrypt_Utf8 ciphertext key] is
    [CryptoJS.AES.decrypt(ciphertext, key).toString(CryptoJS.enc.Utf8)]. *)
Class CryptoJS : Type := {
  AES_encrypt : string -> string -> string -> completion string;
  AES_decrypt_Utf8 : string -> string -> completion string
}.

(** [JSON.stringify] of an object and [JSON.parse]. *)
Class JSON : Type := {
  stringify : object -> string;
  parse : string -> completion value
}.

(** [new Date(s).getTime()], [None] for [NaN]. *)
Class Dates : Type := {
  getTime : string -> option Z
}.

(** *** crypto-js on text

    The library works on bytes and turns text into bytes, and bytes into
    text, itself. [CryptoJS.enc.Utf8.parse(s)] is
    [Latin1.parse(unescape(encodeURIComponent(s)))], and
    [encodeURIComponent] throws [URIError: URI malformed] on a surrogate
    that has no partner. [wordArray.toString(CryptoJS.enc.Utf8)] is
    [decodeURIComponent(escape(Latin1.stringify(wordArray)))], and the
    library throws [Error('Malformed UTF-8 data')] where that fails. *)

Module Utf8.

Definition parse (s : string) : completion string :=
  if valid_utf8 s then Returns s else Throws (ErrorObj "URI malformed").

Definition stringify (bytes : string) : completion string :=
  if valid_utf8 bytes then Returns bytes
  else Throws (ErrorObj "Malformed UTF-8 data").

End Utf8.

(** The cipher of crypto-js, on bytes: [encrypt_bytes message passphrase
    salt] is the ciphertext, in the OpenSSL format and in Base64, of the
    bytes [message] under the key and the initialisation vector that the
    library derives from the bytes [passphrase] and from the [salt] it has
    drawn; [decrypt_bytes ciphertext passphrase] is what the library
    decrypts [ciphertext] to with the key derived from [passphrase] and
    from the salt that the ciphertext names. *)
Class Cipher : Type := {
  encrypt_bytes : string -> string -> string -> string;
  decrypt_bytes : string -> string -> completion string
}.

(** [CryptoJS.AES.encrypt(data, key).toString()] and
    [CryptoJS.AES.decrypt(ciphertext, key).toString(CryptoJS.enc.Utf8)] on
    a passphrase: the library derives the key, for which it turns the
    passphrase into bytes, before it turns the message into bytes and
    encrypts them. *)
Definition crypto_js (cipher : Cipher) : CryptoJS := {|
  AES_encrypt := fun data key salt =>
    match Utf8.parse key with
    | Throws e => Throws e
    | Returns passphrase =>
        match Utf8.parse data with
        | Throws e => Throws e
        | Returns message => Returns (encrypt_bytes message passphrase salt)
        end
    end;
  AES_decrypt_Utf8 := fun ciphertext key =>
    match Utf8.parse key with
    | Throws e => Throws e
    | Returns passphrase =>
        match decrypt_bytes ciphertext passphrase with
        | Throws e => Throws e
        | Returns plaintext => Utf8.stringify plaintext
        end
    end
|}.

(** What makes the library a cipher: whatever the message, the passphrase
    and the salt, the ciphertext is not empty and is decrypted, with the
    same passphrase, to the message. *)
Definition inverts_itself (cipher : Cipher) : Prop :=
  forall message passphrase salt : string,
    encrypt_bytes message passphrase salt <> ""
    /\ decrypt_bytes (encrypt_bytes message passphrase salt) passphrase
       = Returns message.

(** ** EncryptionService *)

Module Encryption.
Section WithCryptoJS.
Context {crypto : CryptoJS}.

Record EncryptionResult : Type := mkEncryptionResult {
  encryptedData : string;
  encryption_success : bool;
  encryption_error : option string
}.

Record DecryptionResult : Type := mkDecryptionResult {
  decryptedData : string;
  success : bool;
  error : option string
}.

(** [EncryptionService.encrypt]; [salt] is the randomness of this call. *)
Definition encrypt (salt : string) (data key : string) : EncryptionResult :=
  if (falsy data || falsy key)%bool
  then mkEncryptionResult "" false
         (Some "Data and key are required for encryption")
  else
    match AES_encrypt data key salt with
    | Returns encrypted => mkEncryptionResult encrypted true None
    | Throws e =>
        mkEncryptionResult "" false
          (Some ("Encryption failed: " ++ message_or_unknown e))
    end.

(** [EncryptionService.decrypt] *)
Definition decrypt (encryptedData0 key : string) : DecryptionResult :=
  if (falsy encryptedData0 || falsy key)%bool
  then mkDecryptionResult "" false
         (Some "Encrypted data and key are required for decryption")
  else
    match AES_decrypt_Utf8 encryptedData0 key with
    | Returns decrypted =>
        if falsy decrypted
        then mkDecryptionResult "" false
               (Some "Decryption failed: Invalid key or corrupted data")
        else mkDecryptionResult decrypted true None
    | Throws e =>
        mkDecryptionResult "" false
          (Some ("Decryption failed: " ++ message_or_unknown e))
    end.

End WithCryptoJS.
End Encryption.

(** ** utils/healthLogValidation *)

Module Validation.
Section WithDates.
Context {dates : Dates}.

Record HealthLogValidationError : Type := mkValidationError {
  field : string;
  message : string
}.

Definition VALID_CATEGORIES : list string :=
  ["symptom"; "medication"; "appointment"; "measurement"; "other"].

Definition VALID_SEVERITY_LEVELS : list Z := [1; 2; 3; 4; 5].

Definition string_in (s : string) (l : list string) : bool :=
  existsb (String.eqb s) l.

Definition longer_than (n : nat) (s : string) : bool :=
  Nat.ltb n (Js.length s).

(** The checks on [title] and on [description] have one shape. *)
Definition validate_text (name label : string) (limit : nat) (v : value)
  : list HealthLogValidationError :=
  match v with
  | Str s =>
      if falsy s
      then [mkValidationError name (label ++ " is required and must be a string")]
      else if falsy (trim s)
      then [mkValidationError name (label ++ " cannot be empty")]
      else if longer_than limit s
      then [mkValidationError name
              (label ++ " must be " ++ index_key limit
               ++ " characters or less")]
      else []
  | _ => [mkValidationError name (label ++ " is required and must be a string")]
  end.

Definition validate_category (v : value) : list HealthLogValidationError :=
  match v with
  | Str s =>
      if falsy s
      then [mkValidationError "category"
              "Category is required and must be a string"]
      else if negb (string_in s VALID_CATEGORIES)
      then [mkValidationError "category"
              ("Category must be one of: "
               ++ String.concat ", " VALID_CATEGORIES)]
      else []
  | _ => [mkValidationError "category"
            "Category is required and must be a string"]
  end.

Definition validate_severity (v : value) : list HealthLogValidationError :=
  match v with
  | Undefined => []
  | Number n =>
      if existsb (Z.eqb n) VALID_SEVERITY_LEVELS then []
      else [mkValidationError "severity"
              "Severity must be a number between 1 and 5"]
  | _ => [mkValidationError "severity"
            "Severity must be a number between 1 and 5"]
  end.

(** [data.tags.forEach((tag, index) => ...)] from [index] on. *)
Fixpoint validate_each_tag (index : nat) (tags : list value)
  : list HealthLogValidationError :=
  match tags with
  | [] => []
  | tag :: rest =>
      (match tag with
       | Str s =>
           if falsy (trim s)
           then [mkValidationError "tags"
                   ("Tag at index " ++ index_key index ++ " cannot be empty")]
           else if longer_than 50 s
           then [mkValidationError "tags"
                   ("Tag at index " ++ index_key index
                    ++ " must be 50 characters or less")]
           else []
       | _ => [mkValidationError "tags"
                 ("Tag at index " ++ index_key index ++ " must be a string")]
       end ++ validate_each_tag (S index) rest)%list
  end.

Definition validate_tags (v : value) : list HealthLogValidationError :=
  match v with
  | Arr tags => validate_each_tag 0 tags
  | _ => [mkValidationError "tags" "Tags must be an array"]
  end.

(** [now] is [new Date().getTime()] at the call. *)
Definition validate_date (now : Z) (v : value)
  : list HealthLogValidationError :=
  match v with
  | Str s =>
      if falsy s
      then [mkValidationError "date" "Date is required and must be a string"]
      else
        match getTime s with
        | None =>
            [mkValidationError "date" "Date must be a valid ISO date string"]
        | Some t =>
            if now <? t
            then [mkValidationError "date" "Date cannot be in the future"]
            else []
        end
  | _ => [mkValidationError "date" "Date is required and must be a string"]
  end.

Definition validate_notes (v : value) : list HealthLogValidationError :=
  match v with
  | Undefined => []
  | Str s =>
      if longer_than 5000 s
      then [mkValidationError "notes" "Notes must be 5000 characters or less"]
      else []
  | _ => [mkValidationError "notes" "Notes must be a string"]
  end.

Fixpoint validate_each_attachment (index : nat) (attachments : list value)
  : list HealthLogValidationError :=
  match attachments with
  | [] => []
  | attachment :: rest =>
      (match attachment with
       | Str s =>
           if falsy (trim s)
           then [mkValidationError "attachments"
                   ("Attachment at index " ++ index_key index
                    ++ " cannot be empty")]
           else []
       | _ => [mkValidationError "attachments"
                 ("Attachment at index " ++ index_key index
                  ++ " must be a string")]
       end ++ validate_each_attachment (S index) rest)%list
  end.

Definition validate_attachments (v : value) : list HealthLogValidationError :=
  match v with
  | Undefined => []
  | Arr attachments => validate_each_attachment 0 attachments
  | _ => [mkValidationError "attachments" "Attachments must be an array"]
  end.

(** [validateHealthLogData]: the [errors] it collects; [isValid] is
    [errors.length === 0]. *)
Definition validateHealthLogData (now : Z) (data : object)
  : list HealthLogValidationError :=
  (validate_text "title" "Title" 200 (prop data "title")
   ++ validate_text "description" "Description" 2000
        (prop data "description")
   ++ validate_category (prop data "category")
   ++ validate_severity (prop data "severity")
   ++ validate_tags (prop data "tags")
   ++ validate_date now (prop data "date")
   ++ validate_notes (prop data "notes")
   ++ validate_attachments (prop data "attachments"))%list.

Definition isValid (errors : list HealthLogValidationError) : bool :=
  match errors with [] => true | _ => false end.

End WithDates.
End Validation.

(** ** HealthLogService: validated, encrypted CRUD over domain records *)

Module HealthLogs.
Local Open Scope eff_scope.
Section WithPlatform.
Context {crypto : CryptoJS} {json : JSON} {dates : Dates}.

(** The service is bound to [encryptionKey]; its state is that of the
    [DatabaseService] it was constructed with. *)
Variable encryptionKey : string.

(** [HealthLogService.getHealthLog]; [Returns Null] is the [null] of a
    missing row. *)
Definition getHealthLog (healthLogId : Z)
  : Eff Database.DatabaseService value :=
  try_catch
    (encryptedLog <- Database.getHealthLogById healthLogId ;;
     match encryptedLog with
     | None => ret Null
     | Some row =>
         let decryptionResult :=
           Encryption.decrypt (Database.encrypted_data row) encryptionKey in
         if negb (Encryption.success decryptionResult)
         then throw (ErrorObj (or_else (Encryption.error decryptionResult)
                                       "Decryption failed"))
         else pure (parse (Encryption.decryptedData decryptionResult))
     end)
    (fun error =>
       throw (ErrorObj ("Failed to retrieve health log: "
                        ++ message_or_unknown error))).

(** The object literal that [updateHealthLog] calls [sanitizedLog]. *)
Definition sanitize (updatedLog : object) : completion object :=
  match call_trim (prop updatedLog "title") with
  | Throws e => Throws e
  | Returns title =>
  match call_trim (prop updatedLog "description") with
  | Throws e => Throws e
  | Returns description =>
  match call_trim_each (prop updatedLog "tags") with
  | Throws e => Throws e
  | Returns tags =>
  match optional call_trim (prop updatedLog "notes") with
  | Throws e => Throws e
  | Returns notes =>
  match optional call_trim_each (prop updatedLog "attachments") with
  | Throws e => Throws e
  | Returns attachments =>
      Returns (set_prop "attachments" attachments
              (set_prop "notes" notes
              (set_prop "tags" tags
              (set_prop "description" description
              (set_prop "title" title updatedLog)))))
  end end end end end.

(** [!data.id || typeof data.id !== 'string' || data.id.trim().length === 0] *)
Definition id_missing (data : object) : bool :=
  match prop data "id" with
  | Str s => (falsy s || falsy (trim s))%bool
  | _ => true
  end.

Definition validation_message
  (errors : list Validation.HealthLogValidationError) : string :=
  "Validation failed: "
  ++ String.concat ", " (map Validation.message errors).

(** [HealthLogService.updateHealthLog]; [now] is the clock at the call and
    [salt] the randomness of its encryption. *)
Definition updateHealthLog (now : Z) (salt : string) (healthLogId : Z)
  (data : object) : Eff Database.DatabaseService object :=
  if id_missing data
  then throw (ErrorObj
         "Validation failed: ID is required for updates and must be a string")
  else
    try_catch
      (existingLog <- getHealthLog healthLogId ;;
       if negb (truthy existingLog)
       then throw (ErrorObj "Health log not found")
       else
         let updatedLog :=
           set_prop "id" (member existingLog "id")
             (spread data (spread (own_props existingLog) [])) in
         sanitizedLog <- pure (sanitize updatedLog) ;;
         let completeValidation :=
           Validation.validateHealthLogData now sanitizedLog in
         if negb (Validation.isValid completeValidation)
         then throw (ErrorObj (validation_message completeValidation))
         else
           let encryptionResult :=
             Encryption.encrypt salt (stringify sanitizedLog) encryptionKey in
           if negb (Encryption.encryption_success encryptionResult)
           then throw (ErrorObj
                  (or_else (Encryption.encryption_error encryptionResult)
                           "Encryption failed"))
           else
             Database.updateHealthLog healthLogId
               (Encryption.encryptedData encryptionResult) ;;
             ret sanitizedLog)
      (fun error =>
         throw (ErrorObj ("Failed to update health log: "
                          ++ message_or_unknown error))).

(** [HealthLogService.deleteHealthLog] *)
Definition deleteHealthLog (healthLogId : Z)
  : Eff Database.DatabaseService unit :=
  try_catch
    (existingLog <- getHealthLog healthLogId ;;
     if negb (truthy existingLog)
     then throw (ErrorObj "Health log not found")
     else Database.deleteHealthLog healthLogId)
    (fun error =>
       throw (ErrorObj ("Failed to delete health log: "
                        ++ message_or_unknown error))).

End WithPlatform.
End HealthLogs.

(** ** Stand-ins for the platform libraries

    Small executable instances of [CryptoJS], [JSON] and [Dates], used to run
    the services on concrete inputs. The cipher is not a cipher: it only has
    the shape of the library (salted output, failure under another key). *)

Module Fixture.

Fixpoint strip_prefix (p s : string) : option string :=
  match p, s with
  | EmptyString, _ => Some s
  | String a p', String b s' =>
      if Ascii.eqb a b then strip_prefix p' s' else None
  | String _ _, EmptyString => None
  end.

(** The text after the first ["."]. *)
Fixpoint after_dot (s : string) : option string :=
  match s with
  | EmptyString => None
  | String c t => if Ascii.eqb c "."%char then Some t else after_dot t
  end.

Definition seal (data key salt : string) : completion string :=
  Returns ("Salted__" ++ salt ++ "." ++ key ++ "." ++ data).

Definition unseal (ciphertext key : string) : completion string :=
  match strip_prefix "Salted__" ciphertext with
  | Some salted =>
      match after_dot salted with
      | Some keyed =>
          match strip_prefix (key ++ ".") keyed with
          | Some data => Returns data
          | None => Throws (ErrorObj "Malformed UTF-8 data")
          end
      | None => Returns ""
      end
  | None => Returns ""
  end.

#[export] Instance crypto : CryptoJS := {
  AES_encrypt := seal;
  AES_decrypt_Utf8 := unseal
}.

(** *** A stand-in for the cipher of crypto-js: it hides nothing, and
    inverts itself *)

(** The first [n] bytes of [s], filled up with zeros. *)
Fixpoint first_bytes (n : nat) (s : string) : string :=
  match n with
  | O => EmptyString
  | S n' =>
      match s with
      | EmptyString => String "0"%char (first_bytes n' EmptyString)
      | String c t => String c (first_bytes n' t)
      end
  end.

Fixpoint drop_bytes (n : nat) (s : string) : option string :=
  match n with
  | O => Some s
  | S n' =>
      match s with
      | EmptyString => None
      | String _ t => drop_bytes n' t
      end
  end.

(** A salt of eight bytes, then the passphrase, then the message. *)
Definition seal_bytes (message passphrase salt : string) : string :=
  "Salted__" ++ first_bytes 8 salt ++ "." ++ passphrase ++ "." ++ message.

(** Under another passphrase the bytes that come out are no text. *)
Definition unseal_bytes (ciphertext passphrase : string)
  : completion string :=
  match strip_prefix "Salted__" ciphertext with
  | Some salted =>
      match drop_bytes 8 salted with
      | Some keyed =>
          match strip_prefix ("." ++ passphrase ++ ".") keyed with
          | Some message => Returns message
          | None => Returns (String (ascii_of_nat 255) EmptyString)
          end
      | None => Returns ""
      end
  | None => Returns ""
  end.

Definition cipher : Cipher := {|
  encrypt_bytes := seal_bytes;
  decrypt_bytes := unseal_bytes
|}.

(** *** Text outside ASCII *)

(** U+D800, a surrogate that has no partner. *)
Definition lone_surrogate : string := three_bytes 55296.

(** U+00A0, the no-break space. *)
Definition no_break_space : string :=
  String (ascii_of_nat 194) (String (ascii_of_nat 160) EmptyString).

(** U+00E9, the letter e with an acute accent, [n] times. *)
Fixpoint accented (n : nat) : string :=
  match n with
  | O => EmptyString
  | S n' =>
      String (ascii_of_nat 195) (String (ascii_of_nat 169) (accented n'))
  end.

(** *** A JSON subset: no white space, integers, two escapes *)

(** The double quote character. *)
Definition dquote : ascii := ascii_of_nat 34.

Fixpoint quote_chars (s : string) : string :=
  match s with
  | EmptyString => EmptyString
  | String c t =>
      if (Ascii.eqb c dquote || Ascii.eqb c "\"%char)%bool
      then String "\"%char (String c (quote_chars t))
      else String c (quote_chars t)
  end.

Definition quote (s : string) : string :=
  String dquote (quote_chars s ++ String dquote EmptyString).

Definition print_number (n : Z) : string :=
  if n <? 0
  then "-" ++ NilEmpty.string_of_uint (N.to_uint (Z.to_N (- n)))
  else NilEmpty.string_of_uint (N.to_uint (Z.to_N n)).

Fixpoint print (v : value) : string :=
  match v with
  | Undefined | Null => "null"
  | Boolean true => "true"
  | Boolean false => "false"
  | Number n => print_number n
  | Str s => quote s
  | Arr items =>
      "[" ++ String.concat "," (map print items) ++ "]"
  | Obj props =>
      "{" ++ String.concat ","
               ((fix members (l : object) : list string :=
                   match l with
                   | [] => []
                   | (k, x) :: rest =>
                       if is_undefined x then members rest
                       else (quote k ++ ":" ++ print x) :: members rest
                   end) props)
          ++ "}"
  end.

(** The characters of a string literal up to its closing quote. *)
Fixpoint read_string (s : string) : option (string * string) :=
  match s with
  | EmptyString => None
  | String c t =>
      if Ascii.eqb c dquote then Some (EmptyString, t)
      else if Ascii.eqb c "\"%char then
        match t with
        | String d t' =>
            match read_string t' with
            | Some (body, rest) => Some (String d body, rest)
            | None => None
            end
        | EmptyString => None
        end
      else
        match read_string t with
        | Some (body, rest) => Some (String c body, rest)
        | None => None
        end
  end.

Definition digit (c : ascii) : option Z :=
  let n := nat_of_ascii c in
  if (Nat.leb 48 n && Nat.leb n 57)%bool then Some (Z.of_nat (n - 48))
  else None.

Fixpoint read_digits (acc : Z) (s : string) : Z * string :=
  match s with
  | EmptyString => (acc, s)
  | String c t =>
      match digit c with
      | Some d => read_digits (10 * acc + d) t
      | None => (acc, s)
      end
  end.

Fixpoint read_value (fuel : nat) (s : string) : option (value * string) :=
  match fuel with
  | O => None
  | S fuel' =>
      match s with
      | EmptyString => None
      | String c t =>
          if Ascii.eqb c "n"%char then
            option_map (fun r => (Null, r)) (strip_prefix "ull" t)
          else if Ascii.eqb c "t"%char then
            option_map (fun r => (Boolean true, r)) (strip_prefix "rue" t)
          else if Ascii.eqb c "f"%char then
            option_map (fun r => (Boolean false, r)) (strip_prefix "alse" t)
          else if Ascii.eqb c dquote then
            option_map (fun '(body, r) => (Str body, r)) (read_string t)
          else if Ascii.eqb c "-"%char then
            let (n, r) := read_digits 0 t in Some (Number (- n), r)
          else if Ascii.eqb c "["%char then
            match t with
            | String "]"%char r => Some (Arr [], r)
            | _ => option_map (fun '(items, r) => (Arr items, r))
                              (read_items fuel' t)
            end
          else if Ascii.eqb c "{"%char then
            match t with
            | String "}"%char r => Some (Obj [], r)
            | _ => option_map (fun '(props, r) => (Obj (spread props []), r))
                              (read_members fuel' t)
            end
          else
            match digit c with
            | Some _ => let (n, r) := read_digits 0 s in Some (Number n, r)
            | None => None
            end
      end
  end
with read_items (fuel : nat) (s : string) : option (list value * string) :=
  match fuel with
  | O => None
  | S fuel' =>
      match read_value fuel' s with
      | Some (v, String ","%char r) =>
          option_map (fun '(items, r') => (v :: items, r'))
                     (read_items fuel' r)
      | Some (v, String "]"%char r) => Some ([v], r)
      | _ => None
      end
  end
with read_members (fuel : nat) (s : string) : option (object * string) :=
  match fuel with
  | O => None
  | S fuel' =>
      match s with
      | String c t =>
          if negb (Ascii.eqb c dquote) then None
          else
            match read_string t with
            | Some (k, String ":"%char r) =>
                match read_value fuel' r with
                | Some (v, String ","%char r') =>
                    option_map (fun '(props, r'') => ((k, v) :: props, r''))
                               (read_members fuel' r')
                | Some (v, String "}"%char r') => Some ([(k, v)], r')
                | _ => None
                end
            | _ => None
            end
      | EmptyString => None
      end
  end.

Definition read (s : string) : completion value :=
  match read_value (2 * String.length s + 2) s with
  | Some (v, EmptyString) => Returns v
  | _ => Throws (ErrorObj "JSON Parse error: Unexpected token")
  end.

#[export] Instance json : JSON := {
  stringify := fun o => print (Obj o);
  parse := read
}.

(** *** Dates of the form YYYY-MM-DD, as milliseconds since the epoch *)

Definition days_from_civil (y m d : Z) : Z :=
  let y' := if m <=? 2 then y - 1 else y in
  let era := y' / 400 in
  let yoe := y' - era * 400 in
  let doy := (153 * (if 2 <? m then m - 3 else m + 9) + 2) / 5 + d - 1 in
  let doe := yoe * 365 + yoe / 4 - yoe / 100 + doy in
  era * 146097 + doe - 719468.

Definition read_date (s : string) : option Z :=
  match read_digits 0 s with
  | (y, String "-"%char s1) =>
      match read_digits 0 s1 with
      | (m, String "-"%char s2) =>
          match read_digits 0 s2 with
          | (d, EmptyString) =>
              if ((1 <=? m) && (m <=? 12) && (1 <=? d) && (d <=? 31))%bool
              then Some (days_from_civil y m d * 86400000)
              else None
          | _ => None
          end
      | _ => None
      end
  | _ => None
  end.

#[export] Instance dates : Dates := { getTime := read_date }.

(** *** Worlds to run the services in *)

(** A database that was just set up: empty table, a clock that advances one
    second per statement, a driver that never fails. *)
Definition fresh_database : Database.SQLiteDatabase :=
  Database.mkSQLiteDatabase [] 0 0 (fun n => 1700000000 + Z.of_nat n)
                            (fun _ => None).

Definition open_service : Database.DatabaseService :=
  Database.mkDatabaseService (Some fresh_database).

(** A stored domain record, its row, and a store that holds only that row,
    encrypted under the key [secret]. *)
Definition stored_log : object :=
  [("id", Str "health_log_1"); ("title", Str "Morning Headache");
   ("description", Str "Dull pain behind the eyes");
   ("category", Str "symptom"); ("severity", Number 2);
   ("tags", Arr [Str "head"]); ("date", Str "2024-01-15")].

Definition stored_row : Database.HealthLogRecord :=
  Database.mkHealthLogRecord 1 7
    ("Salted__00000000.secret." ++ print (Obj stored_log))
    1700000000 1700000000 None None.

Definition store_with_one_log : Database.DatabaseService :=
  Database.mkDatabaseService
    (Some (Database.mkSQLiteDatabase [stored_row] 1 0
             (fun n => 1700000100 + Z.of_nat n) (fun _ => None))).

(** A patch that names another domain id than the stored one. *)
Definition foreign_patch : object :=
  [("id", Str "some_other_id"); ("title", Str "  Updated  ")].

(** A patch whose id is one no-break space. *)
Definition blank_id_patch : object :=
  [("id", Str no_break_space); ("title", Str "Updated")].

(** Two unsynced rows of owner 7, the older one first. *)
Definition first_row : Database.HealthLogRecord :=
  Database.mkHealthLogRecord 1 7 "Salted__00000000.secret.{}"
    1700000000 1700000000 None None.

Definition second_row : Database.HealthLogRecord :=
  Database.mkHealthLogRecord 2 7 "Salted__11111111.secret.{}"
    1700000060 1700000060 None None.

(** A store with the given rows whose driver rejects the statements listed
    in [rejected] (counted from 0) with a disk error. *)
Definition store (rows : list Database.HealthLogRecord) (rejected : list nat)
  : Database.DatabaseService :=
  Database.mkDatabaseService
    (Some (Database.mkSQLiteDatabase rows (Z.of_nat (List.length rows)) 0
             (fun n => 1700000100 + Z.of_nat n)
             (fun n => if existsb (Nat.eqb n) rejected
                       then Some (ErrorObj "disk I/O error")
                       else None))).

(** A backend that gives the listed answers in turn and then stops answering. *)
Definition backend (answers : list Supabase.Answer) : Supabase.Client :=
  Supabase.mkClient
    (fun n => nth n answers
                  (Supabase.Rejects (ErrorObj "Network request failed")))
    [].

Definition online : Supabase.Answer := Supabase.Resolves None None.

Definition signed_in : Supabase.Answer :=
  Supabase.Resolves (Some "user-1") None.

Definition unreachable : Supabase.Answer :=
  Supabase.Rejects (ErrorObj "Network request failed").

(** An initialised engine over the given store and backend. *)
Definition world (d : Database.DatabaseService) (answers : list Supabase.Answer)
  (syncing : bool) : Sync.World :=
  Sync.mkWorld (Sync.mkSyncService syncing (Some "device-1")) d
               (backend answers) [].

End Fixture.

(** ** The properties, as the specification words them *)

Module Claimed.

(** *** Cipher round trip *)

(** The claim at one plaintext and key: [encrypt] succeeds, and [decrypt] of
    its ciphertext with the same key succeeds and returns the plaintext. *)
Definition round_trip {crypto : CryptoJS} (salt p k : string) : Prop :=
  let encrypted := Encryption.encrypt salt p k in
  let decrypted :=
    Encryption.decrypt (Encryption.encryptedData encrypted) k in
  Encryption.encryption_success encrypted = true
  /\ Encryption.success decrypted = true
  /\ Encryption.decryptedData decrypted = p.

(** The claim: every non-empty plaintext and key. *)
Definition every_string_round_trips {crypto : CryptoJS} : Prop :=
  forall salt p k : string, p <> "" -> k <> "" -> round_trip salt p k.

(** *** Record store: [syncedAt] and [remoteId] go together *)

Definition paired (r : Database.HealthLogRecord) : bool :=
  match Database.synced_at r, Database.cloud_id r with
  | None, None => true
  | Some _, Some _ => true
  | _, _ => false
  end.

Definition all_paired (d : Database.DatabaseService) : Prop :=
  Forall (fun r => paired r = true) (Database.rows d).

(** A call of one of the public methods of the store. *)
Inductive StoreCall : Type :=
| CreateHealthLog (userId : Z) (encryptedData : string)
| GetHealthLogsByUserId (userId : Z)
| GetHealthLogById (id : Z)
| UpdateHealthLog (id : Z) (encryptedData : string)
| DeleteHealthLog (id : Z)
| MarkHealthLogAsSynced (id : Z) (cloudId : string)
| GetUnsyncedHealthLogs (userId : Z)
| ClearAllData
| Close.

(** The store after the call, whether it returned or threw. *)
Definition after (c : StoreCall) (d : Database.DatabaseService)
  : Database.DatabaseService :=
  match c with
  | CreateHealthLog u p => snd (Database.createHealthLog u p d)
  | GetHealthLogsByUserId u => snd (Database.getHealthLogsByUserId u d)
  | GetHealthLogById i => snd (Database.getHealthLogById i d)
  | UpdateHealthLog i p => snd (Database.updateHealthLog i p d)
  | DeleteHealthLog i => snd (Database.deleteHealthLog i d)
  | MarkHealthLogAsSynced i c => snd (Database.markHealthLogAsSynced i c d)
  | GetUnsyncedHealthLogs u => snd (Database.getUnsyncedHealthLogs u d)
  | ClearAllData => snd (Database.clearAllData d)
  | Close => snd (Database.close d)
  end.

Definition after_all (calls : list StoreCall) (d : Database.DatabaseService)
  : Database.DatabaseService :=
  fold_left (fun d c => after c d) calls d.

(** The two sync fields of every row, by row id, in table order. *)
Definition sync_fields (d : Database.DatabaseService)
  : list (Z * option Z * option string) :=
  map (fun r => (Database.id r, Database.synced_at r, Database.cloud_id r))
      (Database.rows d).

(** *** Retryability, with "a 5xx HTTP status code" read as a 5 followed by
    two digits *)

Definition is_digit (c : ascii) : bool :=
  let n := nat_of_ascii c in (Nat.leb 48 n && Nat.leb n 57)%bool.

Fixpoint mentions_5xx (s : string) : bool :=
  match s with
  | String c1 ((String c2 (String c3 _)) as t) =>
      (Ascii.eqb c1 "5"%char && is_digit c2 && is_digit c3
       || mentions_5xx t)%bool
  | _ => false
  end.

Definition claimed_retryable (e : thrown) : bool :=
  match e with
  | ErrorObj m =>
      let message := toLowerCase m in
      (includes message "network" || includes message "timeout"
       || includes message "connection" || includes message "fetch"
       || mentions_5xx message
       || includes message "rate limit" || includes message "429")%bool
  | NonError _ => false
  end.

(** The substrings the code looks for. *)
Definition retryable_markers : list string :=
  ["network"; "timeout"; "connection"; "fetch";
   "500"; "502"; "503"; "504"; "rate limit"; "429"].

(** *** The per-record loop *)

(** [s] keeps some of the elements of [l], in the order of [l]. *)
Inductive subsequence {A} : list A -> list A -> Prop :=
| subsequence_nil : subsequence [] []
| subsequence_skip x s l : subsequence s l -> subsequence s (x :: l)
| subsequence_keep x s l : subsequence s l -> subsequence (x :: s) (x :: l).

(** The world after a request has been sent. *)
Definition after_request (r : Supabase.Request) (w : Sync.World) : Sync.World :=
  Sync.set_supabase
    (Supabase.mkClient (Supabase.answer (Sync.supabase w))
       (Supabase.requests (Sync.supabase w) ++ [r])%list) w.

(** The upload request of a record. *)
Definition upload_request (w : Sync.World) (supabaseUserId : string)
  (log : Database.HealthLogRecord) : Supabase.Request :=
  Supabase.Insert supabaseUserId (Database.encrypted_data log)
    (Sync.non_null (Sync.deviceId (Sync.engine w))).

(** *** Retry with backoff

    [backoff_run userId maxAttempts attempt w n out]: entered at [attempt]
    in world [w], the schedule calls [sync] [n] times and ends with [out].
    It returns the first result; after a failure that is not the last
    attempt it sleeps [2^(attempt-1)] seconds and tries again; after the
    failure of the last attempt it throws what that attempt threw. *)
Inductive backoff_run (userId : Z) (maxAttempts : Z)
  : Z -> Sync.World -> nat -> completion Sync.SyncResult * Sync.World -> Prop :=
| backoff_no_attempt w :
    maxAttempts < 1 ->
    backoff_run userId maxAttempts 1 w 0
                (Throws (ErrorObj "Max retries exceeded"), w)
| backoff_success attempt w result w' :
    attempt <= maxAttempts ->
    Sync.syncHealthLogs userId w = (Returns result, w') ->
    backoff_run userId maxAttempts attempt w 1 (Returns result, w')
| backoff_give_up w e w' :
    Sync.syncHealthLogs userId w = (Throws e, w') ->
    backoff_run userId maxAttempts maxAttempts w 1 (Throws e, w')
| backoff_again attempt w e w' n out :
    attempt < maxAttempts ->
    Sync.syncHealthLogs userId w = (Throws e, w') ->
    backoff_run userId maxAttempts (attempt + 1)
                (Sync.setTimeout (2 ^ (attempt - 1) * 1000) w') n out ->
    backoff_run userId maxAttempts attempt w (S n) out.

(** The delays, in milliseconds, of [n] consecutive sleeps: 1s, 2s, 4s, ... *)
Definition backoff_delays (n : nat) : list Z :=
  map (fun i => 2 ^ Z.of_nat i * 1000) (seq 0 n).

(** *** Record service: update with a patch whose id is not the stored one *)

Section WithPlatform.
Context {crypto : CryptoJS} {json : JSON} {dates : Dates}.

(** "for every call where patch.id ... differs from the stored record's
    id, the update fails with a validation error" *)
Definition update_rejects_foreign_id (encryptionKey : string) (now : Z)
  (salt : string) (healthLogId : Z) (data : object)
  (d : Database.DatabaseService) : Prop :=
  forall existingLog d1,
    HealthLogs.getHealthLog encryptionKey healthLogId d
      = (Returns existingLog, d1) ->
    prop data "id" <> member existingLog "id" ->
    exists m d',
      HealthLogs.updateHealthLog encryptionKey now salt healthLogId data d
        = (Throws (ErrorObj m), d')
      /\ includes m "Validation failed" = true.
End WithPlatform.

End Claimed.

(** * Further parts of the code *)

(** ** SyncService.getSyncStats *)

Module Statistics.
Import Sync.
Local Open Scope eff_scope.

Record SyncStats : Type := mkSyncStats {
  totalLogs : Z;
  syncedLogs : Z;
  unsyncedLogs : Z;
  syncPercentage : Z
}.

Section WithNumbers.

(** [Math.round((syncedCount / totalLogs) * 100)] as the double arithmetic
    of the platform computes it, for [totalLogs > 0]. *)
Variable round_percentage : Z -> Z -> Z.

Definition getSyncStats (userId : Z) : Eff World SyncStats :=
  allLogs <- databaseService (Database.getHealthLogsByUserId userId) ;;
  unsyncedLogs <- databaseService (Database.getUnsyncedHealthLogs userId) ;;
  let totalLogs := Z.of_nat (List.length allLogs) in
  let unsyncedCount := Z.of_nat (List.length unsyncedLogs) in
  let syncedCount := totalLogs - unsyncedCount in
  let syncPercentage :=
    if 0 <? totalLogs then round_percentage syncedCount totalLogs else 100 in
  ret (mkSyncStats totalLogs syncedCount unsyncedCount syncPercentage).

End WithNumbers.
End Statistics.

(** ** expo-secure-store, as KeyManager uses it *)

Module SecureStore.

(** The keychain: its items, the number of calls made so far, and, as the
    platform decides it, whether the n-th call is rejected. *)
Record Keychain : Type := mkKeychain {
  items : list (string * string);
  calls : nat;
  rejected : nat -> option thrown
}.

Fixpoint lookup (name : string) (l : list (string * string)) : option string :=
  match l with
  | [] => None
  | (k, v) :: rest => if String.eqb k name then Some v else lookup name rest
  end.

Definition remove (name : string) (l : list (string * string))
  : list (string * string) :=
  filter (fun kv => negb (String.eqb (fst kv) name)) l.

(** One call of the module: rejected, or it takes effect on the items. *)
Definition call {A}
  (effect : list (string * string) -> A * list (string * string))
  : Eff Keychain A :=
  fun s =>
    match rejected s (calls s) with
    | Some e => (Throws e, mkKeychain (items s) (S (calls s)) (rejected s))
    | None =>
        let (a, items') := effect (items s) in
        (Returns a, mkKeychain items' (S (calls s)) (rejected s))
    end.

(** [getItemAsync(name)]: [None] for [null]. *)
Definition getItemAsync (name : string) : Eff Keychain (option string) :=
  call (fun l => (lookup name l, l)).

Definition setItemAsync (name value : string) : Eff Keychain unit :=
  call (fun l => (tt, (name, value) :: remove name l)).

Definition deleteItemAsync (name : string) : Eff Keychain unit :=
  call (fun l => (tt, remove name l)).

End SecureStore.

(** ** KeyManager *)

Module KeyManager.
Import SecureStore.
Local Open Scope eff_scope.

Record KeyResult : Type := mkKeyResult {
  key : option string;
  success : bool;
  error : option string
}.

Record RotationResult : Type := mkRotationResult {
  oldKey : option string;
  newKey : option string;
  rotation_success : bool;
  rotation_error : option string
}.

Definition USER_KEY_PREFIX : string := "user_encryption_key_".
Definition SALT_KEY : string := "encryption_salt".

(** [`${this.USER_KEY_PREFIX}${userId}`] and [`${this.SALT_KEY}_${userId}`] *)
Definition keyName (userId : string) : string := USER_KEY_PREFIX ++ userId.
Definition saltName (userId : string) : string := SALT_KEY ++ "_" ++ userId.

Definition failure (message : string) : KeyResult :=
  mkKeyResult None false (Some message).

Definition rotation_failure (message : string) : RotationResult :=
  mkRotationResult None None false (Some message).

Section WithKeyDerivation.

(** [EncryptionService.deriveKey(password, salt, iterations)]: PBKDF2 of
    crypto-js, in Base64. *)
Variable deriveKey : string -> string -> Z -> completion string.

(** [KeyManager.generateAndStoreUserKey]; [generateKey] is what
    [EncryptionService.generateKey()] gives at this call: 32 random bytes
    in Base64, or the throw of the random source. *)
Definition generateAndStoreUserKey (generateKey : completion string)
  (userId : string) : Eff Keychain KeyResult :=
  try_catch
    (if falsy userId
     then ret (failure "User ID is required for key generation")
     else
       encryptionKey <- pure generateKey ;;
       setItemAsync (keyName userId) encryptionKey ;;
       ret (mkKeyResult (Some encryptionKey) true None))
    (fun error =>
       ret (failure ("Failed to generate and store user key: "
                     ++ message_or_unknown error))).

(** [KeyManager.getUserKey] *)
Definition getUserKey (userId : string) : Eff Keychain KeyResult :=
  try_catch
    (if falsy userId
     then ret (failure "User ID is required to retrieve key")
     else
       key <- getItemAsync (keyName userId) ;;
       match key with
       | Some (String c s) => ret (mkKeyResult (Some (String c s)) true None)
       | _ => ret (failure "No encryption key found for user")
       end)
    (fun error =>
       ret (failure ("Failed to retrieve user key: "
                     ++ message_or_unknown error))).

(** [KeyManager.deriveAndStoreKeyFromPassword] *)
Definition deriveAndStoreKeyFromPassword (generateKey : completion string)
  (userId password : string) : Eff Keychain KeyResult :=
  try_catch
    (if (falsy userId || falsy password)%bool
     then ret (failure "User ID and password are required")
     else
       stored <- getItemAsync (saltName userId) ;;
       salt <-
         match stored with
         | Some (String c s) => ret (String c s)
         | _ =>
             fresh <- pure generateKey ;;
             setItemAsync (saltName userId) fresh ;;
             ret fresh
         end ;;
       derivedKey <- pure (deriveKey password salt 10000) ;;
       setItemAsync (keyName userId) derivedKey ;;
       ret (mkKeyResult (Some derivedKey) true None))
    (fun error =>
       ret (failure ("Failed to derive and store key: "
                     ++ message_or_unknown error))).

(** [KeyManager.removeUserKey]; its result has no [key]. *)
Definition removeUserKey (userId : string) : Eff Keychain KeyResult :=
  try_catch
    (if falsy userId
     then ret (failure "User ID is required to remove key")
     else
       deleteItemAsync (keyName userId) ;;
       deleteItemAsync (saltName userId) ;;
       ret (mkKeyResult None true None))
    (fun error =>
       ret (failure ("Failed to remove user key: "
                     ++ message_or_unknown error))).

(** [KeyManager.hasUserKey]: [key !== null]. *)
Definition hasUserKey (userId : string) : Eff Keychain bool :=
  try_catch
    (if falsy userId then ret false
     else
       key <- getItemAsync (keyName userId) ;;
       ret (match key with Some _ => true | None => false end))
    (fun _ => ret false).

(** [KeyManager.rotateUserKey] *)
Definition rotateUserKey (generateKey : completion string) (userId : string)
  : Eff Keychain RotationResult :=
  try_catch
    (if falsy userId
     then ret (rotation_failure "User ID is required for key rotation")
     else
       currentKeyResult <- getUserKey userId ;;
       if negb (success currentKeyResult)
       then ret (rotation_failure "Cannot rotate key: No existing key found")
       else
         newKeyResult <- generateAndStoreUserKey generateKey userId ;;
         if negb (success newKeyResult)
         then ret (rotation_failure
                     "Failed to generate new key during rotation")
         else ret (mkRotationResult (key currentKeyResult) (key newKeyResult)
                                    true None))
    (fun error =>
       ret (rotation_failure ("Key rotation failed: "
                              ++ message_or_unknown error))).

(** A call of one of the methods for a user. *)
Inductive KeyCall : Type :=
| GenerateAndStoreUserKey (generateKey : completion string)
| GetUserKey
| DeriveAndStoreKeyFromPassword (generateKey : completion string)
                                (password : string)
| RemoveUserKey
| HasUserKey
| RotateUserKey (generateKey : completion string).

(** The keychain after the call. *)
Definition after (c : KeyCall) (userId : string) (s : Keychain) : Keychain :=
  match c with
  | GenerateAndStoreUserKey g => snd (generateAndStoreUserKey g userId s)
  | GetUserKey => snd (getUserKey userId s)
  | DeriveAndStoreKeyFromPassword g p =>
      snd (deriveAndStoreKeyFromPassword g userId p s)
  | RemoveUserKey => snd (removeUserKey userId s)
  | HasUserKey => snd (hasUserKey userId s)
  | RotateUserKey g => snd (rotateUserKey g userId s)
  end.

End WithKeyDerivation.

(** The key and the salt stored for a user. *)
Definition stored_key (userId : string) (s : Keychain) : option string :=
  lookup (keyName userId) (items s).

Definition stored_salt (userId : string) (s : Keychain) : option string :=
  lookup (saltName userId) (items s).

(** The entries of [v] in two lists of items are the same. *)
Definition same_entries (v : string) (l l' : list (string * string)) : Prop :=
  lookup (keyName v) l' = lookup (keyName v) l
  /\ lookup (saltName v) l' = lookup (saltName v) l.

(** A computation on the keychain that leaves the entries of [v] alone. *)
Definition spares {A} (v : string) (m : Eff Keychain A) : Prop :=
  forall s, same_entries v (items s) (items (snd (m s))).

(** The platform accepts the next [n] calls. *)
Definition accepts (n : nat) (s : Keychain) : Prop :=
  forall i, (i < n)%nat -> rejected s (calls s + i) = None.

End KeyManager.

(** ** utils/healthLogValidation: sanitizeHealthLogData *)

Module Sanitizing.

(** [sanitizeHealthLogData]: the object literal, its properties evaluated
    in the order they are written. *)
Definition sanitizeHealthLogData (data : object) : completion object :=
  match call_trim (prop data "title") with
  | Throws e => Throws e
  | Returns title =>
  match call_trim (prop data "description") with
  | Throws e => Throws e
  | Returns description =>
  match call_trim_each (prop data "tags") with
  | Throws e => Throws e
  | Returns tags =>
  match optional call_trim (prop data "notes") with
  | Throws e => Throws e
  | Returns notes =>
  match optional call_trim_each (prop data "attachments") with
  | Throws e => Throws e
  | Returns attachments =>
      Returns [("title", title);
               ("description", description);
               ("category", prop data "category");
               ("severity", prop data "severity");
               ("tags", tags);
               ("date", prop data "date");
               ("notes", notes);
               ("attachments", attachments)]
  end end end end end.

(** A string that [trim] leaves as it is. *)
Definition trimmed (v : value) : Prop :=
  exists s, v = Str s /\ trim s = s.

End Sanitizing.

(** ** HealthLogService: creating and listing records *)

Module HealthLogLists.
Local Open Scope eff_scope.
Section WithPlatform.
Context {crypto : CryptoJS} {json : JSON} {dates : Dates}.

(** [healthLogs.sort((a, b) => new Date(b.date).getTime() - new
    Date(a.date).getTime())] of the engine: the sorted array, or what the
    comparison throws. *)
Variable sort_by_date : list value -> completion (list value).

Variable encryptionKey : string.

(** [HealthLogService.createHealthLog]; [now] is the clock at the call,
    [healthLogId] what [generateHealthLogId()] gives and [salt] the
    randomness of the encryption. *)
Definition createHealthLog (now : Z) (salt : string) (healthLogId : string)
  (userId : Z) (data : object) : Eff Database.DatabaseService object :=
  sanitizedData <- pure (Sanitizing.sanitizeHealthLogData data) ;;
  let validation := Validation.validateHealthLogData now sanitizedData in
  if negb (Validation.isValid validation)
  then throw (ErrorObj (HealthLogs.validation_message validation))
  else
    let healthLog := spread sanitizedData [("id", Str healthLogId)] in
    try_catch
      (let encryptionResult :=
         Encryption.encrypt salt (stringify healthLog) encryptionKey in
       if negb (Encryption.encryption_success encryptionResult)
       then throw (ErrorObj
              (or_else (Encryption.encryption_error encryptionResult)
                       "Encryption failed"))
       else
         Database.createHealthLog userId
           (Encryption.encryptedData encryptionResult) ;;
         ret healthLog)
      (fun error =>
         throw (ErrorObj ("Failed to create health log: "
                          ++ message_or_unknown error))).

(** [for (const encryptedLog of encryptedLogs) { try { ... } catch { } }]
    on the array [healthLogs] collected so far: a row that does not
    decrypt, or whose plaintext does not parse, is passed over. *)
Fixpoint decrypt_each (encryptedLogs : list Database.HealthLogRecord)
  (healthLogs : list value) : list value :=
  match encryptedLogs with
  | [] => healthLogs
  | encryptedLog :: rest =>
      let decryptionResult :=
        Encryption.decrypt (Database.encrypted_data encryptedLog)
                           encryptionKey in
      if negb (Encryption.success decryptionResult)
      then decrypt_each rest healthLogs
      else
        match parse (Encryption.decryptedData decryptionResult) with
        | Returns healthLog => decrypt_each rest (healthLogs ++ [healthLog])
        | Throws _ => decrypt_each rest healthLogs
        end
  end.

(** [HealthLogService.getAllHealthLogs] *)
Definition getAllHealthLogs (userId : Z)
  : Eff Database.DatabaseService (list value) :=
  try_catch
    (encryptedLogs <- Database.getHealthLogsByUserId userId ;;
     pure (sort_by_date (decrypt_each encryptedLogs [])))
    (fun error =>
       throw (ErrorObj ("Failed to retrieve health logs: "
                        ++ message_or_unknown error))).

(** The row decrypts under the key of the service. *)
Definition decryptable (row : Database.HealthLogRecord) : bool :=
  Encryption.success
    (Encryption.decrypt (Database.encrypted_data row) encryptionKey).

End WithPlatform.

(** The store without the rows for which [keep] is false. *)
Definition only (keep : Database.HealthLogRecord -> bool)
  (d : Database.DatabaseService) : Database.DatabaseService :=
  match Database.db d with
  | None => d
  | Some s =>
      Database.mkDatabaseService
        (Some (Database.with_rows (filter keep (Database.health_logs s)) s))
  end.

End HealthLogLists.

(** ** Notions the further properties are stated with *)

Module Notions.

(** The ids of the rows are pairwise distinct, and none is above the
    AUTOINCREMENT sequence. *)
Definition numbered (d : Database.DatabaseService) : Prop :=
  match Database.db d with
  | None => True
  | Some s =>
      NoDup (map Database.id (Database.health_logs s))
      /\ Forall (fun r => Database.id r <= Database.sqlite_sequence s)
                (Database.health_logs s)
  end.

(** The store is open and the driver accepts its next statement. *)
Definition next_statement_accepted (d : Database.DatabaseService) : Prop :=
  match Database.db d with
  | None => False
  | Some s => Database.driver_fault s (Database.statements s) = None
  end.

Definition oldest_first (l : list Database.HealthLogRecord) : Prop :=
  StronglySorted
    (fun a b => Database.created_at a <= Database.created_at b) l.

Definition newest_first (l : list Database.HealthLogRecord) : Prop :=
  StronglySorted
    (fun a b => Database.created_at b <= Database.created_at a) l.

(** A row of [userId] that has not been uploaded. *)
Definition pending (userId : Z) (r : Database.HealthLogRecord) : bool :=
  ((Database.user_id r =? userId)
   && Database.is_null (Database.synced_at r))%bool.

(** The row found under an id, as [SELECT ... WHERE id = ?] finds it. *)
Definition row_of (id0 : Z) (d : Database.DatabaseService)
  : option Database.HealthLogRecord :=
  find (fun r => Database.id r =? id0) (Database.rows d).

(** [b] is the row [a] as it was, or [a] after it has been marked as
    synced: nothing but the two sync fields differs. *)
Definition same_or_marked (a b : Database.HealthLogRecord) : Prop :=
  b = a \/ exists cloudId now, b = Database.set_synced cloudId now a.

(** The backend answers the connectivity probe without an error. *)
Definition reachable (a : Supabase.Answer) : bool :=
  match a with
  | Supabase.Resolves _ None => true
  | _ => false
  end.

(** The session user in the answer to [auth.getUser()], if it has one. *)
Definition session_user (a : Supabase.Answer) : option string :=
  match a with
  | Supabase.Resolves user None => user
  | _ => None
  end.

(** The answer the backend gives to the next request, and to the one after
    it. *)
Definition next_answer (w : Sync.World) : Supabase.Answer :=
  Supabase.answer (Sync.supabase w)
    (List.length (Supabase.requests (Sync.supabase w))).

Definition second_answer (w : Sync.World) : Supabase.Answer :=
  Supabase.answer (Sync.supabase w)
    (S (List.length (Supabase.requests (Sync.supabase w)))).

(** The uploads among the requests sent so far. *)
Definition uploads (w : Sync.World) : list Supabase.Request :=
  filter Supabase.is_insert (Supabase.requests (Sync.supabase w)).

Definition total (delays : list Z) : Z := fold_right Z.add 0 delays.

End Notions.

(** ** Inputs for the runs of the further properties *)

Module Scenario.

(** A keychain with no item, that rejects no call. *)
Definition keychain : SecureStore.Keychain :=
  SecureStore.mkKeychain [] 0 (fun _ => None).

(** A keychain that rejects the calls listed (counted from 0). *)
Definition faulty_keychain (items : list (string * string))
  (rejected : list nat) : SecureStore.Keychain :=
  SecureStore.mkKeychain items 0
    (fun n => if existsb (Nat.eqb n) rejected
              then Some (ErrorObj "Keychain is locked")
              else None).

(** A stand-in for PBKDF2: not a key derivation, only a function of the
    password and the salt. *)
Definition pbkdf2 (password salt : string) (iterations : Z)
  : completion string :=
  Returns (salt ++ "$" ++ password).

(** What a form hands to [createHealthLog]. *)
Definition new_log : object :=
  [("title", Str "  Morning Headache ");
   ("description", Str "Dull pain behind the eyes");
   ("category", Str "symptom"); ("severity", Number 2);
   ("tags", Arr [Str " head "; Str "  "]); ("date", Str "2024-01-15")].

(** The same form under another title. *)
Definition titled (title : string) : object :=
  [("title", Str title);
   ("description", Str "Dull pain behind the eyes");
   ("category", Str "symptom"); ("severity", Number 2);
   ("tags", Arr [Str "head"]); ("date", Str "2024-01-15")].

(** That form sanitized, the id generated for it and the record made of
    the two. *)
Definition sanitized_log : object :=
  [("title", Str "Morning Headache");
   ("description", Str "Dull pain behind the eyes");
   ("category", Str "symptom"); ("severity", Number 2);
   ("tags", Arr [Str "head"]); ("date", Str "2024-01-15");
   ("notes", Undefined); ("attachments", Undefined)].

Definition generated_id : string := "health_log_1705400000000_k3j9x2m1q".

Definition created_log : object := ("id", Str generated_id) :: sanitized_log.

(** The stored record of [Fixture.store_with_one_log] after the patch
    [Fixture.foreign_patch]. *)
Definition updated_log : object :=
  [("id", Str "health_log_1"); ("title", Str "Updated");
   ("description", Str "Dull pain behind the eyes");
   ("category", Str "symptom"); ("severity", Number 2);
   ("tags", Arr [Str "head"]); ("date", Str "2024-01-15");
   ("notes", Undefined); ("attachments", Undefined)].

(** A row of user 7 whose payload is not a ciphertext. *)
Definition corrupted_row : Database.HealthLogRecord :=
  Database.mkHealthLogRecord 2 7 "not a ciphertext"
    1700000060 1700000060 None None.

(** A row of user 7 that has been uploaded. *)
Definition synced_row : Database.HealthLogRecord :=
  Database.mkHealthLogRecord 3 7 "Salted__22222222.secret.{}"
    1700000030 1700000030 (Some 1700000040) (Some "cloud-0").

(** A row of another user. *)
Definition foreign_row : Database.HealthLogRecord :=
  Database.mkHealthLogRecord 4 8 "Salted__33333333.secret.{}"
    1700000010 1700000010 None None.

(** Rounding of [100 * synced / total] to the nearest integer, halves up:
    what [Math.round] gives where the double arithmetic is exact. *)
Definition round_percentage (synced total : Z) : Z :=
  (200 * synced + total) / (2 * total).

End Scenario.

(** * Properties *)

(** ** The retryability heuristic *)

Section RetryHeuristic.
Import Sync Claimed.

Lemma isRetryableError_markers (m : string) :
  isRetryableError (ErrorObj m)
  = existsb (includes (toLowerCase m)) retryable_markers.
Proof.
  unfold isRetryableError, retryable_markers.
  cbn [existsb].
  generalize (toLowerCase m); intros l.
  repeat (match goal with
          | |- context [includes l ?k] => destruct (includes l k); cbn
          end; try reflexivity).
Qed.

(** C8, as the code has it: [isRetryableError] answers [true] exactly for an
    [Error] whose lowercased message contains one of the ten markers
    network, timeout, connection, fetch, 500, 502, 503, 504, rate limit, 429;
    it answers [false] for every other error and for a value that is not an
    [Error]. *)
Theorem isRetryableError_exactly_on_markers (e : thrown) :
  isRetryableError e = true <->
  exists m marker,
    e = ErrorObj m /\ In marker retryable_markers
    /\ includes (toLowerCase m) marker = true.
Proof.
  split.
  - destruct e as [m | r]; [ | discriminate ].
    rewrite isRetryableError_markers.
    intros H. apply existsb_exists in H. destruct H as [k [Hin Hk]].
    exists m, k. auto.
  - intros [m [k [-> [Hin Hk]]]].
    rewrite isRetryableError_markers.
    apply existsb_exists. exists k. auto.
Qed.

(** C8, as the specification words it, fails: the message of a 501 response
    carries a 5xx status code and none of the markers. *)
Lemma not_every_5xx_is_retryable :
  let e := ErrorObj "HTTP 501 Not Implemented" in
  claimed_retryable e = true /\ isRetryableError e = false.
Proof. split; reflexivity. Qed.
End RetryHeuristic.

(** ** The sync engine *)

Section SyncFacts.
Import Sync Claimed.

Lemma supabase_send_world r w :
  snd (supabase_send r w) = after_request r w.
Proof.
  unfold supabase_send, within, Supabase.send, after_request.
  destruct (Supabase.answer (supabase w) _); reflexivity.
Qed.

Lemma uploadHealthLog_world log u w :
  snd (uploadHealthLog log u w) = after_request (upload_request w u log) w.
Proof.
  unfold uploadHealthLog, try_catch, bind, gets, supabase_send, within,
    Supabase.send, after_request, upload_request, throw, ret.
  destruct (Supabase.answer (supabase w) _) as [e | data err]; cbn; [reflexivity|].
  destruct err; cbn; [reflexivity|].
  destruct data as [[|c s]|]; reflexivity.
Qed.

Lemma uploadHealthLog_throws_Error log u w e w' :
  uploadHealthLog log u w = (Throws e, w') ->
  e = ErrorObj (message_or_unknown e).
Proof.
  unfold uploadHealthLog, try_catch, bind, gets, supabase_send, within,
    Supabase.send, throw, ret.
  destruct (Supabase.answer (supabase w) _) as [e0 | data err]; cbn.
  - intros H; inversion H; reflexivity.
  - destruct err; cbn; [intros H; inversion H; reflexivity|].
    destruct data as [[|c s]|]; cbn; intros H; inversion H; reflexivity.
Qed.

Lemma guarded_throws_Error {A} prefix (body : Eff Database.SQLiteDatabase A) d e d' :
  Database.guarded prefix body d = (Throws e, d') ->
  e = ErrorObj (message_or_unknown e).
Proof.
  unfold Database.guarded.
  destruct (Database.db d) as [s|]; [|intros H; inversion H; reflexivity].
  destruct (body s) as [[a|e0] s']; intros H; inversion H; reflexivity.
Qed.

Lemma statement_throws_rows {A} (effect : Z -> Database.SQLiteDatabase -> A * Database.SQLiteDatabase) s e s' :
  Database.statement effect s = (Throws e, s') ->
  Database.health_logs s' = Database.health_logs s.
Proof.
  unfold Database.statement.
  destruct (Database.driver_fault s _).
  - intros H; inversion H; reflexivity.
  - destruct (effect _ s); intros H; inversion H.
Qed.

Lemma markHealthLogAsSynced_throws_rows id0 c d e d' :
  Database.markHealthLogAsSynced id0 c d = (Throws e, d') ->
  Database.rows d' = Database.rows d.
Proof.
  unfold Database.markHealthLogAsSynced, Database.guarded, Database.rows.
  destruct (Database.db d) as [s|] eqn:Hdb.
  - destruct (Database.statement _ s) as [[a|e0] s'] eqn:Hs; intros H; inversion H; subst.
    cbn. eapply statement_throws_rows; eauto.
  - intros H; inversion H; subst. rewrite Hdb. reflexivity.
Qed.

(** What one turn of the loop does, by the outcome of its two steps. *)
Lemma upload_one_cases log u r w :
  let w1 := after_request (upload_request w u log) w in
  match fst (uploadHealthLog log u w) with
  | Returns cloudId =>
      match Database.markHealthLogAsSynced (Database.id log) cloudId (database w1) with
      | (Returns _, d2) =>
          upload_one log u r w
          = (Returns (mkSyncResult (success r) (syncedCount r + 1)
                        (failedCount r) (errors r)),
             set_database d2 w1)
      | (Throws e, d2) =>
          upload_one log u r w
          = (Returns (mkSyncResult (success r) (syncedCount r)
                        (failedCount r + 1)
                        (errors r ++ [mkSyncError (Database.id log)
                                        (message_or_unknown e)
                                        (isRetryableError e)])%list),
             set_database d2 w1)
      end
  | Throws e =>
      upload_one log u r w
      = (Returns (mkSyncResult (success r) (syncedCount r)
                    (failedCount r + 1)
                    (errors r ++ [mkSyncError (Database.id log)
                                    (message_or_unknown e)
                                    (isRetryableError e)])%list),
         w1)
  end.
Proof.
  intros w1.
  pose proof (uploadHealthLog_world log u w) as Hw.
  unfold upload_one, try_catch, bind.
  destruct (uploadHealthLog log u w) as [[cid|e] w1'] eqn:Hup; cbn in Hw |- *; subst w1'.
  - fold w1. unfold databaseService, within.
    destruct (Database.markHealthLogAsSynced _ _ _) as [[[]|e] d2]; reflexivity.
  - reflexivity.
Qed.

Lemma upload_one_summary log u r w :
  exists r' w',
    upload_one log u r w = (Returns r', w')
    /\ engine w' = engine w /\ timers w' = timers w
    /\ Supabase.requests (supabase w')
       = (Supabase.requests (supabase w) ++ [upload_request w u log])%list
    /\ Supabase.answer (supabase w') = Supabase.answer (supabase w)
    /\ success r' = success r
    /\ ((syncedCount r' = syncedCount r + 1 /\ failedCount r' = failedCount r
         /\ errors r' = errors r)
        \/ (syncedCount r' = syncedCount r /\ failedCount r' = failedCount r + 1
            /\ exists m, errors r'
                 = (errors r ++ [mkSyncError (Database.id log) m
                                   (isRetryableError (ErrorObj m))])%list)).
Proof.
  pose proof (upload_one_cases log u r w) as H. cbv zeta in H.
  destruct (uploadHealthLog log u w) as [[cid|e] w1] eqn:Hup; cbn [fst] in H.
  - destruct (Database.markHealthLogAsSynced _ _ _) as [[[]|e] d2] eqn:Hmark;
      rewrite H; do 2 eexists; (split; [reflexivity|]);
      cbn [engine timers supabase set_database after_request set_supabase
           Supabase.requests Supabase.answer success syncedCount failedCount
           errors];
      repeat (split; [reflexivity|]).
    + left. auto.
    + right. repeat (split; [reflexivity|]).
      exists (message_or_unknown e).
      apply guarded_throws_Error in Hmark. rewrite <- Hmark. reflexivity.
  - rewrite H; do 2 eexists; (split; [reflexivity|]);
      cbn [engine timers supabase set_database after_request set_supabase
           Supabase.requests Supabase.answer success syncedCount failedCount
           errors];
      repeat (split; [reflexivity|]).
    right. repeat (split; [reflexivity|]).
    exists (message_or_unknown e).
    apply uploadHealthLog_throws_Error in Hup. rewrite <- Hup. reflexivity.
Qed.

Lemma upload_request_engine w w' u log :
  engine w' = engine w -> upload_request w' u log = upload_request w u log.
Proof. unfold upload_request. intros ->. reflexivity. Qed.

Lemma upload_each_summary logs : forall u r w,
  exists r' w' new,
    upload_each logs u r w = (Returns r', w')
    /\ engine w' = engine w /\ timers w' = timers w
    /\ Supabase.answer (supabase w') = Supabase.answer (supabase w)
    /\ Supabase.requests (supabase w')
       = (Supabase.requests (supabase w) ++ map (upload_request w u) logs)%list
    /\ success r' = success r
    /\ syncedCount r' + failedCount r'
       = syncedCount r + failedCount r + Z.of_nat (List.length logs)
    /\ syncedCount r <= syncedCount r' /\ failedCount r <= failedCount r'
    /\ errors r' = (errors r ++ new)%list
    /\ Z.of_nat (List.length new) = failedCount r' - failedCount r
    /\ subsequence (map localId new) (map Database.id logs)
    /\ Forall (fun se => retryable se = isRetryableError (ErrorObj (error se)))
              new.
Proof.
  induction logs as [|log rest IH]; intros u r w.
  - exists r, w, []. cbn. rewrite !app_nil_r.
    repeat split; try reflexivity; try lia; constructor.
  - destruct (upload_one_summary log u r w)
      as (r1 & w1 & Hone & He & Ht & Hq & Ha & Hsuccess & Hcount).
    destruct (IH u r1 w1)
      as (r' & w' & new & Hrest & He' & Ht' & Ha' & Hq' & Hs' & Hsum & Hls & Hlf
          & Herr & Hlen & Hsub & Hall).
    cbn [upload_each]. unfold bind at 1. rewrite Hone.
    assert (Hreq : map (upload_request w1 u) rest = map (upload_request w u) rest).
    { apply map_ext. intros x. apply upload_request_engine. exact He. }
    destruct Hcount as [(Hs1 & Hf1 & He1) | (Hs1 & Hf1 & m & He1)].
    + exists r', w', new. rewrite Hrest.
      split; [reflexivity|].
      rewrite He', Ht', Ha', Hq', Hs', Herr, He, Ht, Ha, Hq, He1, Hreq, Hsuccess.
      cbn [map List.length]. rewrite <- app_assoc. cbn [app].
      repeat split; try reflexivity; try lia; auto.
      apply subsequence_skip. exact Hsub.
    + exists r', w', (mkSyncError (Database.id log) m
                        (isRetryableError (ErrorObj m)) :: new).
      rewrite Hrest. split; [reflexivity|].
      rewrite He', Ht', Ha', Hq', Hs', Herr, He, Ht, Ha, Hq, He1, Hreq, Hsuccess.
      cbn [map List.length localId]. rewrite <- !app_assoc. cbn [app].
      repeat split; try reflexivity; try lia; auto.
      apply subsequence_keep. exact Hsub.
Qed.

Lemma checkConnectivity_total w :
  exists b, checkConnectivity w = (Returns b, after_request Supabase.SelectOne w).
Proof.
  unfold checkConnectivity, try_catch, bind, supabase_send, within,
    Supabase.send, after_request, ret.
  destruct (Supabase.answer (supabase w) _) as [e | data err]; cbn; eauto.
Qed.

Lemma getSupabaseUser_total w :
  exists u, getSupabaseUser w = (Returns u, after_request Supabase.GetUser w).
Proof.
  unfold getSupabaseUser, try_catch, bind, supabase_send, within,
    Supabase.send, after_request, ret, throw.
  destruct (Supabase.answer (supabase w) _) as [e | data err]; cbn; eauto.
  destruct err; cbn; eauto.
Qed.

Lemma databaseService_world {A} (m : Eff Database.DatabaseService A) w :
  snd (databaseService m w) = set_database (snd (m (database w))) w.
Proof. unfold databaseService, within. destruct (m (database w)); reflexivity. Qed.

(** The [try] block leaves the fields of the engine and the timers alone. *)
Lemma sync_body_engine uid w out w' :
  sync_body uid w = (out, w') ->
  engine w' = engine w /\ timers w' = timers w.
Proof.
  unfold sync_body, bind at 1.
  destruct (checkConnectivity_total w) as [b ->].
  destruct b; cbn [negb]; [|intros H; inversion H; split; reflexivity].
  unfold bind at 1.
  destruct (getSupabaseUser_total (after_request Supabase.SelectOne w)) as [u ->].
  destruct u as [u|]; [|intros H; inversion H; split; reflexivity].
  unfold bind at 1.
  pose proof (databaseService_world (Database.getUnsyncedHealthLogs uid)
                (after_request Supabase.GetUser
                   (after_request Supabase.SelectOne w))) as Hd.
  destruct (databaseService _ _) as [[logs|e] w3]; cbn [snd] in Hd; subst w3;
    [|intros H; inversion H; split; reflexivity].
  destruct logs as [|log rest]; [intros H; inversion H; split; reflexivity|].
  unfold bind.
  match goal with
  | |- context [upload_each ?l ?u ?r ?w0] =>
      destruct (upload_each_summary l u r w0)
        as (r' & w'' & new & -> & He & Ht & _)
  end.
  intros H; inversion H; subst. rewrite He, Ht. split; reflexivity.
Qed.

Lemma sync_body_throws_Error uid w e w' :
  sync_body uid w = (Throws e, w') -> e = ErrorObj (message_or_unknown e).
Proof.
  unfold sync_body, bind at 1.
  destruct (checkConnectivity_total w) as [b ->].
  destruct b; cbn [negb]; [|intros H; inversion H; reflexivity].
  unfold bind at 1.
  destruct (getSupabaseUser_total (after_request Supabase.SelectOne w)) as [u ->].
  destruct u as [u|]; [|intros H; inversion H; reflexivity].
  unfold bind at 1.
  destruct (databaseService _ _) as [[logs|e0] w3] eqn:Hd.
  - destruct logs as [|log rest]; [intros H; inversion H|].
    unfold bind.
    destruct (upload_each_summary (log :: rest) u (mkSyncResult true 0 0 []) w3)
      as (r' & w'' & new & -> & _).
    intros H; inversion H.
  - intros H; inversion H; subst.
    unfold databaseService, within in Hd.
    destruct (Database.getUnsyncedHealthLogs uid _) as [[l|e1] d'] eqn:Hg;
      inversion Hd; subst.
    eapply guarded_throws_Error. exact Hg.
Qed.

(** A call that gets past the two guards runs the [try] block with the flag
    up and lowers it in [finally]. *)
Lemma syncHealthLogs_past_guards uid w :
  isSyncing (engine w) = false ->
  not_initialized (engine w) = false ->
  syncHealthLogs uid w
  = match sync_body uid (set_isSyncing true w) with
    | (Returns r, w') => (Returns r, set_isSyncing false w')
    | (Throws e, w') =>
        (Throws (ErrorObj ("Sync failed: " ++ message_or_unknown e)),
         set_isSyncing false w')
    end.
Proof.
  intros Hs Hi.
  unfold syncHealthLogs, bind, gets, modify, try_finally, try_catch, throw.
  rewrite Hs, Hi.
  destruct (sync_body uid (set_isSyncing true w)) as [[r|e] w']; reflexivity.
Qed.

Lemma syncHealthLogs_frame uid w out w' :
  syncHealthLogs uid w = (out, w') ->
  timers w' = timers w
  /\ deviceId (engine w') = deviceId (engine w)
  /\ (isSyncing (engine w) = false -> isSyncing (engine w') = false)
  /\ match out with
     | Returns _ => True
     | Throws e => e = ErrorObj (message_or_unknown e)
     end.
Proof.
  destruct (isSyncing (engine w)) eqn:Hs.
  { unfold syncHealthLogs, bind, gets, throw. rewrite Hs.
    intros H; inversion H; subst.
    repeat split; auto; intros; congruence. }
  destruct (not_initialized (engine w)) eqn:Hi.
  { unfold syncHealthLogs, bind, gets, throw. rewrite Hs, Hi.
    intros H; inversion H; subst.
    repeat split; auto. }
  rewrite (syncHealthLogs_past_guards uid w Hs Hi).
  destruct (sync_body uid (set_isSyncing true w)) as [[r|e] w1] eqn:Hb;
    intros H; inversion H; subst;
    destruct (sync_body_engine _ _ _ _ Hb) as [He Ht];
    cbn [set_isSyncing engine timers isSyncing deviceId];
    rewrite He, Ht; repeat split; auto.
Qed.

Lemma filter_is_insert_app l l' :
  filter Supabase.is_insert (l ++ l')
  = (filter Supabase.is_insert l ++ filter Supabase.is_insert l')%list.
Proof. apply filter_app. Qed.

(** C1: a call that is not already syncing, is initialised, finds the backend
    reachable and a user signed in, and gets the list of unsynced records from
    the store: with no record it returns [{success: true, syncedCount: 0,
    failedCount: 0, errors: []}] and has sent no upload; otherwise it returns a
    result whose [success] is [syncedCount > 0 || failedCount === 0], so that
    [success] is false exactly when nothing was synced and something failed,
    and whose two counts add up to the number of records. *)
Theorem sync_result_when_preconditions_pass
  (userId : Z) (w w1 w2 w3 : World) (supabaseUserId : string)
  (unsyncedLogs : list Database.HealthLogRecord) :
  isSyncing (engine w) = false ->
  not_initialized (engine w) = false ->
  checkConnectivity (set_isSyncing true w) = (Returns true, w1) ->
  getSupabaseUser w1 = (Returns (Some supabaseUserId), w2) ->
  databaseService (Database.getUnsyncedHealthLogs userId) w2
    = (Returns unsyncedLogs, w3) ->
  match unsyncedLogs with
  | [] =>
      syncHealthLogs userId w
      = (Returns (mkSyncResult true 0 0 []), set_isSyncing false w3)
      /\ filter Supabase.is_insert (Supabase.requests (supabase w3))
         = filter Supabase.is_insert (Supabase.requests (supabase w))
  | _ :: _ =>
      exists result w',
        syncHealthLogs userId w = (Returns result, w')
        /\ success result
           = ((0 <? syncedCount result) || (failedCount result =? 0))%bool
        /\ (success result = false
            <-> syncedCount result = 0 /\ 0 < failedCount result)
        /\ 0 <= syncedCount result /\ 0 <= failedCount result
        /\ syncedCount result + failedCount result
           = Z.of_nat (List.length unsyncedLogs)
  end.
Proof.
  intros Hs Hi Hc Hu Hd.
  destruct unsyncedLogs as [|log rest];
    rewrite (syncHealthLogs_past_guards userId w Hs Hi);
    unfold sync_body, bind at 1; rewrite Hc; cbn [negb];
    unfold bind at 1; rewrite Hu; unfold bind at 1; rewrite Hd.
  - split; [reflexivity|].
    destruct (checkConnectivity_total (set_isSyncing true w)) as [b Hc'].
    rewrite Hc' in Hc. inversion Hc; subst.
    destruct (getSupabaseUser_total
                (after_request Supabase.SelectOne (set_isSyncing true w)))
      as [u' Hu'].
    rewrite Hu' in Hu. inversion Hu; subst.
    pose proof (databaseService_world (Database.getUnsyncedHealthLogs userId)
                 (after_request Supabase.GetUser
                    (after_request Supabase.SelectOne (set_isSyncing true w))))
      as Hw.
    rewrite Hd in Hw. cbn [snd] in Hw. subst w3.
    cbn [supabase set_database after_request set_supabase Supabase.requests
         set_isSyncing].
    rewrite !filter_is_insert_app. cbn. rewrite !app_nil_r. reflexivity.
  - unfold bind.
    match goal with
    | |- context [upload_each ?l ?u ?r ?w0] =>
        destruct (upload_each_summary l u r w0)
          as (r' & w' & new & -> & _ & _ & _ & _ & _ & Hsum & Hls & Hlf & _)
    end.
    cbn [syncedCount failedCount] in Hsum, Hls, Hlf.
    do 2 eexists. split; [reflexivity|].
    cbn [success syncedCount failedCount ret fst].
    split; [reflexivity|].
    split; [|repeat split; lia].
    rewrite orb_false_iff, Z.ltb_ge, Z.eqb_neq. lia.
Qed.

Lemma uploadHealthLog_returns log u w cloudId w1 :
  uploadHealthLog log u w = (Returns cloudId, w1) ->
  Supabase.answer (supabase w) (List.length (Supabase.requests (supabase w)))
  = Supabase.Resolves (Some cloudId) None.
Proof.
  unfold uploadHealthLog, try_catch, bind, gets, supabase_send, within,
    Supabase.send, throw, ret.
  destruct (Supabase.answer (supabase w) _) as [e0 | data err]; cbn.
  - intros H; inversion H.
  - destruct err; cbn; [intros H; inversion H|].
    destruct data as [[|c s]|]; cbn; intros H; inversion H; reflexivity.
Qed.

Lemma insert_asc_In x r l :
  In x (Database.insert_asc r l) <-> x = r \/ In x l.
Proof.
  induction l as [|y l IH]; cbn.
  - intuition congruence.
  - destruct (Database.created_at r <=? Database.created_at y); cbn.
    + intuition congruence.
    + rewrite IH. intuition congruence.
Qed.

Lemma order_by_created_at_asc_In x l :
  In x (Database.order_by_created_at_asc l) <-> In x l.
Proof.
  induction l as [|y l IH]; cbn; [tauto|].
  rewrite insert_asc_In, IH. intuition congruence.
Qed.

Lemma select_unsynced_In x userId rows :
  In x (Database.select_unsynced userId rows)
  <-> In x rows /\ Database.user_id x = userId /\ Database.synced_at x = None.
Proof.
  unfold Database.select_unsynced.
  rewrite order_by_created_at_asc_In, filter_In, andb_true_iff, Z.eqb_eq.
  unfold Database.is_null.
  destruct (Database.synced_at x); intuition congruence.
Qed.

(** C2: the loop over the unsynced records always runs to its end and
    returns. Every record is counted once, as synced or as failed; every
    failure appends one entry to [errors], in the order of the records, with
    the id of its record and with [retryable] computed from its message; one
    upload request per record is sent, in order, whatever failed before. When
    the upload of the first record fails, the loop goes on with the remaining
    records from the result with [failedCount] incremented and
    [{localId, error, retryable}] appended. *)
Theorem upload_each_accounts_for_every_record
  (unsyncedLogs : list Database.HealthLogRecord) (supabaseUserId : string)
  (result : SyncResult) (w : World) :
  exists result' w' new,
    upload_each unsyncedLogs supabaseUserId result w = (Returns result', w')
    /\ syncedCount result' + failedCount result'
       = syncedCount result + failedCount result
         + Z.of_nat (List.length unsyncedLogs)
    /\ syncedCount result <= syncedCount result'
    /\ failedCount result <= failedCount result'
    /\ errors result' = (errors result ++ new)%list
    /\ Z.of_nat (List.length new) = failedCount result' - failedCount result
    /\ subsequence (map localId new) (map Database.id unsyncedLogs)
    /\ Forall (fun se => retryable se = isRetryableError (ErrorObj (error se)))
              new
    /\ Supabase.requests (supabase w')
       = (Supabase.requests (supabase w)
          ++ map (upload_request w supabaseUserId) unsyncedLogs)%list
    /\ (forall log rest e w1,
          unsyncedLogs = log :: rest ->
          uploadHealthLog log supabaseUserId w = (Throws e, w1) ->
          upload_each unsyncedLogs supabaseUserId result w
          = upload_each rest supabaseUserId
              (mkSyncResult (success result) (syncedCount result)
                 (failedCount result + 1)
                 (errors result
                  ++ [mkSyncError (Database.id log) (message_or_unknown e)
                                  (isRetryableError e)])%list)
              w1).
Proof.
  destruct (upload_each_summary unsyncedLogs supabaseUserId result w)
    as (r' & w' & new & Hrun & _ & _ & _ & Hq & _ & Hsum & Hls & Hlf & Herr
        & Hlen & Hsub & Hall).
  exists r', w', new. repeat (split; [assumption|]).
  intros log rest e w1 -> Hup.
  cbn [upload_each]. unfold bind at 1.
  pose proof (upload_one_cases log supabaseUserId result w) as Hc.
  cbv zeta in Hc. rewrite Hup in Hc. cbn [fst] in Hc. rewrite Hc.
  pose proof (uploadHealthLog_world log supabaseUserId w) as Hw.
  rewrite Hup in Hw. cbn [snd] in Hw. rewrite Hw. reflexivity.
Qed.

(** C9: when the upload of a record returned a cloud id and the local
    [markHealthLogAsSynced] then throws, the turn of the loop counts the
    record as failed: [failedCount] is incremented, an entry with the message
    of the local error is appended, [syncedCount] is unchanged. The backend
    had answered the insert with that id, the table of the store is as it was
    before the turn, and a record that was unsynced is still returned by the
    query for unsynced records, so a later sync uploads it again. *)
Theorem failed_mark_after_upload_counts_as_failure
  (log : Database.HealthLogRecord) (supabaseUserId : string)
  (result : SyncResult) (w w1 : World) (cloudId : string) (e : thrown)
  (d2 : Database.DatabaseService) :
  uploadHealthLog log supabaseUserId w = (Returns cloudId, w1) ->
  Database.markHealthLogAsSynced (Database.id log) cloudId (database w1)
    = (Throws e, d2) ->
  upload_one log supabaseUserId result w
  = (Returns (mkSyncResult (success result) (syncedCount result)
                (failedCount result + 1)
                (errors result
                 ++ [mkSyncError (Database.id log) (message_or_unknown e)
                                 (isRetryableError e)])%list),
     set_database d2 w1)
  /\ Supabase.answer (supabase w)
       (List.length (Supabase.requests (supabase w)))
     = Supabase.Resolves (Some cloudId) None
  /\ Supabase.requests (supabase w1)
     = (Supabase.requests (supabase w)
        ++ [upload_request w supabaseUserId log])%list
  /\ Database.rows d2 = Database.rows (database w)
  /\ (In log (Database.rows (database w)) ->
      Database.synced_at log = None ->
      In log (Database.select_unsynced (Database.user_id log)
                (Database.rows d2))).
Proof.
  intros Hup Hmark.
  pose proof (uploadHealthLog_world log supabaseUserId w) as Hw.
  rewrite Hup in Hw. cbn [snd] in Hw. subst w1.
  pose proof (upload_one_cases log supabaseUserId result w) as Hc.
  cbv zeta in Hc. rewrite Hup in Hc. cbn [fst] in Hc. rewrite Hmark in Hc.
  pose proof (markHealthLogAsSynced_throws_rows _ _ _ _ _ Hmark) as Hrows.
  cbn [database after_request set_supabase] in Hrows.
  repeat split.
  - exact Hc.
  - eapply uploadHealthLog_returns. exact Hup.
  - exact Hrows.
  - intros Hin Hnull. apply select_unsynced_In. rewrite Hrows. auto.
Qed.

(** *** Retry with backoff *)

Lemma seq_shift_map {A} (f : nat -> A) k :
  map f (seq 1 k) = map (fun i => f (S i)) (seq 0 k).
Proof. rewrite <- seq_shift, map_map. reflexivity. Qed.

Lemma retry_loop_follows_schedule uid m : forall fuel attempt last w,
  1 <= attempt ->
  Z.of_nat (S fuel) = m - attempt + 1 ->
  exists n,
    backoff_run uid m attempt w (S n)
                (retry_loop (S fuel) uid m attempt last w)
    /\ (n <= fuel)%nat
    /\ timers (snd (retry_loop (S fuel) uid m attempt last w))
       = (timers w
          ++ map (fun i => 2 ^ (attempt - 1 + Z.of_nat i) * 1000) (seq 0 n))%list.
Proof.
  induction fuel as [|fuel IH]; intros attempt last w Ha Hfuel.
  - assert (attempt = m) by lia. subst attempt.
    cbn [retry_loop]. rewrite Z.leb_refl, Z.ltb_irrefl.
    destruct (syncHealthLogs uid w) as [[r|e] w'] eqn:Hsync;
      destruct (syncHealthLogs_frame _ _ _ _ Hsync) as (Ht & _ & _ & He).
    + exists 0%nat. cbn. rewrite app_nil_r.
      split; [apply backoff_success; [lia | exact Hsync] | split; [lia | exact Ht]].
    + exists 0%nat. cbn. rewrite app_nil_r.
      assert (Hase : as_Error e = e) by (rewrite He; reflexivity).
      rewrite Hase.
      split; [apply backoff_give_up; exact Hsync | split; [lia | exact Ht]].
  - assert (Hlt : attempt < m) by lia.
    remember (S fuel) as fuel1 eqn:Hf1.
    cbn [retry_loop].
    assert (Hle : (attempt <=? m) = true) by (apply Z.leb_le; lia).
    assert (Hltb : (attempt <? m) = true) by (apply Z.ltb_lt; lia).
    rewrite Hle, Hltb.
    destruct (syncHealthLogs uid w) as [[r|e] w'] eqn:Hsync;
      destruct (syncHealthLogs_frame _ _ _ _ Hsync) as (Ht & _ & _ & He).
    + exists 0%nat. cbn. rewrite app_nil_r.
      split; [apply backoff_success; [lia | exact Hsync] | split; [lia | exact Ht]].
    + subst fuel1.
      destruct (IH (attempt + 1) (Some (as_Error e))
                  (setTimeout (2 ^ (attempt - 1) * 1000) w'))
        as (n & Hrun & Hn & Htimers); [lia | lia |].
      exists (S n). split; [|split; [lia|]].
      * eapply backoff_again; eauto.
      * rewrite Htimers. cbn [setTimeout timers]. rewrite Ht.
        rewrite <- app_assoc. f_equal.
        cbn [seq map app]. rewrite Z.add_0_r. f_equal.
        rewrite seq_shift_map. apply map_ext. intros i.
        do 2 f_equal. lia.
Qed.

(** C7: [retrySyncWithBackoff] follows the backoff schedule from attempt 1:
    it calls [syncHealthLogs] [n] times with [n <= max 0 maxRetries], returns
    the result of the first call that returns (an attempt succeeds when it
    does not throw, whatever the [success] field of its result), sleeps
    [2^(attempt-1)] seconds after an attempt that threw and is not the last
    one (so the delays are the first [n - 1] of 1s, 2s, 4s, ...), and after
    attempt [maxRetries] has thrown it throws that very error. With
    [maxRetries < 1] it makes no call and throws [Max retries exceeded]. *)
Theorem retry_follows_backoff_schedule (userId maxRetries : Z) (w : World) :
  exists n,
    backoff_run userId maxRetries 1 w n
                (retrySyncWithBackoff userId maxRetries w)
    /\ Z.of_nat n <= Z.max 0 maxRetries
    /\ timers (snd (retrySyncWithBackoff userId maxRetries w))
       = (timers w ++ backoff_delays (n - 1))%list.
Proof.
  unfold retrySyncWithBackoff.
  destruct (Z.to_nat maxRetries) as [|fuel] eqn:Hfuel.
  - exists 0%nat. cbn. rewrite app_nil_r.
    split; [apply backoff_no_attempt; lia | split; [lia | reflexivity]].
  - destruct (retry_loop_follows_schedule userId maxRetries fuel 1 None w)
      as (n & Hrun & Hn & Htimers); [lia | lia |].
    exists (S n). split; [exact Hrun | split; [lia|]].
    rewrite Htimers. f_equal. unfold backoff_delays.
    replace (S n - 1)%nat with n by lia.
    apply map_ext. intros i. do 2 f_equal.
Qed.

End SyncFacts.

(** ** The sync engine, call by call *)

Section AsyncFacts.
Import Sync Async.

Lemma finish_continue {A B} (t : Task A) (k : completion A -> Proc B) :
  forall w,
    finish (snd (continue t k w)) (fst (continue t k w))
    = let (out, w') := finish t w in run (k out) w'.
Proof.
  induction t as [out | world after IH]; intros w; cbn.
  - unfold run. destruct (k out w); reflexivity.
  - apply IH.
Qed.

Lemma run_bind {A B} (m : Proc A) (k : A -> Proc B) w :
  run (Async.bind m k) w
  = match run m w with
    | (Returns a, w') => run (k a) w'
    | (Throws e, w') => (Throws e, w')
    end.
Proof.
  unfold run at 1, Async.bind.
  destruct (m w) as [w1 t] eqn:Hm.
  pose proof (finish_continue t
                (fun out => match out with
                            | Returns a => k a
                            | Throws e => Async.throw e
                            end) w1) as H.
  destruct (continue t _ w1) as [w2 t2]; cbn [fst snd] in H. rewrite H.
  unfold run at 2. rewrite Hm.
  destruct (finish t w1) as [[a|e] w']; reflexivity.
Qed.

Lemma run_try_catch {A} (m : Proc A) (h : thrown -> Proc A) w :
  run (Async.try_catch m h) w
  = match run m w with
    | (Returns a, w') => (Returns a, w')
    | (Throws e, w') => run (h e) w'
    end.
Proof.
  unfold run at 1, Async.try_catch.
  destruct (m w) as [w1 t] eqn:Hm.
  pose proof (finish_continue t
                (fun out => match out with
                            | Returns a => Async.ret a
                            | Throws e => h e
                            end) w1) as H.
  destruct (continue t _ w1) as [w2 t2]; cbn [fst snd] in H. rewrite H.
  unfold run at 2. rewrite Hm.
  destruct (finish t w1) as [[a|e] w']; reflexivity.
Qed.

Lemma run_try_finally {A} (m : Proc A) (cleanup : World -> World) w :
  run (Async.try_finally m cleanup) w
  = let (out, w') := run m w in (out, cleanup w').
Proof.
  unfold run at 1, Async.try_finally.
  destruct (m w) as [w1 t] eqn:Hm.
  pose proof (finish_continue t (fun out w' => (cleanup w', Done out)) w1) as H.
  destruct (continue t _ w1) as [w2 t2]; cbn [fst snd] in H. rewrite H.
  unfold run at 2. rewrite Hm.
  destruct (finish t w1) as [out w']; reflexivity.
Qed.

Lemma run_await {A} (m : Eff World A) w : run (await m) w = m w.
Proof. unfold run, await. cbn. destruct (m w); reflexivity. Qed.

Lemma run_checkConnectivity w :
  run Async.checkConnectivity w = Sync.checkConnectivity w.
Proof.
  unfold Async.checkConnectivity, Sync.checkConnectivity.
  rewrite run_try_catch, run_bind, run_await.
  unfold Js.try_catch, Js.bind.
  destruct (supabase_send Supabase.SelectOne w) as [[[data err]|e] w'];
    reflexivity.
Qed.

Lemma run_getSupabaseUser w :
  run Async.getSupabaseUser w = Sync.getSupabaseUser w.
Proof.
  unfold Async.getSupabaseUser, Sync.getSupabaseUser.
  rewrite run_try_catch, run_bind, run_await.
  unfold Js.try_catch, Js.bind.
  destruct (supabase_send Supabase.GetUser w) as [[[data [err|]]|e] w'];
    reflexivity.
Qed.

Lemma run_uploadHealthLog log u w :
  run (Async.uploadHealthLog log u) w = Sync.uploadHealthLog log u w.
Proof.
  unfold Async.uploadHealthLog, Sync.uploadHealthLog.
  rewrite run_try_catch, run_bind.
  unfold Js.try_catch, Js.bind at 1.
  cbn [run Async.gets Js.gets finish].
  rewrite run_bind, run_await. unfold Js.bind.
  destruct (supabase_send _ w) as [[[data [err|]]|e] w']; try reflexivity.
  destruct data as [[|c s]|]; reflexivity.
Qed.

Lemma run_upload_one log u r w :
  run (Async.upload_one log u r) w = Sync.upload_one log u r w.
Proof.
  unfold Async.upload_one, Sync.upload_one.
  rewrite run_try_catch, run_bind, run_uploadHealthLog.
  unfold Js.try_catch, Js.bind at 1.
  destruct (Sync.uploadHealthLog log u w) as [[cid|e] w']; [|reflexivity].
  rewrite run_bind, run_await. unfold Js.bind.
  destruct (databaseService _ w') as [[[]|e] w'']; reflexivity.
Qed.

Lemma run_upload_each logs : forall u r w,
  run (Async.upload_each logs u r) w = Sync.upload_each logs u r w.
Proof.
  induction logs as [|log rest IH]; intros u r w; [reflexivity|].
  cbn [Async.upload_each Sync.upload_each].
  rewrite run_bind, run_upload_one. unfold Js.bind.
  destruct (Sync.upload_one log u r w) as [[r'|e] w']; [apply IH | reflexivity].
Qed.

Lemma run_sync_body uid w :
  run (Async.sync_body uid) w = Sync.sync_body uid w.
Proof.
  unfold Async.sync_body, Sync.sync_body.
  rewrite run_bind, run_checkConnectivity. unfold Js.bind at 1.
  destruct (Sync.checkConnectivity w) as [[[|]|e] w1]; try reflexivity.
  cbn [negb]. rewrite run_bind, run_getSupabaseUser. unfold Js.bind at 1.
  destruct (Sync.getSupabaseUser w1) as [[[u|]|e] w2]; try reflexivity.
  rewrite run_bind, run_await. unfold Js.bind at 1.
  destruct (databaseService _ w2) as [[[|log rest]|e] w3]; try reflexivity.
  rewrite run_bind, run_upload_each. unfold Js.bind.
  destruct (Sync.upload_each _ _ _ w3) as [[r|e] w4]; reflexivity.
Qed.

(** Run alone, the task of a sync call is the call of the engine. *)
Lemma run_syncHealthLogs uid w :
  run (Async.syncHealthLogs uid) w = Sync.syncHealthLogs uid w.
Proof.
  unfold Async.syncHealthLogs, Sync.syncHealthLogs.
  rewrite run_bind. unfold Js.bind at 1.
  cbn [run Async.gets Js.gets finish].
  destruct (isSyncing (engine w)); [reflexivity|].
  rewrite run_bind. unfold Js.bind at 1.
  cbn [run Async.gets Js.gets finish].
  destruct (not_initialized (engine w)); [reflexivity|].
  rewrite run_bind. unfold Js.bind at 1.
  cbn [run Async.modify Js.modify finish].
  rewrite run_try_finally. unfold Js.try_finally.
  rewrite run_try_catch, run_sync_body. unfold Js.try_catch.
  destruct (Sync.sync_body uid (set_isSyncing true w)) as [[r|e] w']; reflexivity.
Qed.

(** *** The flag while a call is in flight *)

Lemma held_flag {A} b (t : Task A) w : held b t w -> isSyncing (engine w) = b.
Proof. destruct t; cbn; tauto. Qed.

Lemma held_continue {A B} b (t : Task A) (k : completion A -> Proc B) :
  (forall out, keeps b (k out)) ->
  forall w, held b t w ->
            held b (snd (continue t k w)) (fst (continue t k w)).
Proof.
  intros Hk. induction t as [out | world after IH]; intros w Hheld.
  - cbn [continue]. apply Hk. eapply held_flag; exact Hheld.
  - cbn [continue fst snd]. destruct Hheld as [Hw Hnext].
    cbn [held]. split; [exact Hw|].
    intros w' Hw'. apply IH. apply Hnext. exact Hw'.
Qed.

Lemma keeps_ret {A} b (a : A) : keeps b (Async.ret a).
Proof. intros w Hw. cbn. auto. Qed.

Lemma keeps_throw {A} b e : keeps b (@Async.throw A e).
Proof. intros w Hw. cbn. auto. Qed.

Lemma keeps_gets {A} b (f : World -> A) : keeps b (Async.gets f).
Proof. intros w Hw. cbn. auto. Qed.

Lemma keeps_bind {A B} b (m : Proc A) (k : A -> Proc B) :
  keeps b m -> (forall a, keeps b (k a)) -> keeps b (Async.bind m k).
Proof.
  intros Hm Hk w Hw. unfold Async.bind.
  specialize (Hm w Hw). destruct (m w) as [w1 t]. cbn [fst snd] in Hm.
  apply held_continue; [|exact Hm].
  intros [a|e]; [apply Hk | apply keeps_throw].
Qed.

Lemma keeps_try_catch {A} b (m : Proc A) (h : thrown -> Proc A) :
  keeps b m -> (forall e, keeps b (h e)) -> keeps b (Async.try_catch m h).
Proof.
  intros Hm Hh w Hw. unfold Async.try_catch.
  specialize (Hm w Hw). destruct (m w) as [w1 t]. cbn [fst snd] in Hm.
  apply held_continue; [|exact Hm].
  intros [a|e]; [apply keeps_ret | apply Hh].
Qed.

(** An awaited call that leaves the fields of the engine alone. *)
Lemma keeps_await {A} b (m : Eff World A) :
  (forall w, engine (snd (m w)) = engine w) -> keeps b (await m).
Proof.
  intros Hm w Hw. cbn. split; [exact Hw|].
  intros w' Hw'. rewrite Hm. auto.
Qed.

Lemma supabase_send_engine r w : engine (snd (supabase_send r w)) = engine w.
Proof. rewrite supabase_send_world. reflexivity. Qed.

Lemma databaseService_engine {A} (m : Eff Database.DatabaseService A) w :
  engine (snd (databaseService m w)) = engine w.
Proof. rewrite databaseService_world. reflexivity. Qed.

Lemma keeps_checkConnectivity b : keeps b Async.checkConnectivity.
Proof.
  apply keeps_try_catch; [|intros; apply keeps_ret].
  apply keeps_bind; [apply keeps_await, supabase_send_engine|].
  intros [data err]. apply keeps_ret.
Qed.

Lemma keeps_getSupabaseUser b : keeps b Async.getSupabaseUser.
Proof.
  apply keeps_try_catch; [|intros; apply keeps_ret].
  apply keeps_bind; [apply keeps_await, supabase_send_engine|].
  intros [data [err|]]; [apply keeps_throw | apply keeps_ret].
Qed.

Lemma keeps_uploadHealthLog b log u : keeps b (Async.uploadHealthLog log u).
Proof.
  apply keeps_try_catch; [|intros; apply keeps_throw].
  apply keeps_bind; [apply keeps_gets|]. intros device.
  apply keeps_bind; [apply keeps_await, supabase_send_engine|].
  intros [data [err|]]; [apply keeps_throw|].
  destruct data as [[|c s]|]; first [apply keeps_throw | apply keeps_ret].
Qed.

Lemma keeps_upload_one b log u r : keeps b (Async.upload_one log u r).
Proof.
  apply keeps_try_catch; [|intros; apply keeps_ret].
  apply keeps_bind; [apply keeps_uploadHealthLog|]. intros cloudId.
  apply keeps_bind; [apply keeps_await, databaseService_engine|].
  intros _. apply keeps_ret.
Qed.

Lemma keeps_upload_each b logs : forall u r,
  keeps b (Async.upload_each logs u r).
Proof.
  induction logs as [|log rest IH]; intros u r; cbn [Async.upload_each].
  - apply keeps_ret.
  - apply keeps_bind; [apply keeps_upload_one | intros r'; apply IH].
Qed.

Lemma keeps_sync_body b uid : keeps b (Async.sync_body uid).
Proof.
  apply keeps_bind; [apply keeps_checkConnectivity|].
  intros [|]; cbn [negb]; [|apply keeps_throw].
  apply keeps_bind; [apply keeps_getSupabaseUser|].
  intros [u|]; [|apply keeps_throw].
  apply keeps_bind; [apply keeps_await, databaseService_engine|].
  intros [|log rest]; [apply keeps_ret|].
  apply keeps_bind; [apply keeps_upload_each | intros r; apply keeps_ret].
Qed.

(** A task that holds the flag set, followed by the [finally] that clears
    it, is in flight until it completes. *)
Lemma in_flight_finally {A} (t : Task A) :
  forall w, held true t w ->
    in_flight (snd (continue t (fun out w' => (set_isSyncing false w', Done out)) w))
              (fst (continue t (fun out w' => (set_isSyncing false w', Done out)) w)).
Proof.
  induction t as [out | world after IH]; intros w Hheld.
  - reflexivity.
  - destruct Hheld as [Hw Hnext]. cbn [continue fst snd in_flight].
    split; [exact Hw|]. intros w' Hw'. apply IH. apply Hnext. exact Hw'.
Qed.

Lemma syncHealthLogs_task uid w :
  Async.syncHealthLogs uid w
  = if isSyncing (engine w)
    then (w, Done (Throws (ErrorObj "Sync already in progress")))
    else if not_initialized (engine w)
    then (w, Done (Throws (ErrorObj "Sync service not initialized")))
    else
      Async.try_finally
        (Async.try_catch (Async.sync_body uid)
           (fun error =>
              Async.throw
                (ErrorObj ("Sync failed: " ++ message_or_unknown error))))
        (set_isSyncing false)
        (set_isSyncing true w).
Proof.
  unfold Async.syncHealthLogs, Async.bind at 1.
  cbn [Async.gets continue].
  destruct (isSyncing (engine w)); [reflexivity|].
  unfold Async.bind at 1. cbn [Async.gets continue].
  destruct (not_initialized (engine w)); reflexivity.
Qed.

(** C3: a call made while [isSyncing] is set throws [Sync already in
    progress] at once, before any await, and leaves the world as it was. Any
    other call ends, returning or throwing, with [isSyncing] cleared; it
    throws only [Sync service not initialized] or an error wrapped as [Sync
    failed: ...]; and as a task it is in flight: the flag is set at each of
    its suspensions, whatever ran in between without touching the flag, so a
    second call made at any of these moments is the rejected one. Run alone,
    the task is the call. *)
Theorem sync_guard_and_release (userId : Z) (w : World) :
  (if isSyncing (engine w)
   then Sync.syncHealthLogs userId w
        = (Throws (ErrorObj "Sync already in progress"), w)
        /\ Async.syncHealthLogs userId w
           = (w, Done (Throws (ErrorObj "Sync already in progress")))
   else isSyncing (engine (snd (Sync.syncHealthLogs userId w))) = false
        /\ match fst (Sync.syncHealthLogs userId w) with
           | Returns _ => True
           | Throws e =>
               e = ErrorObj "Sync service not initialized"
               \/ exists m, e = ErrorObj ("Sync failed: " ++ m)
           end
        /\ in_flight (snd (Async.syncHealthLogs userId w))
                     (fst (Async.syncHealthLogs userId w)))
  /\ run (Async.syncHealthLogs userId) w = Sync.syncHealthLogs userId w.
Proof.
  split; [|apply run_syncHealthLogs].
  destruct (isSyncing (engine w)) eqn:Hs.
  - split.
    + unfold Sync.syncHealthLogs, Js.bind, Js.gets, Js.throw. rewrite Hs.
      reflexivity.
    + rewrite syncHealthLogs_task, Hs. reflexivity.
  - split; [|split].
    + destruct (Sync.syncHealthLogs userId w) as [out w'] eqn:H.
      apply (syncHealthLogs_frame _ _ _ _ H). exact Hs.
    + destruct (not_initialized (engine w)) eqn:Hi.
      { unfold Sync.syncHealthLogs, Js.bind, Js.gets, Js.throw.
        rewrite Hs, Hi. cbn. left. reflexivity. }
      rewrite (syncHealthLogs_past_guards userId w Hs Hi).
      destruct (Sync.sync_body userId (set_isSyncing true w)) as [[r|e] w1];
        cbn; [exact I | right; eexists; reflexivity].
    + rewrite syncHealthLogs_task, Hs.
      destruct (not_initialized (engine w)); [exact Hs|].
      unfold Async.try_finally.
      pose proof (keeps_try_catch true (Async.sync_body userId)
                    (fun error => Async.throw
                       (ErrorObj ("Sync failed: " ++ message_or_unknown error)))
                    (keeps_sync_body true userId)
                    (fun e => keeps_throw true _)
                    (set_isSyncing true w) eq_refl) as Hheld.
      destruct (Async.try_catch _ _ (set_isSyncing true w)) as [w1 t].
      cbn [fst snd] in Hheld. apply in_flight_finally. exact Hheld.
Qed.

End AsyncFacts.

(** ** The record store *)

Section StoreFacts.
Import Database Claimed.

(** The table after a statement: untouched when the driver rejects it. *)
Lemma statement_rows {A} (effect : Z -> SQLiteDatabase -> A * SQLiteDatabase) s :
  health_logs (snd (statement effect s))
  = match driver_fault s (statements s) with
    | Some _ => health_logs s
    | None =>
        health_logs (snd (effect (current_timestamp s (statements s)) s))
    end.
Proof.
  unfold statement.
  destruct (driver_fault s (statements s)); [reflexivity|].
  destruct (effect _ s); reflexivity.
Qed.

Lemma guarded_statement_rows {A} prefix
  (effect : Z -> SQLiteDatabase -> A * SQLiteDatabase) d :
  rows (snd (guarded prefix (statement effect) d))
  = match db d with
    | None => []
    | Some s =>
        match driver_fault s (statements s) with
        | Some _ => health_logs s
        | None =>
            health_logs (snd (effect (current_timestamp s (statements s)) s))
        end
    end.
Proof.
  unfold guarded, rows.
  destruct (db d) as [s|] eqn:Hdb; cbn; [|rewrite Hdb; reflexivity].
  rewrite <- statement_rows.
  destruct (statement effect s) as [[a|e] s']; reflexivity.
Qed.

Lemma Forall_update_where_id (P : HealthLogRecord -> Prop) id0 f l :
  (forall r, P r -> P (f r)) ->
  Forall P l -> Forall P (update_where_id id0 f l).
Proof.
  intros Hf Hl. unfold update_where_id. apply Forall_map.
  eapply Forall_impl; [|exact Hl].
  intros r Hr. destruct (id r =? id0); auto.
Qed.

Lemma Forall_filter {A} (P : A -> Prop) f (l : list A) :
  Forall P l -> Forall P (filter f l).
Proof.
  induction 1 as [|x l Hx Hl IH]; cbn; [constructor|].
  destruct (f x); auto.
Qed.

Lemma clearAllData_rows d :
  rows (snd (clearAllData d)) = [] \/ rows (snd (clearAllData d)) = rows d.
Proof.
  unfold clearAllData, guarded, rows.
  destruct (db d) as [s|] eqn:Hdb; cbn; [|rewrite Hdb; auto].
  unfold bind, statement.
  destruct (driver_fault s (statements s)); cbn; [auto|].
  destruct (driver_fault _ _); cbn; [auto|].
  destruct (driver_fault _ _); cbn; auto.
Qed.

(** A method that is one statement: nothing to show when the store is not
    open or the driver rejects the statement; otherwise the table after the
    statement is what remains to be examined. *)
Ltac one_statement H :=
  rewrite guarded_statement_rows; unfold rows in H;
  destruct (db _) as [s|]; [|constructor];
  destruct (driver_fault s _); [exact H|]; cbn.

Lemma after_keeps_paired c d : all_paired d -> all_paired (after c d).
Proof.
  unfold all_paired. intros H.
  destruct c as [u p | u | i | i p | i | i c | u | | ]; cbn [after].
  - unfold createHealthLog. one_statement H.
    apply Forall_app. split; [exact H|]. repeat constructor.
  - unfold getHealthLogsByUserId. one_statement H. exact H.
  - unfold getHealthLogById. one_statement H. exact H.
  - unfold updateHealthLog. one_statement H.
    apply Forall_update_where_id; [|exact H]. intros r Hr. exact Hr.
  - unfold deleteHealthLog. one_statement H.
    apply Forall_filter. exact H.
  - unfold markHealthLogAsSynced. one_statement H.
    apply Forall_update_where_id; [|exact H]. intros r _. reflexivity.
  - unfold getUnsyncedHealthLogs. one_statement H. exact H.
  - destruct (clearAllData_rows d) as [-> | ->]; [constructor | exact H].
  - constructor.
Qed.

Lemma after_all_keeps_paired calls : forall d,
  all_paired d -> all_paired (after_all calls d).
Proof.
  induction calls as [|c calls IH]; intros d H; cbn; [exact H|].
  apply IH. apply after_keeps_paired. exact H.
Qed.

(** C5: in every store reached from an empty table by calls of the public
    methods, each row has [synced_at] and [cloud_id] both null or both set.
    From such a store, [createHealthLog] appends a row with both null,
    [markHealthLogAsSynced] leaves the rows of that id with both set, and
    [updateHealthLog] leaves both fields of every row as they were. *)
Theorem sync_fields_stay_paired
  (d0 : DatabaseService) (calls : list StoreCall) :
  rows d0 = [] ->
  let d := after_all calls d0 in
  all_paired d
  /\ (forall userId payload rowid d',
        createHealthLog userId payload d = (Returns rowid, d') ->
        exists row,
          rows d' = (rows d ++ [row])%list
          /\ id row = rowid /\ encrypted_data row = payload
          /\ synced_at row = None /\ cloud_id row = None)
  /\ (forall id0 cloudId d',
        markHealthLogAsSynced id0 cloudId d = (Returns tt, d') ->
        forall r, In r (rows d') -> id r = id0 ->
          synced_at r <> None /\ cloud_id r = Some cloudId)
  /\ (forall id0 payload,
        sync_fields (snd (updateHealthLog id0 payload d)) = sync_fields d).
Proof.
  intros Hempty d.
  split; [|split; [|split]].
  - apply after_all_keeps_paired. unfold all_paired. rewrite Hempty. constructor.
  - intros userId payload rowid d'.
    unfold createHealthLog, guarded, statement, rows.
    destruct (db d) as [s|]; [|intros H; inversion H].
    destruct (driver_fault s (statements s)); cbn; intros H; inversion H; subst.
    cbn. eexists. split; [reflexivity|]. cbn. auto.
  - intros id0 cloudId d'.
    unfold markHealthLogAsSynced, guarded, statement, rows.
    destruct (db d) as [s|]; [|intros H; inversion H].
    destruct (driver_fault s (statements s)); cbn; intros H; inversion H; subst.
    cbn. intros r Hin Hid. unfold update_where_id in Hin.
    apply in_map_iff in Hin. destruct Hin as [r0 [Hr0 _]].
    destruct (id r0 =? id0) eqn:Hr0id.
    + subst r. cbn. split; [discriminate | reflexivity].
    + subst r. apply Z.eqb_neq in Hr0id. contradiction.
  - intros id0 payload. unfold sync_fields.
    unfold updateHealthLog. rewrite guarded_statement_rows. unfold rows.
    destruct (db d) as [s|]; [|reflexivity].
    destruct (driver_fault s (statements s)); [reflexivity|]. cbn.
    unfold update_where_id. rewrite map_map. apply map_ext.
    intros r. destruct (id r =? id0); reflexivity.
Qed.

End StoreFacts.

(** ** The cipher round trip *)

Section CipherFacts.
Context (cipher : Cipher).

Lemma falsy_nonempty (s : string) : s <> "" -> falsy s = false.
Proof. destruct s; [congruence | reflexivity]. Qed.

Lemma crypto_js_rejects_malformed_text (data key salt : string) :
  valid_utf8 data = false \/ valid_utf8 key = false ->
  @AES_encrypt (crypto_js cipher) data key salt
  = Throws (ErrorObj "URI malformed").
Proof.
  intros H. cbn [AES_encrypt crypto_js]. unfold Utf8.parse.
  destruct (valid_utf8 key); [|reflexivity].
  destruct H as [-> | H]; [reflexivity | discriminate].
Qed.


End CipherFacts.

Lemma strip_prefix_app (p s : string) :
  Fixture.strip_prefix p (p ++ s) = Some s.
Proof.
  induction p as [|c p IH]; cbn; [reflexivity|].
  rewrite Ascii.eqb_refl. exact IH.
Qed.

Lemma drop_first_bytes (n : nat) (salt rest : string) :
  Fixture.drop_bytes n (Fixture.first_bytes n salt ++ rest) = Some rest.
Proof.
  revert salt. induction n as [|n IH]; intros salt; cbn; [reflexivity|].
  destruct salt; cbn; apply IH.
Qed.

Lemma strip_prefix_passphrase (passphrase message : string) :
  Fixture.strip_prefix ("." ++ passphrase ++ ".")
    ("." ++ passphrase ++ "." ++ message)
  = Some message.
Proof.
  cbn. induction passphrase as [|c r IH]; cbn; [reflexivity|].
  rewrite Ascii.eqb_refl. exact IH.
Qed.

(** The stand-in is a cipher, for every message, passphrase and salt. *)
Lemma stand_in_cipher_inverts_itself : inverts_itself Fixture.cipher.
Proof.
  intros message passphrase salt.
  cbn [encrypt_bytes decrypt_bytes Fixture.cipher].
  split; [discriminate|].
  unfold Fixture.unseal_bytes, Fixture.seal_bytes.
  rewrite strip_prefix_app, drop_first_bytes, strip_prefix_passphrase.
  reflexivity.
Qed.

Section RecordServiceFacts.
Context {crypto : CryptoJS} {json : JSON} {dates : Dates}.

Lemma decrypt_failure_cause (encryptedData key : string) :
  Encryption.success (Encryption.decrypt encryptedData key) = false ->
  or_else (Encryption.error (Encryption.decrypt encryptedData key))
          "Decryption failed"
  <> "Health log not found".
Proof.
  unfold Encryption.decrypt.
  destruct (falsy encryptedData || falsy key)%bool; cbn; [discriminate|].
  destruct (AES_decrypt_Utf8 encryptedData key) as [plain|e]; cbn.
  - destruct (falsy plain); cbn; discriminate.
  - discriminate.
Qed.

Lemma getHealthLogById_found id0 d s row :
  Database.db d = Some s ->
  Database.driver_fault s (Database.statements s) = None ->
  find (fun r => Database.id r =? id0) (Database.health_logs s) = Some row ->
  Database.getHealthLogById id0 d
  = (Returns (Some row),
     Database.mkDatabaseService (Some (Database.next_statement s))).
Proof.
  intros Hdb Hfault Hfind.
  unfold Database.getHealthLogById, Database.guarded, Database.statement.
  rewrite Hdb, Hfault, Hfind. reflexivity.
Qed.

(** C10: [deleteHealthLog] on a row that exists and whose payload
    [EncryptionService.decrypt] cannot decrypt under the key of the service
    throws [Failed to delete health log: Failed to retrieve health log:
    <cause>], where the cause is the error of the decryption and is not
    [Health log not found]; the table still holds every row. *)
Theorem delete_of_undecryptable_record_fails
  (encryptionKey : string) (healthLogId : Z) (d : Database.DatabaseService)
  (s : Database.SQLiteDatabase) (row : Database.HealthLogRecord) :
  Database.db d = Some s ->
  Database.driver_fault s (Database.statements s) = None ->
  find (fun r => Database.id r =? healthLogId) (Database.health_logs s)
    = Some row ->
  Encryption.success
    (Encryption.decrypt (Database.encrypted_data row) encryptionKey) = false ->
  exists cause d',
    HealthLogs.deleteHealthLog encryptionKey healthLogId d
    = (Throws (ErrorObj ("Failed to delete health log: "
                         ++ "Failed to retrieve health log: " ++ cause)), d')
    /\ cause
       = or_else (Encryption.error
                    (Encryption.decrypt (Database.encrypted_data row)
                                        encryptionKey))
                 "Decryption failed"
    /\ cause <> "Health log not found"
    /\ Database.rows d' = Database.rows d.
Proof.
  intros Hdb Hfault Hfind Hfail.
  do 2 eexists.
  unfold HealthLogs.deleteHealthLog, HealthLogs.getHealthLog, try_catch, bind.
  rewrite (getHealthLogById_found _ _ _ _ Hdb Hfault Hfind).
  rewrite Hfail. cbn [negb throw message_or_unknown].
  split; [reflexivity|]. split; [reflexivity|].
  split; [apply decrypt_failure_cause; exact Hfail|].
  unfold Database.rows. rewrite Hdb. reflexivity.
Qed.

Lemma prop_set_prop_same key v o : prop (set_prop key v o) key = v.
Proof.
  induction o as [|[k v0] o IH]; cbn.
  - rewrite String.eqb_refl. reflexivity.
  - destruct (String.eqb k key) eqn:Hk; cbn; rewrite Hk; [reflexivity | exact IH].
Qed.

Lemma prop_set_prop_other key key' v o :
  key <> key' -> prop (set_prop key' v o) key = prop o key.
Proof.
  intros Hne. induction o as [|[k v0] o IH]; cbn.
  - destruct (String.eqb key' key) eqn:Hk; [|reflexivity].
    apply String.eqb_eq in Hk. congruence.
  - destruct (String.eqb k key') eqn:Hk; cbn.
    + apply String.eqb_eq in Hk. subst k.
      destruct (String.eqb key' key) eqn:Hk'; [|reflexivity].
      apply String.eqb_eq in Hk'. congruence.
    + destruct (String.eqb k key); [reflexivity | exact IH].
Qed.

Lemma sanitize_keeps_id updatedLog sanitizedLog :
  HealthLogs.sanitize updatedLog = Returns sanitizedLog ->
  prop sanitizedLog "id" = prop updatedLog "id".
Proof.
  unfold HealthLogs.sanitize.
  destruct (call_trim (prop updatedLog "title")); [|discriminate].
  destruct (call_trim (prop updatedLog "description")); [|discriminate].
  destruct (call_trim_each (prop updatedLog "tags")); [|discriminate].
  destruct (optional call_trim (prop updatedLog "notes")); [|discriminate].
  destruct (optional call_trim_each (prop updatedLog "attachments"));
    [|discriminate].
  intros H. inversion H; subst.
  rewrite !prop_set_prop_other by discriminate. reflexivity.
Qed.

Lemma encrypt_success salt data key :
  Encryption.encryption_success (Encryption.encrypt salt data key) = true ->
  AES_encrypt data key salt
  = Returns (Encryption.encryptedData (Encryption.encrypt salt data key)).
Proof.
  unfold Encryption.encrypt.
  destruct (falsy data || falsy key)%bool; [discriminate|].
  destruct (AES_encrypt data key salt); [reflexivity | discriminate].
Qed.

Lemma id_missing_iff data :
  HealthLogs.id_missing data = false
  <-> exists s, prop data "id" = Str s /\ trim s <> "".
Proof.
  unfold HealthLogs.id_missing. split.
  - destruct (prop data "id"); try discriminate.
    intros H. apply orb_false_iff in H. destruct H as [_ H].
    exists s. split; [reflexivity|]. destruct (trim s); [discriminate|discriminate].
  - intros [s [-> Hs]].
    destruct s as [|c s]; [exfalso; apply Hs; reflexivity|].
    cbn [falsy orb]. destruct (trim (String c s)); [congruence | reflexivity].
Qed.

(** C6, as the code has it: [updateHealthLog] accepts a patch exactly when
    its [id] is a string that is not empty after trimming; otherwise it throws
    [Validation failed: ID is required for updates and must be a string] and
    leaves the store untouched. The [id] of the patch is not compared with the
    stored one. When the update returns, the record it returns, which is the
    one it serialised, encrypted and wrote to the row, has the [id] of the
    record that was stored. *)
Theorem update_requires_an_id_and_keeps_the_stored_one
  (encryptionKey : string) (now : Z) (salt : string) (healthLogId : Z)
  (data : object) (d : Database.DatabaseService) :
  (HealthLogs.id_missing data = false
   <-> exists s, prop data "id" = Str s /\ trim s <> "")
  /\ (HealthLogs.id_missing data = true ->
      HealthLogs.updateHealthLog encryptionKey now salt healthLogId data d
      = (Throws (ErrorObj
           "Validation failed: ID is required for updates and must be a string"),
         d))
  /\ (forall sanitizedLog d',
        HealthLogs.updateHealthLog encryptionKey now salt healthLogId data d
          = (Returns sanitizedLog, d') ->
        exists existingLog d1 encrypted,
          HealthLogs.getHealthLog encryptionKey healthLogId d
            = (Returns existingLog, d1)
          /\ prop sanitizedLog "id" = member existingLog "id"
          /\ AES_encrypt (stringify sanitizedLog) encryptionKey salt
             = Returns encrypted
          /\ Database.updateHealthLog healthLogId encrypted d1
             = (Returns tt, d')).
Proof.
  split; [apply id_missing_iff|]. split.
  - intros Hmissing. unfold HealthLogs.updateHealthLog. rewrite Hmissing.
    reflexivity.
  - intros sanitizedLog d'. unfold HealthLogs.updateHealthLog.
    destruct (HealthLogs.id_missing data); [discriminate|].
    unfold try_catch, bind at 1.
    destruct (HealthLogs.getHealthLog encryptionKey healthLogId d)
      as [[existingLog|e] d1]; [|discriminate].
    destruct (truthy existingLog); cbn [negb]; [|discriminate].
    unfold bind at 1, pure.
    destruct (HealthLogs.sanitize _) as [o|e] eqn:Hsan; [|discriminate].
    destruct (Validation.isValid _); cbn [negb]; [|discriminate].
    destruct (Encryption.encryption_success _) eqn:Henc; cbn [negb];
      [|discriminate].
    unfold bind.
    destruct (Database.updateHealthLog healthLogId _ d1) as [[[]|e] d2] eqn:Hup;
      [|discriminate].
    intros H. inversion H; subst.
    exists existingLog, d1,
      (Encryption.encryptedData
         (Encryption.encrypt salt (stringify sanitizedLog) encryptionKey)).
    split; [reflexivity|]. split; [|split; [apply encrypt_success; exact Henc|exact Hup]].
    rewrite (sanitize_keeps_id _ _ Hsan). apply prop_set_prop_same.
Qed.

End RecordServiceFacts.

(** ** Runs on concrete inputs *)

(** C1 at two unsynced records, the second of which the backend refuses. *)
Lemma sync_result_when_preconditions_pass_witness :
  exists result w',
    Sync.syncHealthLogs 7
      (Fixture.world (Fixture.store [Fixture.first_row; Fixture.second_row] [])
         [Fixture.online; Fixture.signed_in;
          Supabase.Resolves (Some "cloud-1") None;
          Supabase.Resolves None (Some "HTTP 503 Service Unavailable")]
         false)
    = (Returns result, w')
    /\ Sync.success result
       = ((0 <? Sync.syncedCount result) || (Sync.failedCount result =? 0))%bool
    /\ (Sync.success result = false
        <-> Sync.syncedCount result = 0 /\ 0 < Sync.failedCount result)
    /\ 0 <= Sync.syncedCount result /\ 0 <= Sync.failedCount result
    /\ Sync.syncedCount result + Sync.failedCount result = 2.
Proof.
  exact (sync_result_when_preconditions_pass 7
           (Fixture.world
              (Fixture.store [Fixture.first_row; Fixture.second_row] [])
              [Fixture.online; Fixture.signed_in;
               Supabase.Resolves (Some "cloud-1") None;
               Supabase.Resolves None (Some "HTTP 503 Service Unavailable")]
              false)
           _ _ _ "user-1" [Fixture.first_row; Fixture.second_row]
           eq_refl eq_refl eq_refl eq_refl eq_refl).
Defined.

(** Partial failure: the first upload succeeds, the second fails. *)
Example sync_partial_failure :
  let w := Fixture.world
             (Fixture.store [Fixture.first_row; Fixture.second_row] [])
             [Fixture.online; Fixture.signed_in;
              Supabase.Resolves (Some "cloud-1") None;
              Supabase.Resolves None (Some "HTTP 503 Service Unavailable")]
             false in
  fst (Sync.syncHealthLogs 7 w)
  = Returns (Sync.mkSyncResult true 1 1
       [Sync.mkSyncError 2
          "Failed to upload health log: Supabase insert error: HTTP 503 Service Unavailable"
          true])
  /\ Claimed.sync_fields (Sync.database (snd (Sync.syncHealthLogs 7 w)))
     = [(1, Some 1700000101, Some "cloud-1"); (2, None, None)].
Proof. split; vm_compute; reflexivity. Qed.



(** What white space and length are outside ASCII. *)
Example trim_strips_unicode_white_space :
  trim (Fixture.no_break_space ++ " a b " ++ three_bytes 65279
        ++ three_bytes 8232)
  = "a b"
  /\ trim Fixture.no_break_space = ""
  /\ trim (three_bytes 8203) = three_bytes 8203.
Proof. repeat split; reflexivity. Qed.

Example length_counts_code_units :
  Js.length (Fixture.accented 150) = 150%nat
  /\ String.length (Fixture.accented 150) = 300%nat
  /\ Js.length Fixture.no_break_space = 1%nat
  /\ Js.length Fixture.lone_surrogate = 1%nat
  /\ Js.length (String (ascii_of_nat 240) (String (ascii_of_nat 159)
                  (String (ascii_of_nat 152)
                     (String (ascii_of_nat 128) EmptyString)))) = 2%nat.
Proof. repeat split; reflexivity. Qed.

(** The Kelvin sign, U+212A, is a capital letter whose lower case is the
    ASCII letter k. *)
Example lower_case_of_the_kelvin_sign :
  toLowerCase ("NETWOR" ++ three_bytes 8490 ++ " Down") = "network down".
Proof. reflexivity. Qed.

(** C6 at a patch whose id is one no-break space: the id error, and the
    store as it was. *)
Example update_rejects_a_no_break_space_id :
  HealthLogs.id_missing Fixture.blank_id_patch = true
  /\ @HealthLogs.updateHealthLog Fixture.crypto Fixture.json Fixture.dates
       "secret" 1705400000000 "11111111" 1 Fixture.blank_id_patch
       Fixture.store_with_one_log
     = (Throws (ErrorObj
          "Validation failed: ID is required for updates and must be a string"),
        Fixture.store_with_one_log).
Proof. split; reflexivity. Qed.

(** C5 after two inserts, a mark, an update and a delete. *)
Lemma sync_fields_stay_paired_witness :
  Claimed.all_paired
    (Claimed.after_all
       [Claimed.CreateHealthLog 7 "Salted__00000000.secret.{}";
        Claimed.CreateHealthLog 7 "Salted__11111111.secret.{}";
        Claimed.MarkHealthLogAsSynced 1 "cloud-1";
        Claimed.UpdateHealthLog 1 "Salted__22222222.secret.{}";
        Claimed.DeleteHealthLog 2]
       Fixture.open_service).
Proof.
  exact (proj1 (sync_fields_stay_paired Fixture.open_service
                  [Claimed.CreateHealthLog 7 "Salted__00000000.secret.{}";
                   Claimed.CreateHealthLog 7 "Salted__11111111.secret.{}";
                   Claimed.MarkHealthLogAsSynced 1 "cloud-1";
                   Claimed.UpdateHealthLog 1 "Salted__22222222.secret.{}";
                   Claimed.DeleteHealthLog 2]
                  eq_refl)).
Defined.

(** The rows that run leaves before the delete: one synced, one not. *)
Example store_run :
  Claimed.sync_fields
    (Claimed.after_all
       [Claimed.CreateHealthLog 7 "Salted__00000000.secret.{}";
        Claimed.CreateHealthLog 7 "Salted__11111111.secret.{}";
        Claimed.MarkHealthLogAsSynced 1 "cloud-1";
        Claimed.UpdateHealthLog 1 "Salted__22222222.secret.{}"]
       Fixture.open_service)
  = [(1, Some 1700000002, Some "cloud-1"); (2, None, None)].
Proof. vm_compute. reflexivity. Qed.

(** C9 at a store whose driver rejects the UPDATE that marks the row. *)
Lemma failed_mark_after_upload_counts_as_failure_witness :
  let w := Fixture.world (Fixture.store [Fixture.first_row] [0%nat])
             [Supabase.Resolves (Some "cloud-1") None] false in
  fst (Sync.upload_one Fixture.first_row "user-1"
         (Sync.mkSyncResult true 0 0 []) w)
  = Returns (Sync.mkSyncResult true 0 1
       [Sync.mkSyncError 1
          "Failed to mark health log as synced: Error: disk I/O error" false])
  /\ Supabase.requests
       (Sync.supabase
          (snd (Sync.upload_one Fixture.first_row "user-1"
                  (Sync.mkSyncResult true 0 0 []) w)))
     = [Supabase.Insert "user-1" "Salted__00000000.secret.{}" "device-1"]
  /\ In Fixture.first_row
        (Database.select_unsynced 7
           (Database.rows
              (Sync.database
                 (snd (Sync.upload_one Fixture.first_row "user-1"
                         (Sync.mkSyncResult true 0 0 []) w))))).
Proof.
  intros w.
  destruct (failed_mark_after_upload_counts_as_failure
              Fixture.first_row "user-1" (Sync.mkSyncResult true 0 0 []) w
              _ "cloud-1" _ _ eq_refl eq_refl)
    as (Hone & _ & Hreq & Hrows & Hagain).
  rewrite Hone. cbn [fst snd].
  split; [reflexivity|]. split; [reflexivity|].
  cbn [Sync.database Sync.set_database].
  apply Hagain; [left; reflexivity | reflexivity].
Defined.

(** C10 at a service bound to another key than the one the row was
    encrypted under. *)
Lemma delete_of_undecryptable_record_fails_witness :
  exists cause d',
    @HealthLogs.deleteHealthLog Fixture.crypto Fixture.json "another key" 1
      Fixture.store_with_one_log
    = (Throws (ErrorObj ("Failed to delete health log: "
                         ++ "Failed to retrieve health log: " ++ cause)), d')
    /\ cause = "Decryption failed: Malformed UTF-8 data"
    /\ Database.rows d' = [Fixture.stored_row].
Proof.
  destruct (@delete_of_undecryptable_record_fails Fixture.crypto Fixture.json
              "another key" 1 Fixture.store_with_one_log _ Fixture.stored_row
              eq_refl eq_refl eq_refl eq_refl)
    as (cause & d' & Hdel & Hcause & _ & Hrows).
  exists cause, d'. split; [exact Hdel|]. split; [exact Hcause | exact Hrows].
Defined.

(** C6, as the specification words it, fails: a patch that names another
    domain id than the stored one is accepted. *)
Lemma update_accepts_a_foreign_id :
  ~ @Claimed.update_rejects_foreign_id Fixture.crypto Fixture.json Fixture.dates
      "secret" 1705400000000 "11111111" 1 Fixture.foreign_patch
      Fixture.store_with_one_log.
Proof.
  intros H.
  destruct (H (Obj Fixture.stored_log)
              (snd (@HealthLogs.getHealthLog Fixture.crypto Fixture.json
                      "secret" 1 Fixture.store_with_one_log)))
    as (m & d' & Hthrows & _).
  - reflexivity.
  - discriminate.
  - apply (f_equal fst) in Hthrows. vm_compute in Hthrows. discriminate.
Qed.

(** C6 at that patch: the update returns, with the stored id and the new
    title. *)
Lemma update_requires_an_id_and_keeps_the_stored_one_witness :
  exists sanitizedLog,
    fst (@HealthLogs.updateHealthLog Fixture.crypto Fixture.json Fixture.dates
           "secret" 1705400000000 "11111111" 1 Fixture.foreign_patch
           Fixture.store_with_one_log)
    = Returns sanitizedLog
    /\ prop Fixture.foreign_patch "id" = Str "some_other_id"
    /\ prop sanitizedLog "id" = Str "health_log_1"
    /\ prop sanitizedLog "title" = Str "Updated".
Proof.
  destruct (proj2 (proj2
              (@update_requires_an_id_and_keeps_the_stored_one
                 Fixture.crypto Fixture.json Fixture.dates
                 "secret" 1705400000000 "11111111" 1 Fixture.foreign_patch
                 Fixture.store_with_one_log))
              _ _ eq_refl)
    as (existingLog & d1 & encrypted & Hget & Hid & _).
  eexists. split; [reflexivity|]. split; [reflexivity|].
  split; [|reflexivity].
  rewrite Hid. apply (f_equal fst) in Hget. cbn [fst] in Hget.
  vm_compute in Hget. inversion Hget. reflexivity.
Defined.

(** A backend that is unreachable twice and then answers: three attempts,
    sleeps of one and two seconds. *)
Example retry_fails_twice_then_succeeds :
  let w := Fixture.world (Fixture.store [] [])
             [Fixture.unreachable; Fixture.unreachable; Fixture.online;
              Fixture.signed_in] false in
  fst (Sync.retrySyncWithBackoff 7 3 w)
  = Returns (Sync.mkSyncResult true 0 0 [])
  /\ Sync.timers (snd (Sync.retrySyncWithBackoff 7 3 w)) = [1000; 2000]
  /\ Supabase.requests (Sync.supabase (snd (Sync.retrySyncWithBackoff 7 3 w)))
     = [Supabase.SelectOne; Supabase.SelectOne; Supabase.SelectOne;
        Supabase.GetUser].
Proof. repeat split; vm_compute; reflexivity. Qed.

(** A backend that never answers: the error of the third attempt, and no
    sleep after it. *)
Example retry_gives_up :
  let w := Fixture.world (Fixture.store [] []) [] false in
  fst (Sync.retrySyncWithBackoff 7 3 w)
  = Throws (ErrorObj "Sync failed: No internet connection available")
  /\ Sync.timers (snd (Sync.retrySyncWithBackoff 7 3 w)) = [1000; 2000]
  /\ Sync.isSyncing (Sync.engine (snd (Sync.retrySyncWithBackoff 7 3 w)))
     = false.
Proof. repeat split; vm_compute; reflexivity. Qed.

(** A call while a sync is in flight. *)
Example sync_while_syncing :
  let w := Fixture.world (Fixture.store [Fixture.first_row] [])
             [Fixture.online; Fixture.signed_in] true in
  Sync.syncHealthLogs 7 w
  = (Throws (ErrorObj "Sync already in progress"), w).
Proof. reflexivity. Qed.

(** A second call made while the first is suspended at its first await is
    rejected and changes nothing; the first call, resumed, completes. *)
Example second_call_while_first_is_suspended :
  let w := Fixture.world (Fixture.store [Fixture.first_row] [])
             [Fixture.online; Fixture.signed_in;
              Supabase.Resolves (Some "cloud-1") None] false in
  let first := Async.syncHealthLogs 7 w in
  Sync.isSyncing (Sync.engine (fst first)) = true
  /\ Async.syncHealthLogs 7 (fst first)
     = (fst first, Async.Done (Throws (ErrorObj "Sync already in progress")))
  /\ fst (Async.finish (snd first) (fst first))
     = Returns (Sync.mkSyncResult true 1 0 [])
  /\ Sync.isSyncing
       (Sync.engine (snd (Async.finish (snd first) (fst first)))) = false.
Proof. repeat split; vm_compute; reflexivity. Qed.

(** Nothing to sync: success with zero counts, and no upload is sent. *)
Example sync_with_empty_backlog :
  let w := Fixture.world (Fixture.store [] [])
             [Fixture.online; Fixture.signed_in] false in
  fst (Sync.syncHealthLogs 7 w) = Returns (Sync.mkSyncResult true 0 0 [])
  /\ Supabase.requests (Sync.supabase (snd (Sync.syncHealthLogs 7 w)))
     = [Supabase.SelectOne; Supabase.GetUser].
Proof. split; vm_compute; reflexivity. Qed.

(** A batch in which every upload failed is a result, not an error: it is
    returned after one attempt, with [success = false] and without a sleep. *)
Example retry_returns_a_failed_batch :
  let w := Fixture.world (Fixture.store [Fixture.first_row] [])
             [Fixture.online; Fixture.signed_in;
              Supabase.Resolves None (Some "HTTP 503 Service Unavailable")]
             false in
  fst (Sync.retrySyncWithBackoff 7 3 w)
  = Returns (Sync.mkSyncResult false 0 1
       [Sync.mkSyncError 1
          "Failed to upload health log: Supabase insert error: HTTP 503 Service Unavailable"
          true])
  /\ Sync.timers (snd (Sync.retrySyncWithBackoff 7 3 w)) = []
  /\ Supabase.requests (Sync.supabase (snd (Sync.retrySyncWithBackoff 7 3 w)))
     = [Supabase.SelectOne; Supabase.GetUser;
        Supabase.Insert "user-1" "Salted__00000000.secret.{}" "device-1"].
Proof. repeat split; vm_compute; reflexivity. Qed.

(** * Further properties of the code *)

(** ** The record store: ids, lookups and query order *)

Section StoreIds.
Import Database Claimed Notions.

(** What a method that is one statement does, case by case. *)
Lemma store_call_cases {A} prefix
  (effect : Z -> SQLiteDatabase -> A * SQLiteDatabase) d out d' :
  guarded prefix (statement effect) d = (out, d') ->
  match db d with
  | None => d' = d /\ out = Throws (ErrorObj "Database not initialized")
  | Some s =>
      match driver_fault s (statements s) with
      | Some e =>
          d' = mkDatabaseService (Some (next_statement s))
          /\ out = Throws (ErrorObj (prefix ++ ": " ++ render e))
      | None =>
          d' = mkDatabaseService
                 (Some (next_statement
                          (snd (effect (current_timestamp s (statements s)) s))))
          /\ out = Returns
                     (fst (effect (current_timestamp s (statements s)) s))
      end
  end.
Proof.
  unfold guarded, statement.
  destruct (db d) as [s|].
  - destruct (driver_fault s (statements s)).
    + intros H; inversion H; auto.
    + destruct (effect _ s); intros H; inversion H; auto.
  - intros H; inversion H; auto.
Qed.

Lemma numbered_one_statement {A} prefix
  (effect : Z -> SQLiteDatabase -> A * SQLiteDatabase) d :
  (forall now s,
     NoDup (map id (health_logs s))
     /\ Forall (fun r => id r <= sqlite_sequence s) (health_logs s) ->
     NoDup (map id (health_logs (snd (effect now s))))
     /\ Forall (fun r => id r <= sqlite_sequence (snd (effect now s)))
               (health_logs (snd (effect now s)))) ->
  numbered d -> numbered (snd (guarded prefix (statement effect) d)).
Proof.
  intros Heff H.
  destruct (guarded prefix (statement effect) d) as [out d'] eqn:Hc.
  apply store_call_cases in Hc. unfold numbered in *. cbn [snd].
  destruct (db d) as [s|] eqn:Hdb; [|destruct Hc as [-> _]; rewrite Hdb; exact I].
  destruct (driver_fault s (statements s)); destruct Hc as [-> _]; cbn.
  - exact H.
  - apply Heff. exact H.
Qed.

Lemma map_id_update_where_id id0 f l :
  (forall r, id (f r) = id r) ->
  map id (update_where_id id0 f l) = map id l.
Proof.
  intros Hf. unfold update_where_id. rewrite map_map. apply map_ext.
  intros r. destruct (id r =? id0); auto.
Qed.

Lemma NoDup_map_filter {A B} (g : A -> B) f (l : list A) :
  NoDup (map g l) -> NoDup (map g (filter f l)).
Proof.
  induction l as [|x l IH]; cbn; [auto|].
  intros H. inversion H as [|? ? Hx Hl]; subst.
  destruct (f x); cbn; [|auto].
  constructor; [|auto].
  intros Hin. apply Hx. apply in_map_iff in Hin.
  destruct Hin as [y [Hy Hin]]. apply filter_In in Hin.
  apply in_map_iff. exists y. tauto.
Qed.

Lemma after_keeps_numbered c d : numbered d -> numbered (after c d).
Proof.
  intros H.
  destruct c as [u p | u | i | i p | i | i c | u | | ]; cbn [after].
  - apply numbered_one_statement; [|exact H].
    intros now s [Hnd Hle]. cbn. split.
    + rewrite map_app. cbn.
      apply NoDup_app; [exact Hnd | repeat constructor; intros [] |].
      intros x Hx [Hx' | []]. subst x.
      apply in_map_iff in Hx. destruct Hx as [r [Hr Hin]].
      rewrite Forall_forall in Hle. specialize (Hle r Hin). lia.
    + apply Forall_app. split.
      * eapply Forall_impl; [|exact Hle]. cbn. intros; lia.
      * repeat constructor. cbn. lia.
  - apply numbered_one_statement; [|exact H]. intros now s Hs. exact Hs.
  - apply numbered_one_statement; [|exact H]. intros now s Hs. exact Hs.
  - apply numbered_one_statement; [|exact H].
    intros now s [Hnd Hle]. cbn. split.
    + rewrite map_id_update_where_id; auto.
    + apply Forall_update_where_id; auto.
  - apply numbered_one_statement; [|exact H].
    intros now s [Hnd Hle]. cbn. split.
    + apply NoDup_map_filter. exact Hnd.
    + apply Forall_filter. exact Hle.
  - apply numbered_one_statement; [|exact H].
    intros now s [Hnd Hle]. cbn. split.
    + rewrite map_id_update_where_id; auto.
    + apply Forall_update_where_id; auto.
  - apply numbered_one_statement; [|exact H]. intros now s Hs. exact Hs.
  - unfold clearAllData, guarded, numbered in *.
    destruct (db d) as [s|] eqn:Hdb; cbn; [|rewrite Hdb; exact I].
    unfold bind, statement.
    assert (Hnil : NoDup (map id (@nil HealthLogRecord))
                   /\ Forall (fun r => id r <= sqlite_sequence s) [])
      by (split; constructor).
    destruct (driver_fault s (statements s)); cbn; [exact H|].
    destruct (driver_fault _ _); cbn; [exact Hnil|].
    destruct (driver_fault _ _); cbn; exact Hnil.
  - exact I.
Qed.

Lemma after_all_keeps_numbered calls : forall d,
  numbered d -> numbered (after_all calls d).
Proof.
  induction calls as [|c calls IH]; intros d H; cbn; [exact H|].
  apply IH. apply after_keeps_numbered. exact H.
Qed.

Lemma empty_numbered d : rows d = [] -> numbered d.
Proof.
  unfold rows, numbered. destruct (db d) as [s|]; [|auto].
  intros ->. split; constructor.
Qed.


Lemma find_app_not_before {A} f (l : list A) x :
  (forall y, In y l -> f y = false) -> f x = true ->
  find f (l ++ [x]) = Some x.
Proof.
  intros Hl Hx. induction l as [|y l IH]; cbn; [rewrite Hx; reflexivity|].
  rewrite (Hl y) by (left; reflexivity).
  apply IH. intros z Hz. apply Hl. right. exact Hz.
Qed.

(** X2: a row that has been inserted is found under the id the insert
    returned. From a store reached from an empty table, if
    [createHealthLog] returns [rowid] and the driver accepts the next
    statement, [getHealthLogById rowid] returns the new row: the owner and
    payload of the call, both sync fields null. *)
Theorem created_row_is_found_by_its_id
  (d0 : DatabaseService) (calls : list StoreCall)
  (userId : Z) (payload : string) (rowid : Z) (d1 : DatabaseService) :
  rows d0 = [] ->
  createHealthLog userId payload (after_all calls d0) = (Returns rowid, d1) ->
  next_statement_accepted d1 ->
  exists row d2,
    getHealthLogById rowid d1 = (Returns (Some row), d2)
    /\ id row = rowid /\ user_id row = userId
    /\ encrypted_data row = payload
    /\ synced_at row = None /\ cloud_id row = None
    /\ rows d2 = (rows (after_all calls d0) ++ [row])%list.
Proof.
  intros Hempty Hc Hacc.
  assert (Hd : numbered (after_all calls d0))
    by (apply after_all_keeps_numbered, empty_numbered, Hempty).
  set (d := after_all calls d0) in *.
  apply store_call_cases in Hc. unfold numbered, rows in *.
  destruct (db d) as [s|]; [|destruct Hc as [_ Hc]; discriminate].
  destruct (driver_fault s (statements s));
    destruct Hc as [-> Hc]; inversion Hc; subst; clear Hc.
  unfold next_statement_accepted in Hacc. cbn in Hacc.
  unfold getHealthLogById, guarded, statement. cbn.
  rewrite Hacc. cbn.
  rewrite find_app_not_before.
  - eexists. eexists. split; [reflexivity|]. cbn. auto 10.
  - intros y Hy. destruct Hd as [_ Hle]. rewrite Forall_forall in Hle.
    specialize (Hle y Hy). apply Z.eqb_neq. lia.
  - cbn. apply Z.eqb_refl.
Qed.

End StoreIds.

Section StoreLookups.
Import Database Claimed Notions.

Lemma find_filter_other {A} (f g : A -> bool) (l : list A) :
  (forall x, f x = true -> g x = true) ->
  find f (filter g l) = find f l.
Proof.
  intros Hfg. induction l as [|x l IH]; cbn; [reflexivity|].
  destruct (g x) eqn:Hg; cbn.
  - destruct (f x); auto.
  - destruct (f x) eqn:Hf; [|exact IH].
    apply Hfg in Hf. congruence.
Qed.

Lemma find_filter_same {A} (f : A -> bool) (l : list A) :
  find f (filter (fun x => negb (f x)) l) = None.
Proof.
  induction l as [|x l IH]; cbn; [reflexivity|].
  destruct (f x) eqn:Hf; cbn; [exact IH|]. rewrite Hf. exact IH.
Qed.

Lemma filter_none {A} (f : A -> bool) (l : list A) :
  find f l = None -> filter (fun x => negb (f x)) l = l.
Proof.
  induction l as [|x l IH]; cbn; [reflexivity|].
  destruct (f x); cbn; [discriminate|]. intros H. rewrite IH; auto.
Qed.

(** X3: [deleteHealthLog] removes the rows of that id and nothing else.
    After a delete that returned, a lookup of the id finds nothing and the
    lookup of every other id finds what it found before; deleting an id
    that has no row also returns, and leaves the table as it was. *)
Theorem delete_removes_only_that_id
  (id0 : Z) (d d' : DatabaseService) :
  deleteHealthLog id0 d = (Returns tt, d') ->
  row_of id0 d' = None
  /\ (forall j, j <> id0 -> row_of j d' = row_of j d)
  /\ (row_of id0 d = None -> rows d' = rows d).
Proof.
  intros Hc. apply store_call_cases in Hc. unfold row_of, rows.
  destruct (db d) as [s|]; [|destruct Hc as [_ Hc]; discriminate].
  destruct (driver_fault s (statements s));
    destruct Hc as [-> Hc]; [discriminate|]. cbn.
  split; [|split].
  - apply (find_filter_same (fun r => id r =? id0)).
  - intros j Hj. apply find_filter_other.
    intros r Hr. apply Z.eqb_eq in Hr.
    apply negb_true_iff, Z.eqb_neq. lia.
  - apply (filter_none (fun r => id r =? id0)).
Qed.

Lemma find_update_where_id_other id0 f j l :
  j <> id0 -> (forall r, id (f r) = id r) ->
  find (fun r => id r =? j) (update_where_id id0 f l)
  = find (fun r => id r =? j) l.
Proof.
  intros Hj Hf. unfold update_where_id.
  induction l as [|x l IH]; cbn; [reflexivity|].
  destruct (id x =? id0) eqn:Hx.
  - rewrite Hf. apply Z.eqb_eq in Hx.
    destruct (id x =? j) eqn:Hxj; [apply Z.eqb_eq in Hxj; lia | exact IH].
  - destruct (id x =? j); [reflexivity | exact IH].
Qed.

Lemma find_update_where_id_same id0 f l :
  (forall r, id (f r) = id r) ->
  find (fun r => id r =? id0) (update_where_id id0 f l)
  = option_map f (find (fun r => id r =? id0) l).
Proof.
  intros Hf. unfold update_where_id.
  induction l as [|x l IH]; cbn; [reflexivity|].
  destruct (id x =? id0) eqn:Hx.
  - rewrite Hf, Hx. reflexivity.
  - rewrite Hx. exact IH.
Qed.

Lemma update_where_id_none id0 f l :
  find (fun r => id r =? id0) l = None -> update_where_id id0 f l = l.
Proof.
  unfold update_where_id.
  induction l as [|x l IH]; cbn; [reflexivity|].
  destruct (id x =? id0); [discriminate|]. intros H. rewrite IH; auto.
Qed.

(** X4: [updateHealthLog] replaces the payload of the rows of that id and
    nothing else. After an update that returned, a lookup of the id finds
    the row it found before with the new payload and the update time of the
    statement, and with the same id, owner, creation time and sync fields;
    the lookup of every other id is unchanged; and updating an id that has
    no row also returns, leaving the table as it was. *)
Theorem update_replaces_only_the_payload
  (id0 : Z) (payload : string) (d d' : DatabaseService) :
  updateHealthLog id0 payload d = (Returns tt, d') ->
  (forall j, j <> id0 -> row_of j d' = row_of j d)
  /\ (forall r, row_of id0 d = Some r ->
        exists now,
          row_of id0 d'
          = Some (mkHealthLogRecord (id r) (user_id r) payload (created_at r)
                                    now (synced_at r) (cloud_id r)))
  /\ (row_of id0 d = None -> rows d' = rows d).
Proof.
  intros Hc. apply store_call_cases in Hc. unfold row_of, rows.
  destruct (db d) as [s|]; [|destruct Hc as [_ Hc]; discriminate].
  destruct (driver_fault s (statements s));
    destruct Hc as [-> Hc]; [discriminate|]. cbn.
  split; [|split].
  - intros j Hj. apply find_update_where_id_other; auto.
  - intros r Hr. rewrite find_update_where_id_same by auto.
    rewrite Hr. cbn. eexists. reflexivity.
  - apply update_where_id_none.
Qed.

Lemma insert_asc_map g r l :
  (forall x, created_at (g x) = created_at x) ->
  insert_asc (g r) (map g l) = map g (insert_asc r l).
Proof.
  intros Hg. induction l as [|x l IH]; cbn; [reflexivity|].
  rewrite !Hg. destruct (created_at r <=? created_at x); cbn; [reflexivity|].
  rewrite IH. reflexivity.
Qed.

Lemma select_unsynced_map g userId l :
  (forall x, created_at (g x) = created_at x) ->
  (forall x, user_id (g x) = user_id x) ->
  (forall x, synced_at (g x) = synced_at x) ->
  select_unsynced userId (map g l) = map g (select_unsynced userId l).
Proof.
  intros Hc Hu Hs. unfold select_unsynced, order_by_created_at_asc.
  induction l as [|x l IH]; cbn; [reflexivity|].
  rewrite Hu, Hs.
  destruct ((user_id x =? userId) && is_null (synced_at x))%bool; cbn.
  - rewrite IH. apply insert_asc_map. exact Hc.
  - exact IH.
Qed.

(** X5: editing a record does not queue it for upload again.
    [updateHealthLog] leaves the result of the unsynced query as it was but
    for the payload and the update time of the rows it rewrote: the same
    ids in the same order with the same sync fields. So a row that has been
    uploaded stays out of the queue after it is edited, and a later sync
    does not upload the edit. *)
Theorem update_does_not_requeue
  (id0 : Z) (payload : string) (userId : Z) (d : DatabaseService) :
  map (fun r => (id r, user_id r, created_at r, synced_at r, cloud_id r))
      (select_unsynced userId (rows (snd (updateHealthLog id0 payload d))))
  = map (fun r => (id r, user_id r, created_at r, synced_at r, cloud_id r))
        (select_unsynced userId (rows d)).
Proof.
  unfold updateHealthLog. rewrite guarded_statement_rows. unfold rows.
  destruct (db d) as [s|]; [|reflexivity].
  destruct (driver_fault s (statements s)); [reflexivity|].
  cbn [snd health_logs with_rows]. unfold update_where_id.
  rewrite select_unsynced_map.
  - rewrite map_map. apply map_ext. intros r.
    destruct (id r =? id0); reflexivity.
  - intros r. destruct (id r =? id0); reflexivity.
  - intros r. destruct (id r =? id0); reflexivity.
  - intros r. destruct (id r =? id0); reflexivity.
Qed.

Lemma insert_asc_sorted r l :
  oldest_first l -> oldest_first (insert_asc r l).
Proof.
  unfold oldest_first. induction 1 as [|x l Hl IH Hx]; cbn.
  - repeat constructor.
  - destruct (created_at r <=? created_at x) eqn:Hrx.
    + apply Z.leb_le in Hrx. constructor; [constructor; assumption|].
      constructor; [exact Hrx|].
      eapply Forall_impl; [|exact Hx]. cbn. intros; lia.
    + apply Z.leb_gt in Hrx. constructor; [exact IH|].
      rewrite Forall_forall. intros y Hy.
      apply insert_asc_In in Hy. destruct Hy as [-> | Hy]; [lia|].
      rewrite Forall_forall in Hx. auto.
Qed.

Lemma insert_asc_perm r l : Permutation (insert_asc r l) (r :: l).
Proof.
  induction l as [|x l IH]; cbn; [reflexivity|].
  destruct (created_at r <=? created_at x); [reflexivity|].
  rewrite IH. apply perm_swap.
Qed.

Lemma order_asc_sorted l : oldest_first (order_by_created_at_asc l).
Proof.
  induction l as [|x l IH]; cbn; [constructor|].
  apply insert_asc_sorted, IH.
Qed.

Lemma order_asc_perm l : Permutation (order_by_created_at_asc l) l.
Proof.
  induction l as [|x l IH]; cbn; [reflexivity|].
  rewrite insert_asc_perm. constructor. exact IH.
Qed.

Lemma insert_desc_In r x l : In x (insert_desc r l) -> x = r \/ In x l.
Proof.
  induction l as [|y l IH]; cbn.
  - intros [<- | []]; auto.
  - destruct (created_at y <=? created_at r); cbn.
    + intros [<- | H]; auto.
    + intros [<- | H]; auto. apply IH in H. tauto.
Qed.

Lemma insert_desc_sorted r l :
  newest_first l -> newest_first (insert_desc r l).
Proof.
  unfold newest_first. induction 1 as [|x l Hl IH Hx]; cbn.
  - repeat constructor.
  - destruct (created_at x <=? created_at r) eqn:Hrx.
    + apply Z.leb_le in Hrx. constructor; [constructor; assumption|].
      constructor; [exact Hrx|].
      eapply Forall_impl; [|exact Hx]. cbn. intros; lia.
    + apply Z.leb_gt in Hrx. constructor; [exact IH|].
      rewrite Forall_forall. intros y Hy.
      apply insert_desc_In in Hy. destruct Hy as [-> | Hy]; [lia|].
      rewrite Forall_forall in Hx. auto.
Qed.

Lemma insert_desc_perm r l : Permutation (insert_desc r l) (r :: l).
Proof.
  induction l as [|x l IH]; cbn; [reflexivity|].
  destruct (created_at x <=? created_at r); [reflexivity|].
  rewrite IH. apply perm_swap.
Qed.

Lemma order_desc_sorted l : newest_first (order_by_created_at_desc l).
Proof.
  induction l as [|x l IH]; cbn; [constructor|].
  apply insert_desc_sorted, IH.
Qed.

Lemma order_desc_perm l : Permutation (order_by_created_at_desc l) l.
Proof.
  induction l as [|x l IH]; cbn; [reflexivity|].
  rewrite insert_desc_perm. constructor. exact IH.
Qed.

Lemma user_query_rows userId d l d' :
  getHealthLogsByUserId userId d = (Returns l, d') ->
  Permutation l (filter (fun r => user_id r =? userId) (rows d))
  /\ rows d' = rows d.
Proof.
  intros Hc. apply store_call_cases in Hc. unfold rows.
  destruct (db d) as [s|]; [|destruct Hc as [_ Hc]; discriminate].
  destruct (driver_fault s (statements s));
    destruct Hc as [-> Hc]; [discriminate|].
  cbn in *. inversion Hc; subst. split; [apply order_desc_perm | reflexivity].
Qed.

(** X6: the upload queue is oldest first and complete. When
    [getUnsyncedHealthLogs] returns, its result is ordered by ascending
    creation time and is a rearrangement of the rows of the user that have
    no [synced_at]: each such row once, and no other row; the table is as
    it was. *)
Theorem unsynced_query_is_oldest_first_and_complete
  (userId : Z) (d d' : DatabaseService) (l : list HealthLogRecord) :
  getUnsyncedHealthLogs userId d = (Returns l, d') ->
  oldest_first l
  /\ Permutation l (filter (pending userId) (rows d))
  /\ rows d' = rows d.
Proof.
  intros Hc. apply store_call_cases in Hc. unfold rows.
  destruct (db d) as [s|]; [|destruct Hc as [_ Hc]; discriminate].
  destruct (driver_fault s (statements s));
    destruct Hc as [-> Hc]; [discriminate|].
  cbn in *. inversion Hc; subst. split; [|split; [|reflexivity]].
  - apply order_asc_sorted.
  - apply order_asc_perm.
Qed.

(** X7: the records of a user are listed newest first and completely. When
    [getHealthLogsByUserId] returns, its result is ordered by descending
    creation time and is a rearrangement of the rows of that user: each
    once, and no row of another user; the table is as it was. *)
Theorem user_query_is_newest_first_and_complete
  (userId : Z) (d d' : DatabaseService) (l : list HealthLogRecord) :
  getHealthLogsByUserId userId d = (Returns l, d') ->
  newest_first l
  /\ Permutation l (filter (fun r => user_id r =? userId) (rows d))
  /\ rows d' = rows d.
Proof.
  intros Hc. apply store_call_cases in Hc. unfold rows.
  destruct (db d) as [s|]; [|destruct Hc as [_ Hc]; discriminate].
  destruct (driver_fault s (statements s));
    destruct Hc as [-> Hc]; [discriminate|].
  cbn in *. inversion Hc; subst. split; [|split; [|reflexivity]].
  - apply order_desc_sorted.
  - apply order_desc_perm.
Qed.

End StoreLookups.

(** ** The sync engine: what a call sends and what it changes *)

Section SyncMore.
Import Sync Claimed Notions.

(** The four ways through the [try] block of [syncHealthLogs]. *)
Lemma sync_body_cases uid w out w' :
  sync_body uid w = (out, w') ->
  let w1 := after_request Supabase.SelectOne w in
  let w2 := after_request Supabase.GetUser w1 in
  (fst (checkConnectivity w) = Returns false
   /\ out = Throws (ErrorObj "No internet connection available") /\ w' = w1)
  \/ (fst (checkConnectivity w) = Returns true
      /\ fst (getSupabaseUser w1) = Returns None
      /\ out = Throws (ErrorObj "User not authenticated with Supabase")
      /\ w' = w2)
  \/ (exists e d3,
        Database.getUnsyncedHealthLogs uid (database w) = (Throws e, d3)
        /\ out = Throws e /\ w' = set_database d3 w2)
  \/ (exists u logs d3 r,
        fst (checkConnectivity w) = Returns true
        /\ fst (getSupabaseUser w1) = Returns (Some u)
        /\ Database.getUnsyncedHealthLogs uid (database w) = (Returns logs, d3)
        /\ upload_each logs u (mkSyncResult true 0 0 []) (set_database d3 w2)
           = (Returns r, w')
        /\ out = Returns (mkSyncResult
                            ((0 <? syncedCount r) || (failedCount r =? 0))%bool
                            (syncedCount r) (failedCount r) (errors r))).
Proof.
  intros H w1 w2. revert H.
  unfold sync_body, bind at 1.
  destruct (checkConnectivity_total w) as [b Hb]. rewrite Hb. fold w1.
  destruct b; cbn [negb fst];
    [|intros H; inversion H; left; repeat split; reflexivity].
  unfold bind at 1.
  destruct (getSupabaseUser_total w1) as [u Hu]. rewrite Hu. fold w2.
  destruct u as [u|]; cbn [fst];
    [|intros H; inversion H; right; left; repeat split; reflexivity].
  intros H. right. right. revert H.
  unfold bind at 1. unfold databaseService, within.
  change (database w2) with (database w).
  destruct (Database.getUnsyncedHealthLogs uid (database w))
    as [[logs|e] d3] eqn:Hq.
  - intros H. right. exists u, logs, d3.
    destruct logs as [|log rest].
    + inversion H; subst. eexists. repeat split; reflexivity.
    + revert H. unfold bind.
      destruct (upload_each_summary (log :: rest) u (mkSyncResult true 0 0 [])
                  (set_database d3 w2)) as (r' & w'' & new & Hr & _).
      rewrite Hr. intros H; inversion H; subst.
      exists r'. repeat split; reflexivity.
  - intros H; inversion H; subst. left. exists e, d3. repeat split.
Qed.

Lemma checkConnectivity_answer w :
  fst (checkConnectivity w) = Returns (reachable (next_answer w)).
Proof.
  unfold checkConnectivity, try_catch, bind, supabase_send, within,
    Supabase.send, ret, reachable, next_answer.
  destruct (Supabase.answer (supabase w) _) as [e | data err]; cbn;
    [reflexivity|].
  destruct err; reflexivity.
Qed.

Lemma getSupabaseUser_answer w :
  fst (getSupabaseUser w) = Returns (session_user (next_answer w)).
Proof.
  unfold getSupabaseUser, try_catch, bind, supabase_send, within,
    Supabase.send, ret, throw, session_user, next_answer.
  destruct (Supabase.answer (supabase w) _) as [e | data err]; cbn;
    [reflexivity|].
  destruct err; reflexivity.
Qed.

Lemma next_answer_after_request r w :
  next_answer (after_request r w) = second_answer w.
Proof.
  unfold next_answer, second_answer, after_request. cbn.
  rewrite length_app. cbn. rewrite Nat.add_1_r. reflexivity.
Qed.

Lemma same_or_marked_refl l : Forall2 same_or_marked l l.
Proof. induction l; constructor; [left; reflexivity | assumption]. Qed.

Lemma same_or_marked_step a b c :
  same_or_marked a b -> same_or_marked b c -> same_or_marked a c.
Proof.
  intros [-> | (c1 & n1 & ->)] Hbc; [exact Hbc|].
  destruct Hbc as [-> | (c2 & n2 & ->)]; right.
  - exists c1, n1. reflexivity.
  - exists c2, n2. reflexivity.
Qed.

Lemma same_or_marked_trans l1 : forall l2 l3,
  Forall2 same_or_marked l1 l2 -> Forall2 same_or_marked l2 l3 ->
  Forall2 same_or_marked l1 l3.
Proof.
  induction l1 as [|a l1 IH]; intros l2 l3 H12 H23;
    inversion H12; subst; inversion H23; subst; constructor.
  - eapply same_or_marked_step; eassumption.
  - eapply IH; eassumption.
Qed.

Lemma same_or_marked_update id0 cloudId now l :
  Forall2 same_or_marked l
    (Database.update_where_id id0 (Database.set_synced cloudId now) l).
Proof.
  unfold Database.update_where_id.
  induction l as [|a l IH]; cbn; constructor; [|exact IH].
  destruct (Database.id a =? id0); [right; eauto | left; reflexivity].
Qed.

Lemma Forall2_In_r {A B} (R : A -> B -> Prop) l l' b :
  Forall2 R l l' -> In b l' -> exists a, In a l /\ R a b.
Proof.
  induction 1 as [|x y l l' Hxy Hl IH]; cbn; [intros []|].
  intros [<- | Hb]; [eauto|].
  destruct (IH Hb) as (a & Ha & Hab). eauto.
Qed.

Lemma markHealthLogAsSynced_returns_rows id0 cloudId d d' :
  Database.markHealthLogAsSynced id0 cloudId d = (Returns tt, d') ->
  exists now,
    Database.rows d'
    = Database.update_where_id id0 (Database.set_synced cloudId now)
        (Database.rows d).
Proof.
  intros Hc. apply store_call_cases in Hc. unfold Database.rows.
  destruct (Database.db d) as [s|]; [|destruct Hc as [_ Hc]; discriminate].
  destruct (Database.driver_fault s (Database.statements s));
    destruct Hc as [-> Hc]; [discriminate|].
  cbn. eexists. reflexivity.
Qed.

(** One turn of the loop, on the table: it succeeds and marks the rows of
    the record's id, or it fails and leaves the table as it was. *)
Lemma upload_one_rows log u r w r1 w1 :
  upload_one log u r w = (Returns r1, w1) ->
  (failedCount r1 = failedCount r
   /\ exists cloudId now,
        Database.rows (database w1)
        = Database.update_where_id (Database.id log)
            (Database.set_synced cloudId now) (Database.rows (database w)))
  \/ (failedCount r1 = failedCount r + 1
      /\ Database.rows (database w1) = Database.rows (database w)).
Proof.
  pose proof (upload_one_cases log u r w) as H. cbv zeta in H.
  destruct (fst (uploadHealthLog log u w)) as [cid|e].
  - change (database (after_request (upload_request w u log) w))
      with (database w) in H.
    destruct (Database.markHealthLogAsSynced _ _ _) as [[[]|e] d2] eqn:Hmark;
      rewrite H; intros Heq; inversion Heq; subst; cbn.
    + left. split; [reflexivity|]. exists cid.
      apply markHealthLogAsSynced_returns_rows in Hmark. exact Hmark.
    + right. split; [reflexivity|].
      eapply markHealthLogAsSynced_throws_rows. exact Hmark.
  - rewrite H. intros Heq; inversion Heq; subst; cbn.
    right. split; reflexivity.
Qed.

Lemma upload_each_rows logs : forall u r w r' w',
  upload_each logs u r w = (Returns r', w') ->
  Forall2 same_or_marked (Database.rows (database w))
                         (Database.rows (database w'))
  /\ (failedCount r' = failedCount r ->
      forall b, In b (Database.rows (database w')) ->
        In (Database.id b) (map Database.id logs) ->
        Database.synced_at b <> None).
Proof.
  induction logs as [|log rest IH]; intros u r w r' w'.
  - cbn. intros H; inversion H; subst.
    split; [apply same_or_marked_refl | intros _ b _ []].
  - cbn [upload_each]. unfold bind at 1.
    destruct (upload_one_summary log u r w) as (r1 & w1 & Hone & _).
    rewrite Hone. intros Hrest.
    destruct (upload_each_summary rest u r1 w1)
      as (r2 & w2 & new & Hsum & _ & _ & _ & _ & _ & _ & _ & Hmono & _).
    rewrite Hrest in Hsum. inversion Hsum; subst r2 w2. clear Hsum.
    destruct (IH _ _ _ _ _ Hrest) as [Hrel Hmarked].
    destruct (upload_one_rows _ _ _ _ _ _ Hone)
      as [(Hf & cid & now & Hrows) | (Hf & Hrows)].
    + split.
      * eapply same_or_marked_trans; [|exact Hrel].
        rewrite Hrows. apply same_or_marked_update.
      * intros Hclean b Hb Hin. cbn [map] in Hin.
        destruct Hin as [Hid | Hin]; [|apply Hmarked; auto; lia].
        destruct (Forall2_In_r _ _ _ _ Hrel Hb) as (a & Ha & Hab).
        rewrite Hrows in Ha. unfold Database.update_where_id in Ha.
        apply in_map_iff in Ha. destruct Ha as (a0 & Ha0 & _).
        assert (Hida : Database.id a = Database.id b)
          by (destruct Hab as [-> | (c & n & ->)]; reflexivity).
        assert (Hsa : Database.synced_at a <> None).
        { destruct (Database.id a0 =? Database.id log) eqn:Hcmp.
          - subst a. cbn. discriminate.
          - subst a. apply Z.eqb_neq in Hcmp. congruence. }
        destruct Hab as [-> | (c & n & ->)]; [exact Hsa | cbn; discriminate].
    + split.
      * rewrite <- Hrows. exact Hrel.
      * intros Hclean. exfalso. lia.
Qed.

Lemma uploads_after_request r w :
  Supabase.is_insert r = false -> uploads (after_request r w) = uploads w.
Proof.
  intros Hr. unfold uploads, after_request. cbn.
  rewrite filter_app. cbn. rewrite Hr. apply app_nil_r.
Qed.

Lemma filter_is_insert_uploads w w0 u l :
  deviceId (engine w0) = deviceId (engine w) ->
  filter Supabase.is_insert (map (upload_request w0 u) l)
  = map (upload_request w u) l.
Proof.
  intros He. induction l as [|x l IH]; cbn; [reflexivity|].
  rewrite IH. unfold upload_request. rewrite He. reflexivity.
Qed.

Lemma getUnsyncedHealthLogs_cases uid d out d' :
  Database.getUnsyncedHealthLogs uid d = (out, d') ->
  Database.rows d' = Database.rows d
  /\ match out with
     | Returns logs => logs = Database.select_unsynced uid (Database.rows d)
     | Throws e =>
         e = ErrorObj "Database not initialized"
         \/ exists cause,
              e = ErrorObj ("Failed to get unsynced health logs: " ++ cause)
     end.
Proof.
  intros Hc. apply store_call_cases in Hc. unfold Database.rows.
  destruct (Database.db d) as [s|] eqn:Hdb.
  - destruct (Database.driver_fault s (Database.statements s));
      destruct Hc as [-> ->]; cbn; split; eauto.
  - destruct Hc as [-> ->]. rewrite Hdb. auto.
Qed.

(** A call of [syncHealthLogs], on the table and on the uploads: when it
    throws, neither has changed; when it returns, every row is as before
    or marked, and one upload per record of the queue has been sent. *)
Lemma syncHealthLogs_effect uid w out w' :
  syncHealthLogs uid w = (out, w') ->
  match out with
  | Throws e =>
      Database.rows (database w') = Database.rows (database w)
      /\ uploads w' = uploads w
      /\ exists m, e = ErrorObj m
         /\ (m = "Sync already in progress"
             \/ m = "Sync service not initialized"
             \/ m = "Sync failed: No internet connection available"
             \/ m = "Sync failed: User not authenticated with Supabase"
             \/ m = "Sync failed: Database not initialized"
             \/ exists cause,
                  m = "Sync failed: Failed to get unsynced health logs: "
                      ++ cause)
  | Returns r =>
      Forall2 same_or_marked (Database.rows (database w))
                             (Database.rows (database w'))
      /\ (exists user,
            uploads w'
            = (uploads w
               ++ map (upload_request w user)
                      (Database.select_unsynced uid
                         (Database.rows (database w))))%list)
      /\ (failedCount r = 0 ->
          Database.select_unsynced uid (Database.rows (database w')) = [])
  end.
Proof.
  destruct (isSyncing (engine w)) eqn:Hs.
  { unfold syncHealthLogs, bind, gets, throw. rewrite Hs.
    intros H; inversion H; subst. repeat split; eauto 10. }
  destruct (not_initialized (engine w)) eqn:Hi.
  { unfold syncHealthLogs, bind, gets, throw. rewrite Hs, Hi.
    intros H; inversion H; subst. repeat split; eauto 10. }
  rewrite (syncHealthLogs_past_guards uid w Hs Hi).
  destruct (sync_body uid (set_isSyncing true w)) as [out0 w0] eqn:Hb.
  apply sync_body_cases in Hb. cbv zeta in Hb.
  destruct Hb as [(_ & -> & ->) | [(_ & _ & -> & ->)
                 | [(e & d3 & Hq & -> & ->) | (u & logs & d3 & r & _ & _ & Hq & Hup & ->)]]];
    intros H; inversion H; subst; clear H.
  - cbn. repeat split.
    + apply (uploads_after_request Supabase.SelectOne w). reflexivity.
    + eauto 10.
  - cbn. repeat split.
    + change (uploads (after_request Supabase.GetUser
                         (after_request Supabase.SelectOne w)) = uploads w).
      rewrite !uploads_after_request; reflexivity.
    + eauto 10.
  - apply getUnsyncedHealthLogs_cases in Hq. destruct Hq as [Hrows He].
    cbn in Hrows |- *. repeat split.
    + exact Hrows.
    + change (uploads (after_request Supabase.GetUser
                         (after_request Supabase.SelectOne w)) = uploads w).
      rewrite !uploads_after_request; reflexivity.
    + destruct He as [-> | (cause & ->)]; cbn; eauto 10.
  - cbn [database set_isSyncing] in Hq.
    apply getUnsyncedHealthLogs_cases in Hq. destruct Hq as [Hrows ->].
    destruct (upload_each_rows _ _ _ _ _ _ Hup) as [Hrel Hmarked].
    destruct (upload_each_summary
                (Database.select_unsynced uid (Database.rows (database w)))
                u (mkSyncResult true 0 0 [])
                (set_database d3
                   (after_request Supabase.GetUser
                      (after_request Supabase.SelectOne
                         (set_isSyncing true w)))))
      as (r2 & w2 & new & Hsum & _ & _ & _ & Hreq & _).
    rewrite Hup in Hsum. inversion Hsum; subst r2 w2. clear Hsum.
    cbn [database set_database set_isSyncing after_request set_supabase]
      in Hrel, Hmarked.
    rewrite Hrows in Hrel.
    cbn [database set_isSyncing failedCount].
    split; [exact Hrel | split].
    + exists u. unfold uploads. cbn [supabase set_isSyncing].
      rewrite Hreq. cbn [supabase set_database after_request set_supabase
                         Supabase.requests set_isSyncing].
      rewrite <- !app_assoc, !filter_app. cbn [filter Supabase.is_insert app].
      f_equal. apply filter_is_insert_uploads. reflexivity.
    + intros Hclean.
      destruct (Database.select_unsynced uid (Database.rows (database w0)))
        as [|b rest] eqn:Hsel; [reflexivity|]. exfalso.
      assert (Hb : In b (Database.select_unsynced uid
                           (Database.rows (database w0))))
        by (rewrite Hsel; left; reflexivity).
      apply select_unsynced_In in Hb. destruct Hb as (Hb & Hbu & Hbs).
      destruct (Forall2_In_r _ _ _ _ Hrel Hb) as (a & Ha & Hab).
      destruct Hab as [-> | (c & n & ->)]; [|cbn in Hbs; discriminate].
      apply (Hmarked Hclean a Hb); [|exact Hbs].
      apply in_map. apply select_unsynced_In. auto.
Qed.

(** X8: a sync that throws has uploaded nothing and marked nothing.
    [syncHealthLogs] throws only before its loop: the table and the uploads
    sent are then as they were, and the error is an [Error] whose message
    is one of: already in progress, not initialised, or [Sync failed: ]
    followed by no connection, no signed-in user, or the failure of the
    unsynced query. A failed upload or a failed mark never makes the call
    throw. *)
Theorem failed_sync_has_uploaded_nothing
  (userId : Z) (w w' : World) (e : thrown) :
  syncHealthLogs userId w = (Throws e, w') ->
  Database.rows (database w') = Database.rows (database w)
  /\ uploads w' = uploads w
  /\ exists m,
       e = ErrorObj m
       /\ (m = "Sync already in progress"
           \/ m = "Sync service not initialized"
           \/ m = "Sync failed: No internet connection available"
           \/ m = "Sync failed: User not authenticated with Supabase"
           \/ m = "Sync failed: Database not initialized"
           \/ exists cause,
                m = "Sync failed: Failed to get unsynced health logs: "
                    ++ cause).
Proof.
  intros H. exact (syncHealthLogs_effect _ _ _ _ H).
Qed.

(** X9: a sync changes nothing in the table but sync fields. Whatever the
    outcome of [syncHealthLogs], the table has the same rows in the same
    order, and each row is as it was or is that row marked as synced: no
    row is added or removed, and no id, owner, payload or timestamp
    changes. *)
Theorem sync_changes_only_sync_fields
  (userId : Z) (w w' : World) (out : completion SyncResult) :
  syncHealthLogs userId w = (out, w') ->
  Forall2 same_or_marked (Database.rows (database w))
                         (Database.rows (database w')).
Proof.
  intros H. apply syncHealthLogs_effect in H.
  destruct out as [r|e]; [tauto|].
  destruct H as [-> _]. apply same_or_marked_refl.
Qed.



Lemma set_isSyncing_after_request r w :
  isSyncing (engine w) = false ->
  set_isSyncing false (after_request r (set_isSyncing true w))
  = after_request r w.
Proof.
  destruct w as [[busy dev] d c t]. cbn. intros ->. reflexivity.
Qed.

(** X12: offline or signed out, a sync stops before it reads the store.
    For a call past its two guards: if the backend does not answer the
    probe, or answers it with an error, the call throws [Sync failed: No
    internet connection available] having sent the probe only; if the
    probe is answered and [auth.getUser()] is rejected, answered with an
    error or answered without a user, it throws [Sync failed: User not
    authenticated with Supabase] having sent these two requests only. In
    both cases the store is not used (no statement is run), and the flag
    is down again. *)
Theorem sync_stops_before_the_store_when_offline_or_signed_out
  (userId : Z) (w : World) :
  isSyncing (engine w) = false ->
  not_initialized (engine w) = false ->
  (reachable (next_answer w) = false ->
     syncHealthLogs userId w
     = (Throws (ErrorObj "Sync failed: No internet connection available"),
        after_request Supabase.SelectOne w))
  /\ (reachable (next_answer w) = true ->
      session_user (second_answer w) = None ->
      syncHealthLogs userId w
      = (Throws (ErrorObj "Sync failed: User not authenticated with Supabase"),
         after_request Supabase.GetUser
           (after_request Supabase.SelectOne w))).
Proof.
  intros Hs Hi.
  rewrite (syncHealthLogs_past_guards userId w Hs Hi).
  pose proof (checkConnectivity_answer (set_isSyncing true w)) as Hc.
  pose proof (getSupabaseUser_answer
                (after_request Supabase.SelectOne (set_isSyncing true w)))
    as Hu.
  rewrite next_answer_after_request in Hu.
  change (next_answer (set_isSyncing true w)) with (next_answer w) in Hc.
  change (second_answer (set_isSyncing true w)) with (second_answer w) in Hu.
  destruct (checkConnectivity_total (set_isSyncing true w)) as [b Hb].
  destruct (getSupabaseUser_total
              (after_request Supabase.SelectOne (set_isSyncing true w)))
    as [u Hgu].
  rewrite Hb in Hc. rewrite Hgu in Hu. cbn [fst] in Hc, Hu.
  injection Hc as Hb'. injection Hu as Hu'. subst b u.
  split.
  - intros Hoff. unfold sync_body, bind at 1. rewrite Hb, Hoff.
    cbn [negb throw message_or_unknown].
    rewrite set_isSyncing_after_request by exact Hs. reflexivity.
  - intros Hon Hout. unfold sync_body, bind at 1. rewrite Hb, Hon.
    cbn [negb]. unfold bind at 1. rewrite Hgu, Hout.
    cbn [throw message_or_unknown].
    destruct w as [[busy dev] d c t]. cbn in Hs. subst busy. reflexivity.
Qed.

End SyncMore.

Section SyncStatistics.
Import Sync Claimed Notions Statistics.

Lemma length_filter_le {A} (f g : A -> bool) (l : list A) :
  (forall x, f x = true -> g x = true) ->
  (List.length (filter f l) <= List.length (filter g l))%nat.
Proof.
  intros Hfg. induction l as [|x l IH]; cbn; [lia|].
  destruct (f x) eqn:Hf.
  - rewrite (Hfg x Hf). cbn. lia.
  - destruct (g x); cbn; lia.
Qed.

Lemma getSyncStats_counts
  (round_percentage : Z -> Z -> Z) (userId : Z) (w w' : World)
  (stats : SyncStats) :
  getSyncStats round_percentage userId w = (Returns stats, w') ->
  totalLogs stats
  = Z.of_nat (List.length (filter (fun r => Database.user_id r =? userId)
                                  (Database.rows (database w))))
  /\ unsyncedLogs stats
     = Z.of_nat (List.length (filter (pending userId)
                                     (Database.rows (database w))))
  /\ syncedLogs stats = totalLogs stats - unsyncedLogs stats
  /\ 0 <= unsyncedLogs stats <= totalLogs stats
  /\ 0 <= syncedLogs stats
  /\ (totalLogs stats = 0 -> syncPercentage stats = 100)
  /\ Database.rows (database w') = Database.rows (database w)
  /\ supabase w' = supabase w.
Proof.
  unfold getSyncStats, bind at 1. unfold databaseService at 1, within.
  destruct (Database.getHealthLogsByUserId userId (database w))
    as [[allLogs|e] d1] eqn:Hall; [|intros H; inversion H].
  unfold bind at 1. unfold databaseService, within.
  cbn [database set_database].
  destruct (Database.getUnsyncedHealthLogs userId d1)
    as [[logs|e] d2] eqn:Hun; [|intros H; inversion H].
  cbn [ret]. intros H; inversion H; subst; clear H.
  cbn [totalLogs unsyncedLogs syncedLogs syncPercentage database supabase
       set_database].
  destruct (user_query_rows _ _ _ _ Hall) as (Hperm1 & Hrows1).
  apply getUnsyncedHealthLogs_cases in Hun. destruct Hun as [Hrows2 ->].
  rewrite Hrows1 in *.
  assert (Hlen1 : List.length allLogs
                  = List.length (filter (fun r => Database.user_id r =? userId)
                                        (Database.rows (database w))))
    by (apply Permutation_length; exact Hperm1).
  assert (Hlen2 : List.length (Database.select_unsynced userId
                                 (Database.rows (database w)))
                  = List.length (filter (pending userId)
                                        (Database.rows (database w))))
    by (apply Permutation_length, order_asc_perm).
  rewrite Hlen1, Hlen2.
  pose proof (length_filter_le (pending userId)
                (fun r => Database.user_id r =? userId)
                (Database.rows (database w))) as Hle.
  assert (Hle' : forall x, pending userId x = true ->
                    (Database.user_id x =? userId) = true).
  { intros x Hx. unfold pending in Hx. apply andb_true_iff in Hx. tauto. }
  specialize (Hle Hle'). cbv beta in Hle.
  repeat split; try lia; try assumption.
  intros Hz. rewrite Hz. reflexivity.
Qed.


(** X13: the statistics add up. When [getSyncStats] returns (run with
    nothing else changing the store between its two queries), [totalLogs]
    is the number of rows of the user, [unsyncedLogs] the number of those
    with no [synced_at], [syncedLogs] their difference, so that
    [0 <= unsyncedLogs <= totalLogs] and [syncedLogs] is not negative; with
    no row at all the percentage is 100. The call sends nothing to the
    backend and leaves the table as it was. *)
Theorem sync_stats_add_up
  (round_percentage : Z -> Z -> Z) (userId : Z) (w w' : World)
  (stats : SyncStats) :
  getSyncStats round_percentage userId w = (Returns stats, w') ->
  totalLogs stats
  = Z.of_nat (List.length (filter (fun r => Database.user_id r =? userId)
                                  (Database.rows (database w))))
  /\ unsyncedLogs stats
     = Z.of_nat (List.length (filter (pending userId)
                                     (Database.rows (database w))))
  /\ syncedLogs stats = totalLogs stats - unsyncedLogs stats
  /\ 0 <= unsyncedLogs stats <= totalLogs stats
  /\ 0 <= syncedLogs stats
  /\ (totalLogs stats = 0 -> syncPercentage stats = 100)
  /\ Database.rows (database w') = Database.rows (database w)
  /\ supabase w' = supabase w.
Proof.
  intros H. exact (getSyncStats_counts _ _ _ _ _ H).
Qed.


End SyncStatistics.

Section RetryMore.
Import Sync Claimed Notions.

(** X14: a retry with one attempt is a plain sync.
    [retrySyncWithBackoff userId 1] ends as [syncHealthLogs userId] does,
    with the same result or the same error and in the same world: it never
    sleeps. *)
Theorem retry_once_is_a_plain_sync (userId : Z) (w : World) :
  retrySyncWithBackoff userId 1 w = syncHealthLogs userId w.
Proof.
  unfold retrySyncWithBackoff.
  change (Z.to_nat 1) with 1%nat. cbn [retry_loop].
  change (1 <=? 1) with true. change (1 <? 1) with false. cbv iota.
  destruct (syncHealthLogs userId w) as [[r|e] w'] eqn:Hsync; [reflexivity|].
  destruct (syncHealthLogs_frame _ _ _ _ Hsync) as (_ & _ & _ & He).
  rewrite He. reflexivity.
Qed.

Lemma total_app l l' : total (l ++ l') = total l + total l'.
Proof. unfold total. induction l; cbn; lia. Qed.

Lemma total_backoff n :
  total (map (fun i => 2 ^ Z.of_nat i * 1000) (seq 0 n))
  = (2 ^ Z.of_nat n - 1) * 1000.
Proof.
  induction n as [|n IH]; [reflexivity|].
  rewrite seq_S, map_app, total_app, IH. cbn [map total fold_right Nat.add].
  rewrite Nat2Z.inj_succ, Z.pow_succ_r by lia. lia.
Qed.

(** X15: the time a retry sleeps is bounded. The delays
    [retrySyncWithBackoff] hands to [setTimeout] add up to
    [(2^n - 1) * 1000] milliseconds for some [n] below [maxRetries], so to
    at most [(2^(maxRetries - 1) - 1)] seconds: 3 seconds for the default
    of 3 attempts; and to nothing when [maxRetries] is 1 or less. *)
Theorem retry_sleep_is_bounded (userId maxRetries : Z) (w : World) :
  exists slept,
    timers (snd (retrySyncWithBackoff userId maxRetries w))
    = (timers w ++ slept)%list
    /\ 0 <= total slept <= (2 ^ (Z.max 1 maxRetries - 1) - 1) * 1000.
Proof.
  unfold retrySyncWithBackoff.
  destruct (Z.to_nat maxRetries) as [|fuel] eqn:Hfuel.
  - exists []. cbn. rewrite app_nil_r. split; [reflexivity|].
    assert (0 < 2 ^ (Z.max 1 maxRetries - 1)) by (apply Z.pow_pos_nonneg; lia).
    unfold total. cbn. lia.
  - destruct (retry_loop_follows_schedule userId maxRetries fuel 1 None w)
      as (n & _ & Hn & Htimers); [lia | lia |].
    eexists. split; [exact Htimers|].
    replace (map (fun i => 2 ^ (1 - 1 + Z.of_nat i) * 1000) (seq 0 n))
      with (map (fun i => 2 ^ Z.of_nat i * 1000) (seq 0 n))
      by (apply map_ext; intros i; do 2 f_equal).
    rewrite total_backoff.
    assert (0 < 2 ^ Z.of_nat n) by (apply Z.pow_pos_nonneg; lia).
    assert (2 ^ Z.of_nat n <= 2 ^ (Z.max 1 maxRetries - 1))
      by (apply Z.pow_le_mono_r; lia).
    lia.
Qed.

Lemma retry_loop_uploads uid m : forall fuel attempt last w,
  let w' := snd (retry_loop fuel uid m attempt last w) in
  Forall2 same_or_marked (Database.rows (database w))
                         (Database.rows (database w'))
  /\ exists sent,
       uploads w' = (uploads w ++ sent)%list
       /\ (sent = []
           \/ exists user,
                sent = map (upload_request w user)
                           (Database.select_unsynced uid
                              (Database.rows (database w)))).
Proof.
  assert (Hstop : forall w,
            Forall2 same_or_marked (Database.rows (database w))
                                   (Database.rows (database w))
            /\ exists sent,
                 uploads w = (uploads w ++ sent)%list
                 /\ (sent = []
                     \/ exists user,
                          sent = map (upload_request w user)
                                     (Database.select_unsynced uid
                                        (Database.rows (database w))))).
  { intros w. split; [apply same_or_marked_refl|].
    exists []. rewrite app_nil_r. auto. }
  induction fuel as [|fuel IH]; intros attempt last w.
  - cbn. destruct last; apply Hstop.
  - cbn [retry_loop].
    destruct (attempt <=? m); [|destruct last; apply Hstop].
    destruct (syncHealthLogs uid w) as [[r|e] w1] eqn:Hsync.
    + pose proof (syncHealthLogs_effect _ _ _ _ Hsync) as (Hrel & (u & Hup) & _).
      cbn [snd]. split; [exact Hrel|].
      eexists. split; [exact Hup|]. right. eauto.
    + pose proof (syncHealthLogs_effect _ _ _ _ Hsync) as (Hrows & Hup & _).
      destruct (syncHealthLogs_frame _ _ _ _ Hsync) as (_ & Hdev & _).
      set (w2 := if attempt <? m then setTimeout (2 ^ (attempt - 1) * 1000) w1
                 else w1).
      assert (Hrows2 : Database.rows (database w2) = Database.rows (database w))
        by (subst w2; destruct (attempt <? m); exact Hrows).
      assert (Hup2 : uploads w2 = uploads w)
        by (subst w2; destruct (attempt <? m); exact Hup).
      assert (Hdev2 : deviceId (engine w2) = deviceId (engine w))
        by (subst w2; destruct (attempt <? m); exact Hdev).
      specialize (IH (attempt + 1) (Some (as_Error e)) w2). cbv zeta in IH.
      rewrite Hrows2, Hup2 in IH.
      destruct IH as (Hrel & sent & Hsent & Hcases).
      split; [exact Hrel|]. exists sent. split; [exact Hsent|].
      destruct Hcases as [-> | (user & ->)]; [auto|].
      right. exists user. apply map_ext. intros x.
      unfold upload_request. rewrite Hdev2. reflexivity.
Qed.


End RetryMore.

(** ** KeyManager over the keychain *)

Section KeyManagerFacts.
Import SecureStore KeyManager.
Variable deriveKey : string -> string -> Z -> completion string.

Lemma keyName_inj u v : keyName u = keyName v -> u = v.
Proof. unfold keyName, USER_KEY_PREFIX. cbn. intros H. inversion H. reflexivity. Qed.

Lemma saltName_inj u v : saltName u = saltName v -> u = v.
Proof. unfold saltName, SALT_KEY. cbn. intros H. inversion H. reflexivity. Qed.

Lemma keyName_saltName u v : keyName u <> saltName v.
Proof. unfold keyName, saltName, USER_KEY_PREFIX, SALT_KEY. cbn. discriminate. Qed.

Lemma lookup_remove name name' l :
  lookup name (remove name' l)
  = if String.eqb name' name then None else lookup name l.
Proof.
  unfold remove. induction l as [|[k v] l IH]; cbn.
  - destruct (String.eqb name' name); reflexivity.
  - destruct (String.eqb k name') eqn:Hk; cbn.
    + apply String.eqb_eq in Hk. subst k. rewrite IH.
      destruct (String.eqb name' name); reflexivity.
    + destruct (String.eqb k name) eqn:Hkn; [|exact IH].
      apply String.eqb_eq in Hkn. subst k. rewrite String.eqb_sym in Hk.
      rewrite Hk. reflexivity.
Qed.

Lemma lookup_set name name' value l :
  lookup name ((name', value) :: remove name' l)
  = if String.eqb name' name then Some value else lookup name l.
Proof.
  cbn. rewrite lookup_remove. destruct (String.eqb name' name); reflexivity.
Qed.

Lemma eqb_keyName u v : u <> v -> String.eqb (keyName u) (keyName v) = false.
Proof. intros H. apply String.eqb_neq. intros E. apply H, keyName_inj, E. Qed.

Lemma eqb_saltName u v : u <> v -> String.eqb (saltName u) (saltName v) = false.
Proof. intros H. apply String.eqb_neq. intros E. apply H, saltName_inj, E. Qed.

Lemma eqb_keyName_saltName u v : String.eqb (keyName u) (saltName v) = false.
Proof. apply String.eqb_neq, keyName_saltName. Qed.

Lemma eqb_saltName_keyName u v : String.eqb (saltName u) (keyName v) = false.
Proof.
  apply String.eqb_neq. intros E. symmetry in E. exact (keyName_saltName _ _ E).
Qed.

Lemma same_entries_refl v l : same_entries v l l.
Proof. split; reflexivity. Qed.

Lemma same_entries_trans v l1 l2 l3 :
  same_entries v l1 l2 -> same_entries v l2 l3 -> same_entries v l1 l3.
Proof. unfold same_entries. intros [H1 H2] [H3 H4]. split; congruence. Qed.

Lemma same_entries_set_key u v value l :
  u <> v -> same_entries v l ((keyName u, value) :: remove (keyName u) l).
Proof.
  intros H. unfold same_entries. rewrite !lookup_set.
  rewrite eqb_keyName, eqb_keyName_saltName by exact H. split; reflexivity.
Qed.

Lemma same_entries_set_salt u v value l :
  u <> v -> same_entries v l ((saltName u, value) :: remove (saltName u) l).
Proof.
  intros H. unfold same_entries. rewrite !lookup_set.
  rewrite eqb_saltName, eqb_saltName_keyName by exact H. split; reflexivity.
Qed.

Lemma same_entries_remove_key u v l :
  u <> v -> same_entries v l (remove (keyName u) l).
Proof.
  intros H. unfold same_entries. rewrite !lookup_remove.
  rewrite eqb_keyName, eqb_keyName_saltName by exact H. split; reflexivity.
Qed.

Lemma same_entries_remove_salt u v l :
  u <> v -> same_entries v l (remove (saltName u) l).
Proof.
  intros H. unfold same_entries. rewrite !lookup_remove.
  rewrite eqb_saltName, eqb_saltName_keyName by exact H. split; reflexivity.
Qed.

Lemma spares_ret {A} v (a : A) : spares v (ret a).
Proof. intros s. apply same_entries_refl. Qed.

Lemma spares_pure {A} v (c : completion A) : spares v (pure c).
Proof. intros s. apply same_entries_refl. Qed.

Lemma spares_bind {A B} v (m : Eff Keychain A) (k : A -> Eff Keychain B) :
  spares v m -> (forall a, spares v (k a)) -> spares v (bind m k).
Proof.
  intros Hm Hk s. unfold bind. specialize (Hm s).
  destruct (m s) as [[a|e] s1]; cbn in *; [|exact Hm].
  eapply same_entries_trans; [exact Hm | apply Hk].
Qed.

Lemma spares_try_catch {A} v (m : Eff Keychain A) h :
  spares v m -> (forall e, spares v (h e)) -> spares v (try_catch m h).
Proof.
  intros Hm Hh s. unfold try_catch. specialize (Hm s).
  destruct (m s) as [[a|e] s1]; cbn in *; [exact Hm|].
  eapply same_entries_trans; [exact Hm | apply Hh].
Qed.

Lemma spares_call {A} v
  (effect : list (string * string) -> A * list (string * string)) :
  (forall l, same_entries v l (snd (effect l))) -> spares v (call effect).
Proof.
  intros H s. unfold call.
  destruct (rejected s (calls s)); cbn; [apply same_entries_refl|].
  specialize (H (items s)). destruct (effect (items s)). exact H.
Qed.

Lemma spares_getItemAsync v name : spares v (getItemAsync name).
Proof. apply spares_call. intros l. apply same_entries_refl. Qed.

Lemma spares_if {A} v (b : bool) (m1 m2 : Eff Keychain A) :
  spares v m1 -> spares v m2 -> spares v (if b then m1 else m2).
Proof. destruct b; auto. Qed.

Lemma spares_generateAndStoreUserKey u v g :
  u <> v -> spares v (generateAndStoreUserKey g u).
Proof.
  intros H. unfold generateAndStoreUserKey.
  apply spares_try_catch; [|intros; apply spares_ret].
  apply spares_if; [apply spares_ret|].
  apply spares_bind; [apply spares_pure|]. intros k.
  apply spares_bind; [|intros; apply spares_ret].
  apply spares_call. intros l. apply same_entries_set_key, H.
Qed.

Lemma spares_getUserKey u v : spares v (getUserKey u).
Proof.
  unfold getUserKey.
  apply spares_try_catch; [|intros; apply spares_ret].
  apply spares_if; [apply spares_ret|].
  apply spares_bind; [apply spares_getItemAsync|].
  intros [[|c k]|]; apply spares_ret.
Qed.

(** X17: the keys of one user are out of reach of the calls for another.
    The item names [user_encryption_key_<id>] and [encryption_salt_<id>]
    of two different user ids never coincide, so whatever method of
    [KeyManager] is called for a user, and whatever the keychain rejects,
    the key and the salt stored for every other user are as they were. *)
Theorem key_calls_spare_other_users
  (c : KeyCall) (userId other : string) (s : Keychain) :
  userId <> other ->
  stored_key other (after deriveKey c userId s) = stored_key other s
  /\ stored_salt other (after deriveKey c userId s) = stored_salt other s.
Proof.
  intros H. unfold stored_key, stored_salt.
  enough (Hs : spares other (fun s => (Returns tt, after deriveKey c userId s)))
    by exact (Hs s).
  intros s0. cbn [snd].
  destruct c as [g | | g p | | | g]; cbn [after].
  - apply spares_generateAndStoreUserKey, H.
  - apply spares_getUserKey.
  - unfold deriveAndStoreKeyFromPassword.
    apply spares_try_catch; [|intros; apply spares_ret].
    apply spares_if; [apply spares_ret|].
    apply spares_bind; [apply spares_getItemAsync|]. intros stored.
    apply spares_bind.
    + destruct stored as [[|ch st]|]; try apply spares_ret;
        (apply spares_bind; [apply spares_pure|]; intros fresh;
         apply spares_bind; [|intros; apply spares_ret];
         apply spares_call; intros l; apply same_entries_set_salt, H).
    + intros salt. apply spares_bind; [apply spares_pure|]. intros k.
      apply spares_bind; [|intros; apply spares_ret].
      apply spares_call. intros l. apply same_entries_set_key, H.
  - unfold removeUserKey.
    apply spares_try_catch; [|intros; apply spares_ret].
    apply spares_if; [apply spares_ret|].
    apply spares_bind;
      [apply spares_call; intros l; apply same_entries_remove_key, H|].
    intros _.
    apply spares_bind;
      [apply spares_call; intros l; apply same_entries_remove_salt, H|].
    intros; apply spares_ret.
  - unfold hasUserKey.
    apply spares_try_catch; [|intros; apply spares_ret].
    apply spares_if; [apply spares_ret|].
    apply spares_bind; [apply spares_getItemAsync|].
    intros; apply spares_ret.
  - unfold rotateUserKey.
    apply spares_try_catch; [|intros; apply spares_ret].
    apply spares_if; [apply spares_ret|].
    apply spares_bind; [apply spares_getUserKey|]. intros cur.
    apply spares_if; [apply spares_ret|].
    apply spares_bind; [apply spares_generateAndStoreUserKey, H|].
    intros new. apply spares_if; apply spares_ret.
Qed.

Lemma call_accepted {A}
  (effect : list (string * string) -> A * list (string * string)) s :
  rejected s (calls s) = None ->
  call effect s
  = (Returns (fst (effect (items s))),
     mkKeychain (snd (effect (items s))) (S (calls s)) (rejected s)).
Proof.
  intros H. unfold call. rewrite H. destruct (effect (items s)); reflexivity.
Qed.

Lemma call_frame {A}
  (effect : list (string * string) -> A * list (string * string)) s :
  calls (snd (call effect s)) = S (calls s)
  /\ rejected (snd (call effect s)) = rejected s.
Proof.
  unfold call. destruct (rejected s (calls s)); cbn; [auto|].
  destruct (effect (items s)); cbn; auto.
Qed.

Lemma generate_success g u s r s1 :
  generateAndStoreUserKey g u s = (Returns r, s1) ->
  success r = true ->
  exists k,
    g = Returns k /\ r = mkKeyResult (Some k) true None /\ u <> EmptyString
    /\ rejected s (calls s) = None
    /\ s1 = mkKeychain ((keyName u, k) :: remove (keyName u) (items s))
                       (S (calls s)) (rejected s).
Proof.
  unfold generateAndStoreUserKey, try_catch.
  destruct u as [|c u]; cbn [falsy].
  { cbn. intros H; inversion H; subst. discriminate. }
  unfold bind, pure, ret, setItemAsync, call.
  destruct g as [k|e]; [|intros H; inversion H; subst; discriminate].
  destruct (rejected s (calls s)) eqn:Hrej;
    intros H; inversion H; subst; [discriminate|].
  intros _. exists k. repeat split; auto. discriminate.
Qed.

Lemma getUserKey_accepted u s :
  u <> EmptyString -> rejected s (calls s) = None ->
  getUserKey u s
  = (Returns match stored_key u s with
             | Some (String c k) => mkKeyResult (Some (String c k)) true None
             | _ => failure "No encryption key found for user"
             end,
     mkKeychain (items s) (S (calls s)) (rejected s)).
Proof.
  intros Hu Hacc. unfold getUserKey, try_catch, bind, getItemAsync.
  destruct u as [|c u]; [congruence|]. cbn [falsy].
  rewrite call_accepted by exact Hacc. cbn [fst snd]. unfold stored_key.
  destruct (lookup _ (items s)) as [[|c1 k]|]; reflexivity.
Qed.

Lemma getUserKey_without_key u s :
  stored_key u s = None ->
  exists r, fst (getUserKey u s) = Returns r /\ success r = false.
Proof.
  intros Hnone. unfold getUserKey, try_catch, bind, getItemAsync, call.
  destruct u as [|c u]; cbn [falsy]; [eexists; split; reflexivity|].
  destruct (rejected s (calls s)); [eexists; split; reflexivity|].
  unfold stored_key in Hnone. cbv beta iota. rewrite Hnone.
  eexists; split; reflexivity.
Qed.

Lemma hasUserKey_accepted u s :
  u <> EmptyString -> rejected s (calls s) = None ->
  fst (hasUserKey u s)
  = Returns match stored_key u s with Some _ => true | None => false end.
Proof.
  intros Hu Hacc. unfold hasUserKey, try_catch, bind, getItemAsync.
  destruct u as [|c u]; [congruence|]. cbn [falsy].
  rewrite call_accepted by exact Hacc. reflexivity.
Qed.

Lemma hasUserKey_without_key u s :
  stored_key u s = None -> fst (hasUserKey u s) = Returns false.
Proof.
  intros Hnone. unfold hasUserKey, try_catch, bind, getItemAsync, call.
  destruct u as [|c u]; cbn [falsy]; [reflexivity|].
  destruct (rejected s (calls s)); [reflexivity|].
  unfold stored_key in Hnone. cbv beta iota. rewrite Hnone. reflexivity.
Qed.

Ltac lookups :=
  cbn [lookup items];
  repeat (rewrite ?lookup_remove, ?String.eqb_refl, ?eqb_keyName_saltName,
                  ?eqb_saltName_keyName; cbn [lookup items]).

Lemma derive_success g u p s r s1 :
  deriveAndStoreKeyFromPassword deriveKey g u p s = (Returns r, s1) ->
  success r = true ->
  exists salt k,
    deriveKey p salt 10000 = Returns k
    /\ r = mkKeyResult (Some k) true None
    /\ u <> EmptyString /\ p <> EmptyString
    /\ stored_key u s1 = Some k
    /\ stored_salt u s1 = Some salt
    /\ rejected s1 = rejected s
    /\ ((stored_salt u s = Some salt /\ salt <> EmptyString)
        \/ g = Returns salt).
Proof.
  unfold deriveAndStoreKeyFromPassword, try_catch.
  destruct u as [|c u]; cbn [falsy orb].
  { cbn. intros H; injection H as Hr Hs1; subst r s1. discriminate. }
  destruct p as [|cp p]; cbn [falsy orb].
  { cbn. intros H; injection H as Hr Hs1; subst r s1. discriminate. }
  unfold bind at 1. unfold getItemAsync, call at 1.
  destruct (rejected s (calls s)) eqn:Hrej;
    [intros H; injection H as Hr Hs1; subst r s1; discriminate|].
  set (s0 := mkKeychain (items s) (S (calls s)) (rejected s)).
  destruct (lookup (saltName (String c u)) (items s)) as [[|cs st]|] eqn:Hsalt.
  - unfold bind at 1. unfold bind at 1. unfold pure at 1.
    destruct g as [fresh|e]; [|intros H; injection H as Hr Hs1; subst r s1; discriminate].
    unfold bind at 1. unfold setItemAsync at 1, call at 1. cbn [calls rejected s0].
    destruct (rejected s (S (calls s))) eqn:Hrej2;
      [intros H; injection H as Hr Hs1; subst r s1; discriminate|].
    cbn [ret items s0]. unfold bind at 1. unfold pure at 1.
    destruct (deriveKey (String cp p) fresh 10000) as [k|e] eqn:Hk;
      [|intros H; injection H as Hr Hs1; subst r s1; discriminate].
    unfold bind, setItemAsync, call, ret. cbn [calls rejected items].
    destruct (rejected s (S (S (calls s))));
      intros H; injection H as Hr Hs1; subst r s1; [discriminate|].
    intros _. exists fresh, k. unfold stored_key, stored_salt. cbn [items].
    lookups.
    repeat split; auto; discriminate.
  - unfold bind at 1. cbn [ret]. unfold bind at 1. unfold pure at 1.
    destruct (deriveKey (String cp p) (String cs st) 10000) as [k|e] eqn:Hk;
      [|intros H; injection H as Hr Hs1; subst r s1; discriminate].
    unfold bind, setItemAsync, call, ret. cbn [calls rejected items s0].
    destruct (rejected s (S (calls s)));
      intros H; injection H as Hr Hs1; subst r s1; [discriminate|].
    intros _. exists (String cs st), k. unfold stored_key, stored_salt.
    cbn [items].
    lookups.
    repeat split; auto; try discriminate.
    left. split; [exact Hsalt | discriminate].
  - unfold bind at 1. unfold bind at 1. unfold pure at 1.
    destruct g as [fresh|e]; [|intros H; injection H as Hr Hs1; subst r s1; discriminate].
    unfold bind at 1. unfold setItemAsync at 1, call at 1. cbn [calls rejected s0].
    destruct (rejected s (S (calls s))) eqn:Hrej2;
      [intros H; injection H as Hr Hs1; subst r s1; discriminate|].
    cbn [ret items s0]. unfold bind at 1. unfold pure at 1.
    destruct (deriveKey (String cp p) fresh 10000) as [k|e] eqn:Hk;
      [|intros H; injection H as Hr Hs1; subst r s1; discriminate].
    unfold bind, setItemAsync, call, ret. cbn [calls rejected items].
    destruct (rejected s (S (S (calls s))));
      intros H; injection H as Hr Hs1; subst r s1; [discriminate|].
    intros _. exists fresh, k. unfold stored_key, stored_salt. cbn [items].
    lookups.
    repeat split; auto; discriminate.
Qed.

(** X18: a key that has been stored is the key that is retrieved. After
    [generateAndStoreUserKey] or [deriveAndStoreKeyFromPassword] has
    succeeded with a key that is not the empty string, and if the keychain
    accepts the next call, [getUserKey] for the same user returns that very
    result, and [hasUserKey] returns true. *)
Theorem stored_key_is_retrieved
  (generateKey : completion string) (userId password : string)
  (s s1 : Keychain) (result : KeyResult) :
  generateAndStoreUserKey generateKey userId s = (Returns result, s1)
  \/ deriveAndStoreKeyFromPassword deriveKey generateKey userId password s
     = (Returns result, s1) ->
  success result = true ->
  key result <> Some EmptyString ->
  accepts 1 s1 ->
  fst (getUserKey userId s1) = Returns result
  /\ fst (hasUserKey userId s1) = Returns true.
Proof.
  intros Hcall Hsucc Hkey Hacc.
  assert (Hacc0 : rejected s1 (calls s1) = None).
  { specialize (Hacc 0%nat). rewrite Nat.add_0_r in Hacc. apply Hacc. lia. }
  assert (Hstored : exists k, result = mkKeyResult (Some k) true None
                              /\ userId <> EmptyString
                              /\ stored_key userId s1 = Some k).
  { destruct Hcall as [Hgen | Hder].
    - destruct (generate_success _ _ _ _ _ Hgen Hsucc)
        as (k & _ & -> & Hu & _ & ->).
      exists k. repeat split; auto. unfold stored_key. lookups. reflexivity.
    - destruct (derive_success _ _ _ _ _ _ Hder Hsucc)
        as (salt & k & _ & -> & Hu & _ & Hk & _).
      exists k. auto. }
  destruct Hstored as (k & -> & Hu & Hk).
  rewrite (getUserKey_accepted _ _ Hu Hacc0), (hasUserKey_accepted _ _ Hu Hacc0).
  rewrite Hk. cbn [fst]. split; [|reflexivity].
  destruct k as [|c k]; [exfalso; apply Hkey; reflexivity | reflexivity].
Qed.

(** X19: a removed key is gone, salt included. After [removeUserKey] has
    succeeded, the keychain holds neither the key nor the salt of the user,
    so [hasUserKey] returns false and [getUserKey] fails; and already when
    its first delete has been accepted the key is gone, also if the call
    reports a failure because the delete of the salt was rejected. *)
Theorem removed_key_is_gone
  (userId : string) (s s1 : Keychain) (result : KeyResult) :
  removeUserKey userId s = (Returns result, s1) ->
  (success result = true ->
     stored_key userId s1 = None /\ stored_salt userId s1 = None
     /\ fst (hasUserKey userId s1) = Returns false
     /\ exists r, fst (getUserKey userId s1) = Returns r /\ success r = false)
  /\ (userId <> EmptyString -> rejected s (calls s) = None ->
      stored_key userId s1 = None).
Proof.
  unfold removeUserKey, try_catch.
  destruct userId as [|c u]; cbn [falsy].
  { cbn. intros H; injection H as Hr Hs1; subst. split; [discriminate|].
    intros Hu; congruence. }
  unfold bind, deleteItemAsync, call, ret.
  destruct (rejected s (calls s)) eqn:Hrej; cbn [calls rejected items fst snd].
  { intros H; injection H as Hr Hs1; subst. split; [discriminate|].
    intros _ Hn; discriminate. }
  destruct (rejected s (S (calls s))) eqn:Hrej2;
    intros H; injection H as Hr Hs1; subst result s1.
  - split; [discriminate|]. intros _ _. unfold stored_key. lookups. reflexivity.
  - assert (Hk : stored_key (String c u)
                   (mkKeychain
                      (remove (saltName (String c u))
                         (remove (keyName (String c u)) (items s)))
                      (S (S (calls s))) (rejected s)) = None)
      by (unfold stored_key; lookups; reflexivity).
    split; [|intros _ _; exact Hk].
    intros _. split; [exact Hk|]. split.
    + unfold stored_salt. lookups. reflexivity.
    + split; [apply hasUserKey_without_key, Hk
             | apply getUserKey_without_key, Hk].
Qed.

(** X20: a rotation never leaves the user without a key. When
    [rotateUserKey] succeeds, [oldKey] is the key that was stored,
    [newKey] is the generated one and is the key stored now, and the salt
    is as it was; whatever the outcome, a user who had a key still has
    one, the old or the new; and for a user with no key the rotation
    fails and the items of the keychain are unchanged. *)
Theorem rotation_keeps_a_key
  (generateKey : completion string) (userId : string)
  (s s1 : Keychain) (result : RotationResult) :
  rotateUserKey generateKey userId s = (Returns result, s1) ->
  (rotation_success result = true ->
     exists old new,
       stored_key userId s = Some old /\ oldKey result = Some old
       /\ generateKey = Returns new /\ newKey result = Some new
       /\ stored_key userId s1 = Some new
       /\ stored_salt userId s1 = stored_salt userId s)
  /\ (forall old, stored_key userId s = Some old ->
        stored_key userId s1 = Some old
        \/ exists new, generateKey = Returns new
                       /\ stored_key userId s1 = Some new)
  /\ (stored_key userId s = None ->
      rotation_success result = false /\ items s1 = items s).
Proof.
  unfold rotateUserKey, try_catch.
  destruct userId as [|c u]; cbn [falsy].
  { cbn. intros H; injection H as Hr Hs1; subst.
    split; [discriminate|]. split; [auto|]. auto. }
  unfold bind at 1.
  destruct (getUserKey (String c u) s) as [[cur|e] s0] eqn:Hget.
  2:{ exfalso. revert Hget. unfold getUserKey, try_catch, bind, getItemAsync, call.
      cbn [falsy]. destruct (rejected s (calls s)); [discriminate|].
      destruct (lookup _ _) as [[|c1 k]|]; discriminate. }
  assert (Hs0 : items s0 = items s
                /\ (success cur = true ->
                    exists c1 k, stored_key (String c u) s = Some (String c1 k)
                                 /\ key cur = Some (String c1 k))).
  { revert Hget. unfold getUserKey, try_catch, bind, getItemAsync, call.
    cbn [falsy]. unfold stored_key.
    destruct (rejected s (calls s)).
    - intros H; injection H as Hr Hs1; subst. split; [reflexivity|discriminate].
    - cbv beta iota.
      destruct (lookup _ (items s)) as [[|c1 k]|];
        intros H; injection H as Hr Hs1; subst; cbn;
        (split; [reflexivity|]); try discriminate.
      intros _. eauto. }
  destruct Hs0 as [Hitems Hcur].
  destruct (success cur) eqn:Hsc; cbn [negb].
  2:{ intros H; injection H as Hr Hs1; subst.
      split; [discriminate|]. unfold stored_key. rewrite Hitems.
      split; [auto|]. auto. }
  destruct (Hcur eq_refl) as (c1 & k & Hold & Hkey).
  unfold bind.
  destruct (generateAndStoreUserKey generateKey (String c u) s0)
    as [[new|e] s2] eqn:Hgen.
  2:{ exfalso. revert Hgen.
      unfold generateAndStoreUserKey, try_catch, bind, pure, setItemAsync, call.
      cbn [falsy]. destruct generateKey; [|discriminate].
      destruct (rejected s0 (calls s0)); discriminate. }
  destruct (success new) eqn:Hsn; cbn [negb].
  - destruct (generate_success _ _ _ _ _ Hgen Hsn)
      as (nk & Hg & -> & _ & _ & ->).
    intros H; injection H as Hr Hs1; subst result s1.
    cbn [rotation_success oldKey newKey key].
    assert (Hnew : stored_key (String c u)
                     (mkKeychain
                        ((keyName (String c u), nk)
                         :: remove (keyName (String c u)) (items s0))
                        (S (calls s0)) (rejected s0)) = Some nk)
      by (unfold stored_key; lookups; reflexivity).
    split; [|split].
    + intros _. exists (String c1 k), nk. repeat split; auto.
      unfold stored_salt. lookups. rewrite Hitems. reflexivity.
    + intros old _. right. eauto.
    + rewrite Hold. discriminate.
  - intros H; injection H as Hr Hs1; subst result s1.
    cbn [rotation_success].
    split; [discriminate|]. split; [|rewrite Hold; discriminate].
    intros old Hold'.
    revert Hgen.
    unfold generateAndStoreUserKey, try_catch, bind, pure, setItemAsync, call.
    cbn [falsy]. destruct generateKey as [nk|e].
    + destruct (rejected s0 (calls s0));
        intros H; injection H as Hr Hs1; subst;
        [|cbn in Hsn; discriminate].
      left. unfold stored_key in *. cbn [items]. rewrite Hitems. exact Hold'.
    + intros H; injection H as Hr Hs1; subst.
      left. unfold stored_key in *. rewrite Hitems. exact Hold'.
Qed.

(** X21: the same password gives the same key again. After
    [deriveAndStoreKeyFromPassword] has succeeded with a salt that is not
    the empty string (the stored one, or the generated one, which it has
    stored), a second call for the same user and password, if the keychain
    accepts its two calls, derives from the stored salt and returns the
    same result, whatever the random source would give this time. *)
Theorem derived_key_is_stable
  (g1 g2 : completion string) (userId password : string)
  (s s1 : Keychain) (result : KeyResult) :
  deriveAndStoreKeyFromPassword deriveKey g1 userId password s
    = (Returns result, s1) ->
  success result = true ->
  stored_salt userId s1 <> Some EmptyString ->
  accepts 2 s1 ->
  fst (deriveAndStoreKeyFromPassword deriveKey g2 userId password s1)
  = Returns result.
Proof.
  intros Hder Hsucc Hsalt Hacc.
  destruct (derive_success _ _ _ _ _ _ Hder Hsucc)
    as (salt & k & Hk & -> & Hu & Hp & _ & Hs & _).
  assert (Hacc0 : rejected s1 (calls s1) = None).
  { specialize (Hacc 0%nat). rewrite Nat.add_0_r in Hacc. apply Hacc. lia. }
  assert (Hacc1 : rejected s1 (S (calls s1)) = None).
  { specialize (Hacc 1%nat). rewrite Nat.add_1_r in Hacc. apply Hacc. lia. }
  unfold deriveAndStoreKeyFromPassword, try_catch.
  destruct userId as [|c u]; [congruence|].
  destruct password as [|cp p]; [congruence|]. cbn [falsy orb].
  unfold bind at 1. unfold getItemAsync.
  rewrite call_accepted by exact Hacc0. cbn [fst snd].
  unfold stored_salt in Hs, Hsalt. rewrite Hs.
  destruct salt as [|cs st]; [exfalso; apply Hsalt; exact Hs|].
  unfold bind at 1. cbn [ret]. unfold bind at 1. unfold pure. rewrite Hk.
  unfold bind, setItemAsync.
  rewrite call_accepted by exact Hacc1. reflexivity.
Qed.

End KeyManagerFacts.

(** ** Sanitizing and the record service *)

Section SanitizingFacts.
Import Sanitizing.

Lemma trimStart_eq s :
  trimStart s
  = match white_prefix s with Some r => trimStart r | None => s end.
Proof.
  destruct s as [|c1 t1]; [reflexivity|].
  unfold white_prefix. cbn [trimStart].
  destruct (is_space c1); [reflexivity|].
  destruct t1 as [|c2 t2]; [reflexivity|].
  destruct (is_space2 c1 c2); [reflexivity|].
  destruct t2 as [|c3 t3]; [reflexivity|].
  destruct (is_space3 c1 c2 c3); reflexivity.
Qed.

Lemma all_white_eq s :
  all_white s
  = match s with
    | EmptyString => true
    | String _ _ =>
        match white_prefix s with Some r => all_white r | None => false end
    end.
Proof.
  destruct s as [|c1 t1]; [reflexivity|].
  unfold white_prefix. cbn [all_white].
  destruct (is_space c1); [reflexivity|].
  destruct t1 as [|c2 t2]; [reflexivity|].
  destruct (is_space2 c1 c2); [reflexivity|].
  destruct t2 as [|c3 t3]; [reflexivity|].
  destruct (is_space3 c1 c2 c3); reflexivity.
Qed.

Lemma white_prefix_shorter s r :
  white_prefix s = Some r -> (String.length r < String.length s)%nat.
Proof.
  destruct s as [|c1 t1]; [discriminate|].
  unfold white_prefix.
  destruct (is_space c1); [intros H; inversion H; subst; cbn; lia|].
  destruct t1 as [|c2 t2]; [discriminate|].
  destruct (is_space2 c1 c2); [intros H; inversion H; subst; cbn; lia|].
  destruct t2 as [|c3 t3]; [discriminate|].
  destruct (is_space3 c1 c2 c3); [|discriminate].
  intros H; inversion H; subst; cbn; lia.
Qed.

Lemma white_prefix_app s r w :
  white_prefix s = Some r -> white_prefix (s ++ w) = Some (r ++ w).
Proof.
  destruct s as [|c1 t1]; [discriminate|].
  unfold white_prefix. cbn [append].
  destruct (is_space c1); [intros H; inversion H; subst; reflexivity|].
  destruct t1 as [|c2 t2]; [discriminate|]. cbn [append].
  destruct (is_space2 c1 c2); [intros H; inversion H; subst; reflexivity|].
  destruct t2 as [|c3 t3]; [discriminate|]. cbn [append].
  destruct (is_space3 c1 c2 c3); [|discriminate].
  intros H; inversion H; subst; reflexivity.
Qed.

(** Induction on the length of a string. *)
Lemma string_length_ind (P : string -> Prop) :
  (forall s, (forall r, (String.length r < String.length s)%nat -> P r) -> P s) ->
  forall s, P s.
Proof.
  intros H s.
  assert (Hn : forall n r, (String.length r < n)%nat -> P r).
  { induction n as [|n IH]; intros r Hr; [lia|].
    apply H. intros r' Hr'. apply IH. lia. }
  apply (Hn (S (String.length s))). lia.
Qed.

Lemma trimStart_not_white s :
  trimStart s = EmptyString \/ white_prefix (trimStart s) = None.
Proof.
  induction s as [s IH] using string_length_ind.
  rewrite trimStart_eq.
  destruct (white_prefix s) as [r|] eqn:Hs; [|auto].
  apply IH. eapply white_prefix_shorter. exact Hs.
Qed.

Lemma trimStart_fixed s : white_prefix s = None -> trimStart s = s.
Proof. intros H. rewrite trimStart_eq, H. reflexivity. Qed.

Lemma all_white_app s w :
  all_white s = true -> all_white w = true -> all_white (s ++ w) = true.
Proof.
  induction s as [s IH] using string_length_ind. intros Hs Hw.
  rewrite all_white_eq in Hs.
  destruct s as [|c t]; [exact Hw|].
  destruct (white_prefix (String c t)) as [r|] eqn:Hp; [|discriminate].
  rewrite all_white_eq. cbn [append].
  change (String c (t ++ w)) with (String c t ++ w).
  rewrite (white_prefix_app _ _ w Hp).
  apply IH; auto. eapply white_prefix_shorter. exact Hp.
Qed.

Lemma trimEnd_split s :
  exists w, s = trimEnd s ++ w /\ all_white w = true.
Proof.
  induction s as [|c t IH]; [exists EmptyString; auto|].
  cbn [trimEnd]. destruct (all_white (String c t)) eqn:Hw.
  - exists (String c t). auto.
  - destruct IH as (w & Ht & Hw'). exists w. cbn. rewrite <- Ht. auto.
Qed.

Lemma trimEnd_idempotent s : trimEnd (trimEnd s) = trimEnd s.
Proof.
  induction s as [|c t IH]; [reflexivity|].
  cbn [trimEnd]. destruct (all_white (String c t)) eqn:Hw; [reflexivity|].
  cbn [trimEnd]. rewrite IH.
  destruct (all_white (String c (trimEnd t))) eqn:Hw'; [|reflexivity].
  exfalso. destruct (trimEnd_split t) as (w & Ht & Hww).
  assert (H : all_white (String c (trimEnd t) ++ w) = true)
    by (apply all_white_app; assumption).
  cbn [append] in H. rewrite <- Ht in H. congruence.
Qed.

Lemma trimEnd_not_white s :
  white_prefix s = None -> white_prefix (trimEnd s) = None.
Proof.
  intros Hs. destruct (white_prefix (trimEnd s)) as [r|] eqn:Hp; [|reflexivity].
  destruct (trimEnd_split s) as (w & Hsplit & _).
  apply (white_prefix_app _ _ w) in Hp. rewrite <- Hsplit in Hp. congruence.
Qed.

Lemma trim_idempotent s : trim (trim s) = trim s.
Proof.
  unfold trim.
  destruct (trimStart_not_white s) as [-> | Hs]; [reflexivity|].
  rewrite (trimStart_fixed (trimEnd (trimStart s))).
  - apply trimEnd_idempotent.
  - apply trimEnd_not_white. exact Hs.
Qed.

Lemma call_trim_fixed v v' :
  call_trim v = Returns v' -> call_trim v' = Returns v'.
Proof.
  destruct v; cbn; try discriminate.
  intros H; inversion H; subst. cbn. rewrite trim_idempotent. reflexivity.
Qed.

Lemma map_trim_trimmed items : forall items',
  map_trim items = Returns items' -> Forall trimmed items'.
Proof.
  induction items as [|x rest IH]; cbn; intros items'.
  - intros H; inversion H; constructor.
  - destruct (call_trim x) as [x'|e] eqn:Hx; [|discriminate].
    destruct (map_trim rest) as [rest'|e]; [|discriminate].
    intros H; inversion H; subst. constructor; [|auto].
    destruct x; cbn in Hx; try discriminate. inversion Hx; subst.
    eexists. split; [reflexivity | apply trim_idempotent].
Qed.

Lemma map_trim_fixed items :
  Forall trimmed items -> map_trim items = Returns items.
Proof.
  induction 1 as [|x rest (s & -> & Hs) _ IH]; cbn; [reflexivity|].
  rewrite Hs, IH. reflexivity.
Qed.

Lemma filter_nonempty_fixed items :
  filter nonempty (filter nonempty items) = filter nonempty items.
Proof.
  induction items as [|x rest IH]; cbn; [reflexivity|].
  destruct (nonempty x) eqn:Hx; cbn; [rewrite Hx, IH|]; auto.
Qed.

Lemma call_trim_each_fixed v v' :
  call_trim_each v = Returns v' -> call_trim_each v' = Returns v'.
Proof.
  destruct v; cbn; try discriminate.
  destruct (map_trim items) as [items'|e] eqn:Hm; [|discriminate].
  intros H; inversion H; subst. cbn.
  rewrite map_trim_fixed.
  - rewrite filter_nonempty_fixed. reflexivity.
  - apply Forall_filter. eapply map_trim_trimmed. exact Hm.
Qed.

Lemma optional_call_trim_fixed v v' :
  optional call_trim v = Returns v' -> optional call_trim v' = Returns v'.
Proof.
  destruct v; cbn; try discriminate;
    intros H; inversion H; subst; cbn; try reflexivity.
  rewrite trim_idempotent. reflexivity.
Qed.

Lemma optional_call_trim_each_fixed v v' :
  optional call_trim_each v = Returns v' ->
  optional call_trim_each v' = Returns v'.
Proof.
  destruct v; try (cbn; discriminate);
    try (cbn; intros H; inversion H; reflexivity).
  cbn [optional]. intros H. pose proof (call_trim_each_fixed _ _ H) as H'.
  destruct v'; cbn in H' |- *; try discriminate; exact H'.
Qed.

(** X22: sanitizing is idempotent. When [sanitizeHealthLogData] returns,
    sanitizing its result again returns the same object: strings are
    trimmed once and for all, and the tags and attachments that were
    blank are gone. *)
Theorem sanitizing_twice_changes_nothing (data sanitized : object) :
  sanitizeHealthLogData data = Returns sanitized ->
  sanitizeHealthLogData sanitized = Returns sanitized.
Proof.
  unfold sanitizeHealthLogData.
  destruct (call_trim (prop data "title")) as [title|e] eqn:Ht; [|discriminate].
  destruct (call_trim (prop data "description")) as [description|e] eqn:Hd;
    [|discriminate].
  destruct (call_trim_each (prop data "tags")) as [tags|e] eqn:Hg;
    [|discriminate].
  destruct (optional call_trim (prop data "notes")) as [notes|e] eqn:Hn;
    [|discriminate].
  destruct (optional call_trim_each (prop data "attachments"))
    as [attachments|e] eqn:Ha; [|discriminate].
  intros H; inversion H; subst; clear H.
  cbn [prop String.eqb Ascii.eqb Bool.eqb].
  rewrite (call_trim_fixed _ _ Ht), (call_trim_fixed _ _ Hd),
    (call_trim_each_fixed _ _ Hg),
    (optional_call_trim_fixed _ _ Hn),
    (optional_call_trim_each_fixed _ _ Ha).
  reflexivity.
Qed.

End SanitizingFacts.

Section RecordListFacts.
Import Database Notions HealthLogLists.
Context {crypto : CryptoJS} {json : JSON} {dates : Dates}.
Variable sort_by_date : list value -> completion (list value).
Variable encryptionKey : string.

(** X23: creating a record writes one encrypted row or nothing. When
    [createHealthLog] throws, the table is as it was, and when the
    sanitized data is invalid it throws the validation message itself with
    the store untouched. When it returns, the table has one more row, of
    the user, unsynced, whose payload is the ciphertext the library gave
    for the JSON text of the returned record; and that record is the
    sanitized data under the generated id. *)
Theorem create_writes_one_encrypted_row_or_nothing
  (now : Z) (salt healthLogId : string) (userId : Z) (data : object)
  (d d' : DatabaseService) (out : completion object) :
  createHealthLog encryptionKey now salt healthLogId userId data d
    = (out, d') ->
  match out with
  | Throws e =>
      rows d' = rows d
      /\ (forall sanitized,
            Sanitizing.sanitizeHealthLogData data = Returns sanitized ->
            Validation.validateHealthLogData now sanitized <> [] ->
            d' = d
            /\ e = ErrorObj (HealthLogs.validation_message
                               (Validation.validateHealthLogData now sanitized)))
  | Returns healthLog =>
      exists sanitized row,
        Sanitizing.sanitizeHealthLogData data = Returns sanitized
        /\ Validation.validateHealthLogData now sanitized = []
        /\ healthLog = spread sanitized [("id", Str healthLogId)]
        /\ AES_encrypt (stringify healthLog) encryptionKey salt
           = Returns (encrypted_data row)
        /\ rows d' = (rows d ++ [row])%list
        /\ user_id row = userId
        /\ synced_at row = None /\ cloud_id row = None
  end.
Proof.
  unfold createHealthLog, bind at 1. unfold pure.
  destruct (Sanitizing.sanitizeHealthLogData data) as [sanitized|e0] eqn:Hsan.
  2:{ intros H; injection H as <- <-. split; [reflexivity|].
      intros ? Hs; discriminate. }
  destruct (Validation.validateHealthLogData now sanitized) as [|err errs] eqn:Hval;
    cbn [Validation.isValid negb].
  2:{ unfold throw. intros H; injection H as <- <-. split; [reflexivity|].
      intros s0 Hs0. injection Hs0 as <-. rewrite Hval. auto. }
  unfold try_catch.
  unfold Encryption.encrypt.
  destruct (falsy (stringify (spread sanitized [("id", Str healthLogId)]))
            || falsy encryptionKey)%bool;
    cbn [Encryption.encryption_success negb Encryption.encryption_error
         or_else throw].
  { intros H; injection H as <- <-. split; [reflexivity|].
    intros s0 Hs0 Hne. injection Hs0 as <-. congruence. }
  destruct (AES_encrypt (stringify (spread sanitized [("id", Str healthLogId)]))
              encryptionKey salt) as [c|e1] eqn:Henc;
    cbn [Encryption.encryption_success negb Encryption.encryption_error
         or_else throw Encryption.encryptedData].
  2:{ intros H; injection H as <- <-. split; [reflexivity|].
      intros s0 Hs0 Hne. injection Hs0 as <-. congruence. }
  unfold bind.
  destruct (Database.createHealthLog userId c d) as [[rowid|e2] d1] eqn:Hc.
  - cbn [ret]. intros H; injection H as <- <-.
    apply store_call_cases in Hc. unfold rows.
    destruct (db d) as [s|]; [|destruct Hc as [_ Hc]; discriminate].
    destruct (driver_fault s (statements s));
      destruct Hc as [-> Hc]; [discriminate|].
    cbn. eexists. eexists. repeat split; try reflexivity; assumption.
  - intros H; injection H as <- <-. split.
    + change d1 with (snd (Throws (A:=Z) e2, d1)). rewrite <- Hc.
      unfold Database.createHealthLog. rewrite guarded_statement_rows.
      unfold rows.
      apply store_call_cases in Hc.
      destruct (db d) as [s|]; [|reflexivity].
      destruct (driver_fault s (statements s)); [reflexivity|].
      destruct Hc as [_ Hc]. discriminate.
    + intros s0 Hs0 Hne. injection Hs0 as <-. congruence.
Qed.

Lemma decrypt_each_app logs : forall acc,
  decrypt_each encryptionKey logs acc
  = (acc ++ decrypt_each encryptionKey logs [])%list.
Proof.
  induction logs as [|x rest IH]; intros acc; cbn [decrypt_each].
  - rewrite app_nil_r. reflexivity.
  - destruct (negb _); [apply IH|].
    destruct (parse _) as [v|e]; [|apply IH].
    rewrite IH, (IH ([] ++ [v])%list). cbn [app].
    rewrite <- app_assoc. reflexivity.
Qed.

Lemma decrypt_each_filter logs :
  decrypt_each encryptionKey (filter (decryptable encryptionKey) logs) []
  = decrypt_each encryptionKey logs [].
Proof.
  induction logs as [|x rest IH]; [reflexivity|].
  cbn [filter]. unfold decryptable at 1.
  destruct (Encryption.success
              (Encryption.decrypt (encrypted_data x) encryptionKey)) eqn:Hx.
  - cbn [decrypt_each]. rewrite Hx. cbn [negb].
    destruct (parse _) as [v|e]; [|exact IH].
    rewrite decrypt_each_app, (decrypt_each_app rest). rewrite IH.
    reflexivity.
  - cbn [decrypt_each]. rewrite Hx. cbn [negb]. exact IH.
Qed.

Lemma insert_desc_front r l :
  Forall (fun y => created_at y <= created_at r) l ->
  insert_desc r l = r :: l.
Proof.
  destruct l as [|x l]; [reflexivity|]. intros H. inversion H; subst.
  cbn. destruct (created_at x <=? created_at r) eqn:Hc; [reflexivity|].
  apply Z.leb_gt in Hc. lia.
Qed.

Lemma filter_insert_desc keep r l :
  newest_first l ->
  filter keep (insert_desc r l)
  = if keep r then insert_desc r (filter keep l) else filter keep l.
Proof.
  unfold newest_first. induction 1 as [|x l Hl IH Hx].
  - cbn. destruct (keep r); reflexivity.
  - cbn [insert_desc].
    destruct (created_at x <=? created_at r) eqn:Hc.
    + apply Z.leb_le in Hc. cbn [filter].
      destruct (keep r) eqn:Hr; [|reflexivity].
      destruct (keep x) eqn:Hkx.
      * cbn [insert_desc]. apply Z.leb_le in Hc. rewrite Hc. reflexivity.
      * symmetry. apply insert_desc_front. apply Forall_filter.
        eapply Forall_impl; [|exact Hx]. cbn. intros; lia.
    + cbn [filter]. rewrite IH.
      destruct (keep x) eqn:Hkx; destruct (keep r) eqn:Hr; try reflexivity.
      cbn [insert_desc]. rewrite Hc. reflexivity.
Qed.

Lemma filter_order_desc keep l :
  filter keep (order_by_created_at_desc l)
  = order_by_created_at_desc (filter keep l).
Proof.
  induction l as [|x l IH]; [reflexivity|].
  cbn [order_by_created_at_desc fold_right filter].
  fold (order_by_created_at_desc l).
  rewrite filter_insert_desc by apply order_desc_sorted.
  rewrite IH. destruct (keep x); reflexivity.
Qed.

Lemma filter_comm {A} (f g : A -> bool) l :
  filter f (filter g l) = filter g (filter f l).
Proof.
  induction l as [|x l IH]; [reflexivity|]. cbn.
  destruct (f x) eqn:Hf; destruct (g x) eqn:Hg; cbn;
    rewrite ?Hf, ?Hg, IH; reflexivity.
Qed.

(** X24: rows that cannot be decrypted do not exist for the list of
    records. The outcome of [getAllHealthLogs] on a store is its outcome
    on the store without the rows that do not decrypt under the key of
    the service: such a row (a corrupted payload, a row written under
    another key) never makes the call fail and never changes the records
    returned or their order. *)
Theorem list_ignores_undecryptable_rows (userId : Z) (d : DatabaseService) :
  fst (getAllHealthLogs sort_by_date encryptionKey userId d)
  = fst (getAllHealthLogs sort_by_date encryptionKey userId
           (only (decryptable encryptionKey) d)).
Proof.
  unfold getAllHealthLogs, try_catch, bind, getHealthLogsByUserId,
    guarded, statement, only.
  destruct (db d) as [s|] eqn:Hdb; [|rewrite Hdb; reflexivity].
  cbn [db with_rows driver_fault statements health_logs current_timestamp].
  destruct (driver_fault s (statements s)); [reflexivity|].
  unfold pure.
  rewrite (filter_comm _ (decryptable encryptionKey)).
  rewrite <- (filter_order_desc (decryptable encryptionKey)).
  rewrite decrypt_each_filter.
  destruct (sort_by_date _); reflexivity.
Qed.

(** X25: a record that has been created can be read back. From a store
    reached from an empty table, if [createHealthLog] returns a record,
    the library decrypts the ciphertext it gave for the JSON text of that
    record back to that text, and the driver accepts the next statement,
    then [getHealthLog] of the id of the new row returns what [JSON.parse]
    gives for that text: the record, as JSON carries it. *)
Theorem created_record_is_read_back
  (d0 : DatabaseService) (calls : list Claimed.StoreCall)
  (now : Z) (salt healthLogId : string) (userId : Z) (data healthLog : object)
  (parsed : value) (d1 : DatabaseService) :
  rows d0 = [] ->
  createHealthLog encryptionKey now salt healthLogId userId data
    (Claimed.after_all calls d0) = (Returns healthLog, d1) ->
  (forall ciphertext,
     AES_encrypt (stringify healthLog) encryptionKey salt = Returns ciphertext ->
     ciphertext <> EmptyString
     /\ AES_decrypt_Utf8 ciphertext encryptionKey
        = Returns (stringify healthLog)) ->
  parse (stringify healthLog) = Returns parsed ->
  next_statement_accepted d1 ->
  exists row,
    rows d1 = (rows (Claimed.after_all calls d0) ++ [row])%list
    /\ fst (HealthLogs.getHealthLog encryptionKey (id row) d1)
       = Returns parsed.
Proof.
  intros Hempty Hcreate Hcrypto Hjson Hacc.
  assert (Hd : numbered (Claimed.after_all calls d0))
    by (apply after_all_keeps_numbered, empty_numbered, Hempty).
  set (d := Claimed.after_all calls d0) in *.
  revert Hcreate.
  unfold createHealthLog, bind at 1. unfold pure.
  destruct (Sanitizing.sanitizeHealthLogData data) as [sanitized|e0];
    [|discriminate].
  destruct (Validation.validateHealthLogData now sanitized) as [|err errs];
    cbn [Validation.isValid negb]; [|discriminate].
  unfold try_catch. unfold Encryption.encrypt.
  destruct (falsy (stringify (spread sanitized [("id", Str healthLogId)])))
    eqn:Hdata; cbn [orb Encryption.encryption_success negb throw];
    [discriminate|].
  destruct (falsy encryptionKey) eqn:Hkey;
    cbn [orb Encryption.encryption_success negb throw]; [discriminate|].
  destruct (AES_encrypt (stringify (spread sanitized [("id", Str healthLogId)]))
              encryptionKey salt) as [c|e1] eqn:Henc;
    cbn [Encryption.encryption_success negb throw Encryption.encryptedData];
    [|discriminate].
  unfold bind.
  destruct (Database.createHealthLog userId c d) as [[rowid|e2] d2] eqn:Hc;
    [|discriminate].
  cbn [ret]. intros H; injection H as <- <-.
  destruct (Hcrypto c Henc) as [Hc_ne Hdec].
  apply store_call_cases in Hc. unfold numbered, rows in *.
  destruct (db d) as [s|]; [|destruct Hc as [_ Hc]; discriminate].
  destruct (driver_fault s (statements s));
    destruct Hc as [-> Hc]; [discriminate|]. clear Hc.
  unfold next_statement_accepted in Hacc. cbn in Hacc.
  eexists. split; [cbn; reflexivity|].
  unfold HealthLogs.getHealthLog, try_catch, bind, getHealthLogById,
    guarded, statement.
  cbn [db snd fst next_statement with_sequence with_rows health_logs
       driver_fault statements current_timestamp id].
  rewrite Hacc.
  rewrite find_app_not_before.
  - cbn [encrypted_data]. unfold Encryption.decrypt.
    destruct c as [|c0 c]; [congruence|]. cbn [falsy orb]. rewrite Hkey.
    rewrite Hdec, Hdata.
    cbn [Encryption.success negb Encryption.decryptedData pure].
    rewrite Hjson. reflexivity.
  - intros y Hy. destruct Hd as [_ Hle]. rewrite Forall_forall in Hle.
    specialize (Hle y Hy). apply Z.eqb_neq. lia.
  - cbn. apply Z.eqb_refl.
Qed.

Lemma getHealthLogById_rows id0 d :
  rows (snd (getHealthLogById id0 d)) = rows d.
Proof.
  unfold getHealthLogById. rewrite guarded_statement_rows. unfold rows.
  destruct (db d) as [s|]; [|reflexivity].
  destruct (driver_fault s (statements s)); reflexivity.
Qed.

Lemma getHealthLog_rows healthLogId d :
  rows (snd (HealthLogs.getHealthLog encryptionKey healthLogId d)) = rows d.
Proof.
  pose proof (getHealthLogById_rows healthLogId d) as H.
  unfold HealthLogs.getHealthLog, try_catch, bind.
  destruct (getHealthLogById healthLogId d) as [[[row|]|e] d1];
    cbn [snd] in H |- *; try exact H.
  destruct (negb _); cbn; [exact H|].
  unfold pure. destruct (parse _); exact H.
Qed.

Lemma store_write_rows {A} prefix
  (effect : Z -> SQLiteDatabase -> A * SQLiteDatabase) d out d' :
  guarded prefix (statement effect) d = (out, d') ->
  match out with
  | Throws _ => rows d' = rows d
  | Returns _ =>
      exists s,
        db d = Some s
        /\ rows d'
           = health_logs (snd (effect (current_timestamp s (statements s)) s))
  end.
Proof.
  intros Hc. apply store_call_cases in Hc. unfold rows.
  destruct (db d) as [s|] eqn:Hdb.
  - destruct (driver_fault s (statements s)); destruct Hc as [-> ->]; cbn.
    + reflexivity.
    + exists s. auto.
  - destruct Hc as [-> ->]. rewrite Hdb. reflexivity.
Qed.

(** X27: an update writes the new ciphertext or nothing. When
    [HealthLogService.updateHealthLog] throws, whatever the cause (the id
    check, the read, the sanitizing, the validation, the encryption or the
    write), the table is as it was; when it returns, the rows of that id
    carry the ciphertext the library gave for the JSON text of the
    returned record, and nothing else in the table has changed. *)
Theorem update_writes_the_new_ciphertext_or_nothing
  (now : Z) (salt : string) (healthLogId : Z) (data : object)
  (d d' : DatabaseService) (out : completion object) :
  HealthLogs.updateHealthLog encryptionKey now salt healthLogId data d
    = (out, d') ->
  match out with
  | Throws _ => rows d' = rows d
  | Returns sanitizedLog =>
      exists ciphertext clock,
        AES_encrypt (stringify sanitizedLog) encryptionKey salt
          = Returns ciphertext
        /\ rows d'
           = update_where_id healthLogId (set_payload ciphertext clock)
               (rows d)
  end.
Proof.
  unfold HealthLogs.updateHealthLog.
  destruct (HealthLogs.id_missing data);
    [intros H; injection H as <- <-; reflexivity|].
  unfold try_catch, bind at 1.
  pose proof (getHealthLog_rows healthLogId d) as Hread.
  destruct (HealthLogs.getHealthLog encryptionKey healthLogId d)
    as [[existingLog|e] d1]; cbn [snd] in Hread;
    [|intros H; injection H as <- <-; exact Hread].
  destruct (negb (truthy existingLog));
    [intros H; injection H as <- <-; exact Hread|].
  unfold bind at 1. unfold pure.
  destruct (HealthLogs.sanitize _) as [sanitizedLog|e];
    [|intros H; injection H as <- <-; exact Hread].
  destruct (negb (Validation.isValid _));
    [intros H; injection H as <- <-; exact Hread|].
  unfold Encryption.encrypt.
  destruct (falsy (stringify sanitizedLog) || falsy encryptionKey)%bool;
    cbn [Encryption.encryption_success negb throw];
    [intros H; injection H as <- <-; exact Hread|].
  destruct (AES_encrypt (stringify sanitizedLog) encryptionKey salt)
    as [c|e] eqn:Henc;
    cbn [Encryption.encryption_success negb throw Encryption.encryptedData];
    [|intros H; injection H as <- <-; exact Hread].
  unfold bind.
  destruct (Database.updateHealthLog healthLogId c d1) as [[[]|e] d2] eqn:Hw;
    apply store_write_rows in Hw; intros H; injection H as <- <-.
  - destruct Hw as (s & Hdb & Hrows). cbn in Hrows.
    exists c. eexists. split; [exact Henc|].
    rewrite Hrows, <- Hread. unfold rows. rewrite Hdb. reflexivity.
  - rewrite Hw. exact Hread.
Qed.

(** X28: a delete removes the rows of the id or nothing. When
    [HealthLogService.deleteHealthLog] throws (the record is missing,
    cannot be read under the key, or the statement is rejected), the table
    is as it was; when it returns, the table is the old one without the
    rows of that id, and the record was there and readable. *)
Theorem delete_removes_the_record_or_nothing
  (healthLogId : Z) (d d' : DatabaseService) (out : completion unit) :
  HealthLogs.deleteHealthLog encryptionKey healthLogId d = (out, d') ->
  match out with
  | Throws _ => rows d' = rows d
  | Returns _ =>
      rows d' = filter (fun r => negb (id r =? healthLogId)) (rows d)
      /\ exists existingLog,
           fst (HealthLogs.getHealthLog encryptionKey healthLogId d)
           = Returns existingLog
           /\ truthy existingLog = true
  end.
Proof.
  unfold HealthLogs.deleteHealthLog, try_catch, bind.
  pose proof (getHealthLog_rows healthLogId d) as Hread.
  destruct (HealthLogs.getHealthLog encryptionKey healthLogId d)
    as [[existingLog|e] d1]; cbn [snd fst] in Hread |- *;
    [|intros H; injection H as <- <-; exact Hread].
  destruct (truthy existingLog) eqn:Htruthy; cbn [negb];
    [|intros H; injection H as <- <-; exact Hread].
  destruct (Database.deleteHealthLog healthLogId d1) as [[[]|e] d2] eqn:Hw;
    apply store_write_rows in Hw; intros H; injection H as <- <-.
  - destruct Hw as (s & Hdb & Hrows). cbn in Hrows. split; [|eauto].
    rewrite Hrows, <- Hread. unfold rows. rewrite Hdb. reflexivity.
  - rewrite Hw. exact Hread.
Qed.

End RecordListFacts.

(** ** EncryptionService: the shape of its results *)

Section EncryptionFacts.
Import Encryption.
Context {crypto : CryptoJS}.

(** X26: the results of [encrypt] and [decrypt] are consistent, whatever
    the library does. [success] holds exactly when [error] is absent; a
    failure carries the empty string as its data; a successful decryption
    never carries the empty string (an empty plaintext from the library is
    reported as [Invalid key or corrupted data]); and with an empty
    argument both fail with their own message, whatever the library would
    have answered. *)
Theorem encryption_results_are_consistent
  (salt data key ciphertext : string) :
  let e := encrypt salt data key in
  let r := decrypt ciphertext key in
  (encryption_success e = true <-> encryption_error e = None)
  /\ (encryption_success e = false -> encryptedData e = EmptyString)
  /\ (success r = true <-> error r = None)
  /\ (success r = false -> decryptedData r = EmptyString)
  /\ (success r = true ->
      decryptedData r <> EmptyString
      /\ AES_decrypt_Utf8 ciphertext key = Returns (decryptedData r))
  /\ (AES_decrypt_Utf8 ciphertext key = Returns EmptyString ->
      ciphertext <> EmptyString -> key <> EmptyString ->
      error r = Some "Decryption failed: Invalid key or corrupted data")
  /\ (data = EmptyString \/ key = EmptyString ->
      encryption_error e = Some "Data and key are required for encryption")
  /\ (ciphertext = EmptyString \/ key = EmptyString ->
      error r = Some "Encrypted data and key are required for decryption").
Proof.
  cbv zeta. unfold encrypt, decrypt.
  destruct data as [|cd data]; destruct key as [|ck key];
    destruct ciphertext as [|cc ciphertext]; cbn [falsy orb];
    try (destruct (AES_encrypt _ _ salt) as [c|e]);
    try (destruct (AES_decrypt_Utf8 _ _) as [[|cp p]|e']);
    cbn [falsy encryption_success encryption_error encryptedData
         success error decryptedData];
    repeat match goal with
           | |- _ /\ _ => split
           | |- _ <-> _ => split
           end;
    try reflexivity; try discriminate; try congruence;
    try (intros; discriminate); try (intros; congruence);
    try (intros [H | H]; discriminate);
    try (intros _; split; [discriminate | reflexivity]).
Qed.

End EncryptionFacts.

(** ** Runs of the further properties on concrete inputs *)


(** The id of the deleted row is not given to the next one. *)
Example ids_after_a_delete :
  map Database.id
    (Database.rows
       (Claimed.after_all
          [Claimed.CreateHealthLog 7 "Salted__00000000.secret.{}";
           Claimed.CreateHealthLog 7 "Salted__11111111.secret.{}";
           Claimed.DeleteHealthLog 2;
           Claimed.CreateHealthLog 7 "Salted__22222222.secret.{}"]
          Fixture.open_service))
  = [1; 3].
Proof. vm_compute. reflexivity. Qed.

(** X2 at an insert that follows an insert and its delete. *)
Lemma created_row_is_found_by_its_id_witness :
  exists row d2,
    Database.getHealthLogById 2
      (snd (Database.createHealthLog 7 "Salted__11111111.secret.{}"
              (Claimed.after_all
                 [Claimed.CreateHealthLog 7 "Salted__00000000.secret.{}";
                  Claimed.DeleteHealthLog 1]
                 Fixture.open_service)))
    = (Returns (Some row), d2)
    /\ Database.id row = 2 /\ Database.user_id row = 7
    /\ Database.encrypted_data row = "Salted__11111111.secret.{}"
    /\ Database.synced_at row = None /\ Database.cloud_id row = None
    /\ Database.rows d2
       = (Database.rows
            (Claimed.after_all
               [Claimed.CreateHealthLog 7 "Salted__00000000.secret.{}";
                Claimed.DeleteHealthLog 1]
               Fixture.open_service) ++ [row])%list.
Proof.
  exact (created_row_is_found_by_its_id Fixture.open_service
           [Claimed.CreateHealthLog 7 "Salted__00000000.secret.{}";
            Claimed.DeleteHealthLog 1]
           7 "Salted__11111111.secret.{}" 2 _ eq_refl eq_refl eq_refl).
Defined.

(** X3 at a store with two rows. *)
Lemma delete_removes_only_that_id_witness :
  Notions.row_of 1
    (snd (Database.deleteHealthLog 1
            (Fixture.store [Fixture.first_row; Fixture.second_row] [])))
  = None
  /\ Notions.row_of 2
       (snd (Database.deleteHealthLog 1
               (Fixture.store [Fixture.first_row; Fixture.second_row] [])))
     = Some Fixture.second_row.
Proof.
  destruct (delete_removes_only_that_id 1
              (Fixture.store [Fixture.first_row; Fixture.second_row] [])
              (snd (Database.deleteHealthLog 1
                      (Fixture.store [Fixture.first_row; Fixture.second_row]
                                     [])))
              eq_refl) as (Hgone & Hothers & _).
  split; [exact Hgone|].
  rewrite (Hothers 2); [reflexivity | discriminate].
Defined.

(** X4 at a store with a synced row, which stays synced. *)
Lemma update_replaces_only_the_payload_witness :
  Notions.row_of 3
    (snd (Database.updateHealthLog 3 "Salted__44444444.secret.{}"
            (Fixture.store [Fixture.first_row; Scenario.synced_row] [])))
  = Some (Database.mkHealthLogRecord 3 7 "Salted__44444444.secret.{}"
            1700000030 1700000100 (Some 1700000040) (Some "cloud-0"))
  /\ Notions.row_of 1
       (snd (Database.updateHealthLog 3 "Salted__44444444.secret.{}"
               (Fixture.store [Fixture.first_row; Scenario.synced_row] [])))
     = Some Fixture.first_row.
Proof.
  destruct (update_replaces_only_the_payload 3 "Salted__44444444.secret.{}"
              (Fixture.store [Fixture.first_row; Scenario.synced_row] [])
              (snd (Database.updateHealthLog 3 "Salted__44444444.secret.{}"
                      (Fixture.store [Fixture.first_row; Scenario.synced_row]
                                     [])))
              eq_refl) as (Hothers & _ & _).
  split; [reflexivity|].
  rewrite (Hothers 1); [reflexivity | discriminate].
Defined.

(** X6 at a table in which the newer pending row comes first. *)
Lemma unsynced_query_is_oldest_first_and_complete_witness :
  Notions.oldest_first [Fixture.first_row; Fixture.second_row]
  /\ Permutation [Fixture.first_row; Fixture.second_row]
       (filter (Notions.pending 7)
          (Database.rows
             (Fixture.store [Fixture.second_row; Scenario.synced_row;
                             Scenario.foreign_row; Fixture.first_row] [])))
  /\ Database.rows
       (snd (Database.getUnsyncedHealthLogs 7
               (Fixture.store [Fixture.second_row; Scenario.synced_row;
                               Scenario.foreign_row; Fixture.first_row] [])))
     = Database.rows
         (Fixture.store [Fixture.second_row; Scenario.synced_row;
                         Scenario.foreign_row; Fixture.first_row] []).
Proof.
  exact (unsynced_query_is_oldest_first_and_complete 7
           (Fixture.store [Fixture.second_row; Scenario.synced_row;
                           Scenario.foreign_row; Fixture.first_row] [])
           _ [Fixture.first_row; Fixture.second_row] eq_refl).
Defined.

(** X7 at the same table. *)
Lemma user_query_is_newest_first_and_complete_witness :
  Notions.newest_first
    [Fixture.second_row; Scenario.synced_row; Fixture.first_row]
  /\ Permutation [Fixture.second_row; Scenario.synced_row; Fixture.first_row]
       (filter (fun r => Database.user_id r =? 7)
          (Database.rows
             (Fixture.store [Fixture.second_row; Scenario.synced_row;
                             Scenario.foreign_row; Fixture.first_row] [])))
  /\ Database.rows
       (snd (Database.getHealthLogsByUserId 7
               (Fixture.store [Fixture.second_row; Scenario.synced_row;
                               Scenario.foreign_row; Fixture.first_row] [])))
     = Database.rows
         (Fixture.store [Fixture.second_row; Scenario.synced_row;
                         Scenario.foreign_row; Fixture.first_row] []).
Proof.
  exact (user_query_is_newest_first_and_complete 7
           (Fixture.store [Fixture.second_row; Scenario.synced_row;
                           Scenario.foreign_row; Fixture.first_row] [])
           _ [Fixture.second_row; Scenario.synced_row; Fixture.first_row]
           eq_refl).
Defined.

(** X8 at a store that is closed when the queue is read. *)
Lemma failed_sync_has_uploaded_nothing_witness :
  let w := Fixture.world (Database.mkDatabaseService None)
             [Fixture.online; Fixture.signed_in] false in
  fst (Sync.syncHealthLogs 7 w)
  = Throws (ErrorObj "Sync failed: Database not initialized")
  /\ Notions.uploads (snd (Sync.syncHealthLogs 7 w)) = Notions.uploads w.
Proof.
  intros w.
  destruct (failed_sync_has_uploaded_nothing 7 w (snd (Sync.syncHealthLogs 7 w))
              (ErrorObj "Sync failed: Database not initialized") eq_refl)
    as (_ & Hup & _).
  split; [reflexivity | exact Hup].
Defined.

(** X9 at two pending rows, a synced row and a row of another user, where
    the second upload is refused. *)
Lemma sync_changes_only_sync_fields_witness :
  let w := Fixture.world
             (Fixture.store [Fixture.second_row; Scenario.synced_row;
                             Scenario.foreign_row; Fixture.first_row] [])
             [Fixture.online; Fixture.signed_in;
              Supabase.Resolves (Some "cloud-1") None;
              Supabase.Resolves None (Some "HTTP 503 Service Unavailable")]
             false in
  Forall2 Notions.same_or_marked
    (Database.rows (Sync.database w))
    (Database.rows (Sync.database (snd (Sync.syncHealthLogs 7 w)))).
Proof.
  intros w.
  exact (sync_changes_only_sync_fields 7 w _ _ eq_refl).
Defined.


(** What that run uploads and what it leaves in the table. *)
Example sync_of_a_mixed_table :
  let w := Fixture.world
             (Fixture.store [Fixture.second_row; Scenario.synced_row;
                             Scenario.foreign_row; Fixture.first_row] [])
             [Fixture.online; Fixture.signed_in;
              Supabase.Resolves (Some "cloud-1") None;
              Supabase.Resolves None (Some "HTTP 503 Service Unavailable")]
             false in
  Notions.uploads (snd (Sync.syncHealthLogs 7 w))
  = [Supabase.Insert "user-1" "Salted__00000000.secret.{}" "device-1";
     Supabase.Insert "user-1" "Salted__11111111.secret.{}" "device-1"]
  /\ Claimed.sync_fields (Sync.database (snd (Sync.syncHealthLogs 7 w)))
     = [(2, None, None); (3, Some 1700000040, Some "cloud-0");
        (4, None, None); (1, Some 1700000101, Some "cloud-1")].
Proof. split; vm_compute; reflexivity. Qed.


(** X12 at a backend that does not answer. *)
Lemma sync_stops_before_the_store_when_offline_or_signed_out_witness :
  let w := Fixture.world (Fixture.store [Fixture.first_row] [])
             [Fixture.unreachable] false in
  Sync.syncHealthLogs 7 w
  = (Throws (ErrorObj "Sync failed: No internet connection available"),
     Claimed.after_request Supabase.SelectOne w).
Proof.
  intros w.
  exact (proj1 (sync_stops_before_the_store_when_offline_or_signed_out 7 w
                  eq_refl eq_refl) eq_refl).
Defined.

(** X13 at two rows of the user, one of them uploaded. *)
Lemma sync_stats_add_up_witness :
  let w := Fixture.world
             (Fixture.store [Fixture.first_row; Scenario.synced_row;
                             Scenario.foreign_row] [])
             [] false in
  exists stats,
    fst (Statistics.getSyncStats Scenario.round_percentage 7 w)
    = Returns stats
    /\ Statistics.totalLogs stats = 2
    /\ Statistics.unsyncedLogs stats = 1
    /\ Statistics.syncedLogs stats
       = Statistics.totalLogs stats - Statistics.unsyncedLogs stats.
Proof.
  intros w.
  destruct (sync_stats_add_up Scenario.round_percentage 7 w
              (snd (Statistics.getSyncStats Scenario.round_percentage 7 w))
              (Statistics.mkSyncStats 2 1 1 50) eq_refl)
    as (Htotal & Hunsynced & Hsynced & _).
  eexists. split; [reflexivity|].
  split; [exact Htotal|]. split; [exact Hunsynced | exact Hsynced].
Defined.


(** X17 at the removal of the key of one of two users. *)
Lemma key_calls_spare_other_users_witness :
  let s := Scenario.faulty_keychain
             [("user_encryption_key_alice", "key-a");
              ("encryption_salt_alice", "salt-a");
              ("user_encryption_key_bob", "key-b");
              ("encryption_salt_bob", "salt-b")] [] in
  KeyManager.stored_key "bob"
    (KeyManager.after Scenario.pbkdf2 KeyManager.RemoveUserKey "alice" s)
  = KeyManager.stored_key "bob" s
  /\ KeyManager.stored_salt "bob"
       (KeyManager.after Scenario.pbkdf2 KeyManager.RemoveUserKey "alice" s)
     = KeyManager.stored_salt "bob" s.
Proof.
  intros s.
  apply (key_calls_spare_other_users Scenario.pbkdf2 KeyManager.RemoveUserKey
           "alice" "bob" s).
  discriminate.
Defined.

(** X18 at a key generated into an empty keychain. *)
Lemma stored_key_is_retrieved_witness :
  let s1 := snd (KeyManager.generateAndStoreUserKey (Returns "key-1") "alice"
                   Scenario.keychain) in
  fst (KeyManager.getUserKey "alice" s1)
  = Returns (KeyManager.mkKeyResult (Some "key-1") true None)
  /\ fst (KeyManager.hasUserKey "alice" s1) = Returns true.
Proof.
  intros s1.
  apply (stored_key_is_retrieved Scenario.pbkdf2 (Returns "key-1") "alice"
           "password" Scenario.keychain s1
           (KeyManager.mkKeyResult (Some "key-1") true None)).
  - left. reflexivity.
  - reflexivity.
  - discriminate.
  - intros i Hi. reflexivity.
Defined.

(** X19 at a keychain that rejects the delete of the salt. *)
Lemma removed_key_is_gone_witness :
  let s := Scenario.faulty_keychain
             [("user_encryption_key_alice", "key-a");
              ("encryption_salt_alice", "salt-a")] [1%nat] in
  fst (KeyManager.removeUserKey "alice" s)
  = Returns (KeyManager.failure "Failed to remove user key: Keychain is locked")
  /\ KeyManager.stored_key "alice" (snd (KeyManager.removeUserKey "alice" s))
     = None
  /\ KeyManager.stored_salt "alice" (snd (KeyManager.removeUserKey "alice" s))
     = Some "salt-a".
Proof.
  intros s.
  destruct (removed_key_is_gone "alice" s
              (snd (KeyManager.removeUserKey "alice" s))
              (KeyManager.failure
                 "Failed to remove user key: Keychain is locked")
              eq_refl) as (_ & Hgone).
  split; [reflexivity|]. split; [|reflexivity].
  apply Hgone; [discriminate | reflexivity].
Defined.

(** X20 at a rotation that succeeds. *)
Lemma rotation_keeps_a_key_witness :
  let s := Scenario.faulty_keychain
             [("user_encryption_key_alice", "key-a");
              ("encryption_salt_alice", "salt-a")] [] in
  fst (KeyManager.rotateUserKey (Returns "key-2") "alice" s)
  = Returns (KeyManager.mkRotationResult (Some "key-a") (Some "key-2")
               true None)
  /\ exists old new,
       KeyManager.stored_key "alice" s = Some old
       /\ Some "key-a" = Some old
       /\ Returns "key-2" = Returns new
       /\ Some "key-2" = Some new
       /\ KeyManager.stored_key "alice"
            (snd (KeyManager.rotateUserKey (Returns "key-2") "alice" s))
          = Some new
       /\ KeyManager.stored_salt "alice"
            (snd (KeyManager.rotateUserKey (Returns "key-2") "alice" s))
          = KeyManager.stored_salt "alice" s.
Proof.
  intros s.
  destruct (rotation_keeps_a_key (Returns "key-2") "alice" s
              (snd (KeyManager.rotateUserKey (Returns "key-2") "alice" s))
              (KeyManager.mkRotationResult (Some "key-a") (Some "key-2")
                 true None)
              eq_refl) as (Hsuccess & _).
  split; [reflexivity | exact (Hsuccess eq_refl)].
Defined.

(** X21 at a first derivation into an empty keychain. *)
Lemma derived_key_is_stable_witness :
  let s1 := snd (KeyManager.deriveAndStoreKeyFromPassword Scenario.pbkdf2
                   (Returns "salt-1") "alice" "password" Scenario.keychain) in
  fst (KeyManager.deriveAndStoreKeyFromPassword Scenario.pbkdf2
         (Returns "salt-2") "alice" "password" s1)
  = Returns (KeyManager.mkKeyResult (Some "salt-1$password") true None).
Proof.
  intros s1.
  apply (derived_key_is_stable Scenario.pbkdf2 (Returns "salt-1")
           (Returns "salt-2") "alice" "password" Scenario.keychain s1
           (KeyManager.mkKeyResult (Some "salt-1$password") true None)).
  - reflexivity.
  - reflexivity.
  - discriminate.
  - intros i Hi. reflexivity.
Defined.

(** X22 at a form with padded strings and a blank tag. *)
Lemma sanitizing_twice_changes_nothing_witness :
  Sanitizing.sanitizeHealthLogData Scenario.sanitized_log
  = Returns Scenario.sanitized_log.
Proof.
  exact (sanitizing_twice_changes_nothing Scenario.new_log
           Scenario.sanitized_log eq_refl).
Defined.

(** X23 at that form and an empty table. *)
Lemma create_writes_one_encrypted_row_or_nothing_witness :
  exists sanitized row,
    Sanitizing.sanitizeHealthLogData Scenario.new_log = Returns sanitized
    /\ @Validation.validateHealthLogData Fixture.dates 1705400000000 sanitized
       = []
    /\ Scenario.created_log
       = spread sanitized [("id", Str Scenario.generated_id)]
    /\ @AES_encrypt Fixture.crypto
         (@stringify Fixture.json Scenario.created_log) "secret" "12345678"
       = Returns (Database.encrypted_data row)
    /\ Database.rows
         (snd (@HealthLogLists.createHealthLog Fixture.crypto Fixture.json
                 Fixture.dates "secret" 1705400000000 "12345678"
                 Scenario.generated_id 7 Scenario.new_log
                 Fixture.open_service))
       = (Database.rows Fixture.open_service ++ [row])%list
    /\ Database.user_id row = 7
    /\ Database.synced_at row = None /\ Database.cloud_id row = None.
Proof.
  exact (@create_writes_one_encrypted_row_or_nothing Fixture.crypto
           Fixture.json Fixture.dates "secret" 1705400000000 "12345678"
           Scenario.generated_id 7 Scenario.new_log Fixture.open_service
           (snd (@HealthLogLists.createHealthLog Fixture.crypto Fixture.json
                   Fixture.dates "secret" 1705400000000 "12345678"
                   Scenario.generated_id 7 Scenario.new_log
                   Fixture.open_service))
           (Returns Scenario.created_log) eq_refl).
Defined.

(** A title of one no-break space is blank: nothing is written. *)
Example create_rejects_a_no_break_space_title :
  let run := @HealthLogLists.createHealthLog Fixture.crypto Fixture.json
               Fixture.dates "secret" 1705400000000 "12345678"
               Scenario.generated_id 7
               (Scenario.titled Fixture.no_break_space)
               Fixture.open_service in
  fst run
  = Throws (ErrorObj
      "Validation failed: Title is required and must be a string")
  /\ Database.rows (snd run) = [].
Proof. split; vm_compute; reflexivity. Qed.

(** A title of 150 accented letters, which are 300 bytes, is within the
    limit of 200 and is stored; one of 201 is not. *)
Example create_accepts_150_accented_letters :
  let run n := @HealthLogLists.createHealthLog Fixture.crypto Fixture.json
                 Fixture.dates "secret" 1705400000000 "12345678"
                 Scenario.generated_id 7
                 (Scenario.titled (Fixture.accented n))
                 Fixture.open_service in
  (exists healthLog,
     fst (run 150%nat) = Returns healthLog
     /\ prop healthLog "title" = Str (Fixture.accented 150))
  /\ List.length (Database.rows (snd (run 150%nat))) = 1%nat
  /\ fst (run 201%nat)
     = Throws (ErrorObj
         "Validation failed: Title must be 200 characters or less")
  /\ Database.rows (snd (run 201%nat)) = [].
Proof.
  split; [eexists; split; vm_compute; reflexivity|].
  repeat split; vm_compute; reflexivity.
Qed.

(** The row that run writes. *)
Example created_row :
  map Database.encrypted_data
    (Database.rows
       (snd (@HealthLogLists.createHealthLog Fixture.crypto Fixture.json
               Fixture.dates "secret" 1705400000000 "12345678"
               Scenario.generated_id 7 Scenario.new_log
               Fixture.open_service)))
  = ["Salted__12345678.secret."
     ++ Fixture.print (Obj Scenario.created_log)].
Proof. vm_compute. reflexivity. Qed.

(** X25 at that form and an empty table, with the stand-in libraries: the
    record comes back without the two properties that are [undefined]. *)
Lemma created_record_is_read_back_witness :
  exists row,
    Database.rows
      (snd (@HealthLogLists.createHealthLog Fixture.crypto Fixture.json
              Fixture.dates "secret" 1705400000000 "12345678"
              Scenario.generated_id 7 Scenario.new_log Fixture.open_service))
    = (Database.rows Fixture.open_service ++ [row])%list
    /\ fst (@HealthLogs.getHealthLog Fixture.crypto Fixture.json "secret"
              (Database.id row)
              (snd (@HealthLogLists.createHealthLog Fixture.crypto
                      Fixture.json Fixture.dates "secret" 1705400000000
                      "12345678" Scenario.generated_id 7 Scenario.new_log
                      Fixture.open_service)))
       = Returns
           (Obj [("id", Str Scenario.generated_id);
                 ("title", Str "Morning Headache");
                 ("description", Str "Dull pain behind the eyes");
                 ("category", Str "symptom"); ("severity", Number 2);
                 ("tags", Arr [Str "head"]); ("date", Str "2024-01-15")]).
Proof.
  apply (@created_record_is_read_back Fixture.crypto Fixture.json
           Fixture.dates "secret" Fixture.open_service [] 1705400000000
           "12345678" Scenario.generated_id 7 Scenario.new_log
           Scenario.created_log).
  - reflexivity.
  - reflexivity.
  - intros ciphertext H. injection H as <-.
    split; [discriminate | reflexivity].
  - reflexivity.
  - reflexivity.
Defined.

(** X27 at the stored record and a patch of its title. *)
Lemma update_writes_the_new_ciphertext_or_nothing_witness :
  exists ciphertext clock,
    @AES_encrypt Fixture.crypto
      (@stringify Fixture.json Scenario.updated_log) "secret" "11111111"
    = Returns ciphertext
    /\ Database.rows
         (snd (@HealthLogs.updateHealthLog Fixture.crypto Fixture.json
                 Fixture.dates "secret" 1705400000000 "11111111" 1
                 Fixture.foreign_patch Fixture.store_with_one_log))
       = Database.update_where_id 1
           (Database.set_payload ciphertext clock)
           (Database.rows Fixture.store_with_one_log).
Proof.
  exact (@update_writes_the_new_ciphertext_or_nothing Fixture.crypto
           Fixture.json Fixture.dates "secret" 1705400000000 "11111111" 1
           Fixture.foreign_patch Fixture.store_with_one_log
           (snd (@HealthLogs.updateHealthLog Fixture.crypto Fixture.json
                   Fixture.dates "secret" 1705400000000 "11111111" 1
                   Fixture.foreign_patch Fixture.store_with_one_log))
           (Returns Scenario.updated_log) eq_refl).
Defined.

(** X28 at the stored record. *)
Lemma delete_removes_the_record_or_nothing_witness :
  Database.rows
    (snd (@HealthLogs.deleteHealthLog Fixture.crypto Fixture.json "secret" 1
            Fixture.store_with_one_log))
  = filter (fun r => negb (Database.id r =? 1))
           (Database.rows Fixture.store_with_one_log)
  /\ exists existingLog,
       fst (@HealthLogs.getHealthLog Fixture.crypto Fixture.json "secret" 1
              Fixture.store_with_one_log)
       = Returns existingLog
       /\ truthy existingLog = true.
Proof.
  exact (@delete_removes_the_record_or_nothing Fixture.crypto Fixture.json
           "secret" 1 Fixture.store_with_one_log
           (snd (@HealthLogs.deleteHealthLog Fixture.crypto Fixture.json
                   "secret" 1 Fixture.store_with_one_log))
           (Returns tt) eq_refl).
Defined.

(** The loop of [getAllHealthLogs] passes over a row that is not a
    ciphertext and a row written under another key. *)
Example list_passes_over_unreadable_rows :
  @HealthLogLists.decrypt_each Fixture.crypto Fixture.json "secret"
    [Scenario.corrupted_row; Fixture.stored_row;
     Database.mkHealthLogRecord 5 7 "Salted__55555555.other.{}"
       1700000070 1700000070 None None]
    []
  = [Obj Fixture.stored_log].
Proof. vm_compute. reflexivity. Qed.
